(** * GameShare: the Int64 value type and the Chain803 chain builder

    A shallow embedding of two parts of the repository:

    - [Int64] (int64.js, after saelo's jscpwn): an 8-byte little-endian
      integer held in a [Uint8Array(8)], with its constructor and the
      byte-wise [add], [sub], [neg] and [equals];
    - [Chain803Base] / [Chain803] (the PS4 8.03 chain classes): the flags
      and cursors of the chain builder, the branch context, the
      save/restore flag, [call], [syscall] and [run].

    JavaScript numbers are modelled by [Z] wherever the code only ever
    holds integers in them (byte values, positions, offsets). *)

From Stdlib Require Import ZArith Lia List Bool Ascii String HexString.
From stdpp Require Import base gmap strings list.

Local Open Scope string_scope.
Local Open Scope Z_scope.

(** ** JavaScript exceptions and completions *)

(** What a [throw] carries: the error class and its message.  The three
    further classes are the ones the specification names for the builder
    operations of [ChainBase]. *)
Inductive exn : Type :=
| Error (msg : string)
| TypeError (msg : string)
| RangeError (msg : string)
| ChainOverflowError
| UnknownGadgetError (key : string)
| TooManyArgumentsError.

(** The completion of a pure computation: a value or a thrown exception. *)
Inductive completion (A : Type) : Type :=
| Normal (a : A)
| Abrupt (e : exn).
Arguments Normal {A} a.
Arguments Abrupt {A} e.

Definition cbind {A B} (c : completion A) (k : A -> completion B) : completion B :=
  match c with
  | Normal a => k a
  | Abrupt e => Abrupt e
  end.

Notation "x <-? c ; k" := (cbind c (fun x => k))
  (at level 20, c at level 100, k at level 200, only parsing).

Fixpoint cmapM {A B} (f : A -> completion B) (l : list A) : completion (list B) :=
  match l with
  | [] => Normal []
  | x :: xs => y <-? f x ; ys <-? cmapM f xs ; Normal (y :: ys)
  end.

(** [for (var i = i0; ...; i += step) body], run for [n] iterations. *)
Fixpoint for_loop {S : Type} (n : nat) (i step : Z) (body : Z -> S -> S) (s : S) : S :=
  match n with
  | O => s
  | Datatypes.S n' => for_loop n' (i + step) step body (body i s)
  end.

(** ** Int64 (int64.js) *)

Module Int64.

(** A JavaScript number, as far as this file needs one: an integer or NaN.
    A number is a double, and a double holds every integer up to 2^53 and
    not every one above; [Num z] stands for the number [z] where that
    number exists, and what is stated of a number [z] the caller chooses
    keeps [z] below 2^53. *)
Inductive jsnum : Type :=
| NaN
| Num (z : Z).

(** The values the constructor is run on.  [JArray] is an Array or a typed
    array of integers, [JInt64] an [Int64] instance (given by the contents
    of its [bytes]), [JPlainObject] an object with no [length] property. *)
Inductive jsval : Type :=
| JUndefined
| JBoolean (b : bool)
| JNumber (n : jsnum)
| JString (s : string)
| JArray (l : list Z)
| JInt64 (bytes : list Z)
| JPlainObject.

Definition is_number (v : jsval) : bool :=
  match v with JNumber _ => true | _ => false end.

(** [x > k] and [x < k] on numbers: every comparison with NaN is false. *)
Definition num_gt (x : jsnum) (k : Z) : bool :=
  match x with NaN => false | Num z => k <? z end.
Definition num_lt (x : jsnum) (k : Z) : bool :=
  match x with NaN => false | Num z => z <? k end.

(** [x.toString(16)] *)
Definition toString16 (x : jsnum) : string :=
  match x with
  | NaN => "NaN"
  | Num Z0 => "0"
  | Num (Zpos p) => HexString.Raw.of_pos p ""
  | Num (Zneg p) => String "-" (HexString.Raw.of_pos p "")
  end.

Definition strlen (s : string) : Z := Z.of_nat (String.length s).

(** [s.substr(start, len)] for [start, len >= 0]. *)
Definition substr (s : string) (start len : nat) : string :=
  String.substring start len s.
(** [s.substr(start)] *)
Definition substr_from (s : string) (start : nat) : string :=
  String.substring start (String.length s - start) s.

(** Storing a number into a [Uint8Array] element. *)
Definition to_uint8 (x : jsnum) : Z :=
  match x with NaN => 0 | Num z => z mod 256 end.

(** *** parseInt(s, 16) *)

Definition is_white_space (c : ascii) : bool :=
  let n := Z.of_N (N_of_ascii c) in
  ((9 <=? n) && (n <=? 13)) || (n =? 32) || (n =? 160).

Fixpoint trim_start (s : string) : string :=
  match s with
  | String c s' => if is_white_space c then trim_start s' else s
  | EmptyString => s
  end.

Definition hex_digit (c : ascii) : option Z :=
  option_map Z.of_N (HexString.ascii_to_digit c).

(** The value of the longest prefix of hexadecimal digits, and whether
    that prefix has a digit at all. *)
Fixpoint hex_prefix (s : string) (acc : Z) (seen : bool) : Z * bool :=
  match s with
  | String c s' =>
      match hex_digit c with
      | Some d => hex_prefix s' (16 * acc + d) true
      | None => (acc, seen)
      end
  | EmptyString => (acc, seen)
  end.

Definition parseInt16 (s : string) : jsnum :=
  let s := trim_start s in
  let '(sign, s) :=
    match s with
    | String "-" s' => (-1, s')
    | String "+" s' => (1, s')
    | _ => (1, s)
    end in
  let s :=
    match s with
    | String "0" (String "x" s') => s'
    | String "0" (String "X" s') => s'
    | _ => s
    end in
  let '(v, seen) := hex_prefix s 0 false in
  if seen then Num (sign * v) else NaN.

(** *** unhexlify (utils.js) *)

Definition unhexlify (hexstr : string) : completion (list Z) :=
  if strlen hexstr mod 2 =? 1 then Abrupt (TypeError "Invalid hex string")
  else
    (* bytes[i / 2] = parseInt(hexstr.substr(i, 2), 16), for i = 0, 2, 4, ... *)
    Normal (for_loop (String.length hexstr / 2) 0 2
              (fun i (bytes : list Z) =>
                 (bytes ++ [to_uint8 (parseInt16 (substr hexstr (Z.to_nat i) 2))])%list)
              []).

(** *** The constructor *)

(** [bytes.set(src)] on a typed array: the source is stored from index 0;
    a source longer than the array is refused with a RangeError raised by
    the engine (the message is the engine's own). *)
Definition u8_set (bytes src : list Z) : completion (list Z) :=
  if (length bytes <? length src)%nat
  then Abrupt (RangeError "offset is out of bounds")
  else Normal (map (fun x => x mod 256) src ++ drop (length src) bytes)%list.

(** [for (let i = 0; i < 8 - low.length; i++) low = "0" + low;]
    The bound is read again at every turn, while [low] grows. *)
Fixpoint pad_low (fuel : nat) (i : Z) (low : string) : string :=
  match fuel with
  | O => low
  | S fuel' =>
      if i <? 8 - strlen low then pad_low fuel' (i + 1) (String "0" low) else low
  end.

(** The [case 'string':] arm, which the ['number'] arm falls into. *)
Definition from_string (bytes : list Z) (low : string) : completion (list Z) :=
  let low := if String.eqb (substr low 0 2) "0x" then substr_from low 2 else low in
  let low := if strlen low mod 2 =? 1 then String "0" low else low in
  bigEndian <-? unhexlify low ;
  u8_set bytes (rev bigEndian).

(** [new Int64(...arguments)]: the contents of [bytes] once the constructor
    body has run, or what it throws. *)
Definition new_Int64 (arguments : list jsval) : completion (list Z) :=
  let bytes := repeat 0 8 in
  let low := nth 0 arguments JUndefined in
  let high := nth 1 arguments JUndefined in
  if (2 <? length arguments)%nat || (length arguments =? 0)%nat
  then Abrupt (TypeError "Incorrect number of arguments to constructor")
  else
    low <-? (if (length arguments =? 2)%nat then
               match low, high with
               | JNumber l, JNumber h =>
                   if num_gt l 0xffffffff || num_gt h 0xffffffff
                      || num_lt l 0 || num_lt h 0
                   then Abrupt (RangeError "Both arguments must fit inside a uint32")
                   else
                     let low := pad_low 8 0 (toString16 l) in
                     Normal (JString ("0x" +:+ toString16 h +:+ low))
               | _, _ => Abrupt (TypeError "Both arguments must be numbers")
               end
             else Normal low) ;
    match low with
    | JNumber n => from_string bytes ("0x" +:+ toString16 n)
    | JString s => from_string bytes s
    | JInt64 b => u8_set bytes b
    | JArray l =>
        if negb (length l =? 8)%nat
        then Abrupt (TypeError "Array must have excactly 8 elements.")
        else u8_set bytes l
    | JPlainObject => Abrupt (TypeError "Array must have excactly 8 elements.")
    | JUndefined => Normal bytes
    | JBoolean _ => Normal bytes
    end.

(** [Int64.Zero] and [Int64.One], built when the script is loaded. *)
Definition Zero : completion (list Z) := new_Int64 [JNumber (Num 0)].
Definition One : completion (list Z) := new_Int64 [JNumber (Num 1)].
Definition NegativeOne : completion (list Z) :=
  new_Int64 [JNumber (Num 0xffffffff); JNumber (Num 0xffffffff)].

(** *** Methods of an instance; [this] is the instance's [bytes]. *)

(** [this.byteAt(i)] *)
Definition byteAt (this : list Z) (i : Z) : Z := nth (Z.to_nat i) this 0.

(** The decorator [operation(f, nargs)]. *)
Definition operation (name : string)
    (f : list Z -> list (list Z) -> completion (list Z)) (nargs : nat)
    (this : list Z) (arguments : list jsval) : completion (list Z) :=
  if negb (length arguments =? nargs)%nat
  then Abrupt (Error ("Not enough arguments for function " +:+ name))
  else
    new_args <-? cmapM (fun a => match a with
                                 | JInt64 b => Normal b
                                 | _ => new_Int64 [a]
                                 end) arguments ;
    f this new_args.

(** One turn of the loop of [add]: [cur], the carry, [ret[i] = cur]. *)
Definition add_step (this a : list Z) (i : Z) (st : list Z * Z) : list Z * Z :=
  let '(ret, carry) := st in
  let cur := byteAt this i + byteAt a i + carry in
  let carry := if 0xff <? cur then 1 else 0 in
  ((ret ++ [cur])%list, carry).

Definition add_body (this : list Z) (args : list (list Z)) : completion (list Z) :=
  let a := nth 0 args [] in
  let '(ret, _) := for_loop 8 0 1 (add_step this a) ([], 0) in
  new_Int64 [JArray ret].

Definition add : list Z -> list jsval -> completion (list Z) :=
  operation "add" add_body 1.

(** One turn of the loop of [sub]. *)
Definition sub_step (this a : list Z) (i : Z) (st : list Z * Z) : list Z * Z :=
  let '(ret, carry) := st in
  let cur := byteAt this i - byteAt a i - carry in
  let carry := if cur <? 0 then 1 else 0 in
  ((ret ++ [cur])%list, carry).

Definition sub_body (this : list Z) (args : list (list Z)) : completion (list Z) :=
  let a := nth 0 args [] in
  let '(ret, _) := for_loop 8 0 1 (sub_step this a) ([], 0) in
  new_Int64 [JArray ret].

Definition sub : list Z -> list jsval -> completion (list Z) :=
  operation "sub" sub_body 1.

(** One turn of the loop of [neg]: [ret[i] = ~this.byteAt(i)]. *)
Definition neg_step (this : list Z) (i : Z) (ret : list Z) : list Z :=
  (ret ++ [Z.lnot (byteAt this i)])%list.

Definition neg_body (this : list Z) (args : list (list Z)) : completion (list Z) :=
  let ret := for_loop 8 0 1 (neg_step this) [] in
  r <-? new_Int64 [JArray ret] ;
  one <-? One ;
  add r [JInt64 one].

Definition neg : list Z -> list jsval -> completion (list Z) :=
  operation "neg" neg_body 0.

(** [this.equals(other)] *)
Definition equals (this : list Z) (other : jsval) : completion bool :=
  other <-? match other with
            | JInt64 b => Normal b
            | _ => new_Int64 [other]
            end ;
  Normal (for_loop 8 0 1
            (fun i (same : bool) => same && (byteAt this i =? byteAt other i))
            true).

(** The unsigned value of eight little-endian bytes. *)
Fixpoint le_value (bytes : list Z) : Z :=
  match bytes with
  | [] => 0
  | b :: rest => b + 256 * le_value rest
  end.

(** What a [Uint8Array(8)] holds. *)
Definition is_u8x8 (bytes : list Z) : Prop :=
  length bytes = 8%nat /\ Forall (fun b => 0 <= b < 256) bytes.

(** The argument lists the constructor is said to refuse, each with the
    error it is said to throw. *)
Definition negative (x : jsnum) : Prop :=
  match x with NaN => False | Num z => z < 0 end.
Definition exceeds_uint32 (x : jsnum) : Prop :=
  match x with NaN => False | Num z => 0xffffffff < z end.

Inductive refused : list jsval -> exn -> Prop :=
| refused_no_argument :
    refused [] (TypeError "Incorrect number of arguments to constructor")
| refused_more_than_two (arguments : list jsval) :
    (2 < length arguments)%nat ->
    refused arguments (TypeError "Incorrect number of arguments to constructor")
| refused_not_a_number (low high : jsval) :
    is_number low = false \/ is_number high = false ->
    refused [low; high] (TypeError "Both arguments must be numbers")
| refused_out_of_range (low high : jsnum) :
    negative low \/ negative high \/ exceeds_uint32 low \/ exceeds_uint32 high ->
    refused [JNumber low; JNumber high]
            (RangeError "Both arguments must fit inside a uint32")
| refused_array_length (l : list Z) :
    length l <> 8%nat ->
    refused [JArray l] (TypeError "Array must have excactly 8 elements.")
| refused_no_length :
    refused [JPlainObject] (TypeError "Array must have excactly 8 elements.").

(** *** hex, hexlify and buf2hex (utils.js) *)

(** [s.substr(-n)] and [s.slice(-n)]: the last [n] characters, or all of
    [s] when it is shorter. *)
Definition substr_last (s : string) (n : nat) : string :=
  String.substring (String.length s - n) n s.

(** [hex(b)]: [('0' + b.toString(16)).substr(-2)] *)
Definition hex (b : Z) : string :=
  substr_last (String "0" (toString16 (Num b))) 2.

(** [hexlify(bytes)]: the [hex] of every element, joined. *)
Definition hexlify (bytes : list Z) : string :=
  String.concat "" (map hex bytes).

(** [buf2hex(buffer)], given the bytes of the buffer:
    [('00' + x.toString(16)).slice(-2)] for each, joined. *)
Definition buf2hex (buffer : list Z) : string :=
  String.concat ""
    (map (fun x => substr_last ("00" +:+ toString16 (Num x)) 2) buffer).

(** *** More methods of an instance *)

(** [this.bytes()]: a fresh array with the same elements. *)
Definition bytes_copy (this : list Z) : list Z :=
  for_loop (length this) 0 1 (fun i (arr : list Z) => (arr ++ [byteAt this i])%list) [].

(** [this.toString()]: ['0x' + hexlify(arr.reverse())] *)
Definition toString (this : list Z) : string :=
  "0x" +:+ hexlify (rev (bytes_copy this)).

(** [new Uint32Array(bytes.buffer)[k] >>> 0]: the k-th 32-bit word of the
    buffer, in the byte order of the platform, which is little-endian on
    every platform this code is run on. *)
Definition uint32_at (this : list Z) (k : nat) : Z :=
  le_value (take 4 (drop (4 * k) this)).

Definition low32 (this : list Z) : Z := uint32_at this 0.
Definition hi32 (this : list Z) : Z := uint32_at this 1.

(** [this.greater(other)] *)
Definition greater (this : list Z) (other : jsval) : completion bool :=
  other <-? match other with
            | JInt64 b => Normal b
            | _ => new_Int64 [other]
            end ;
  Normal (if hi32 other <? hi32 this then true
          else if hi32 this =? hi32 other
               then (if low32 other <? low32 this then true else false)
               else false).

(** [this.assignAdd(a)] writes into the [bytes] of [this], which the
    method returns; the result here is the new contents of [bytes].  The
    argument may be the object itself: [a.byteAt(i)] then reads the bytes
    as they are at that turn of the loop. *)
Inductive operand : Type :=
| Other (v : jsval)
| This.

Definition assignAdd_step (a : option (list Z)) (i : Z) (st : list Z * Z)
    : list Z * Z :=
  let '(bytes, carry) := st in
  let a_byte := match a with
                | Some a => byteAt a i
                | None => byteAt bytes i
                end in
  let cur := byteAt bytes i + a_byte + carry in
  let carry := if 0xff <? cur then 1 else 0 in
  (<[Z.to_nat i := cur mod 256]> bytes, carry).

Definition assignAdd (this : list Z) (arguments : list operand)
    : completion (list Z) :=
  if negb (length arguments =? 1)%nat
  then Abrupt (Error "Not enough arguments for function assignAdd")
  else
    a <-? match nth 0 arguments This with
          | This => Normal None
          | Other (JInt64 b) => Normal (Some b)
          | Other v => b <-? new_Int64 [v] ; Normal (Some b)
          end ;
    Normal (fst (for_loop 8 0 1 (assignAdd_step a) (this, 0))).

(** *** Strings of hexadecimal digits *)

Definition all_hex (s : string) : Prop :=
  Forall (fun c => is_Some (hex_digit c)) (list_ascii_of_string s).

(** The number a string of hexadecimal digits writes. *)
Definition hex_value (s : string) : Z := fst (hex_prefix s 0 false).

(** The bytes a string of pairs of hexadecimal digits writes, first pair
    first. *)
Fixpoint bytes_of_pairs (s : string) : list Z :=
  match s with
  | String c1 (String c2 rest) =>
      match hex_digit c1, hex_digit c2 with
      | Some d1, Some d2 => (16 * d1 + d2) :: bytes_of_pairs rest
      | _, _ => []
      end
  | _ => []
  end.

(** *** Struct (utils.js) and the conversions that go through it *)

(** The views of the one 8-byte buffer of [Struct]: [byteView],
    [uint32View] and [float64View]. *)
Inductive view : Type :=
| byteView
| uint32View
| float64View.

Definition BYTES_PER_ELEMENT (type : view) : nat :=
  match type with
  | byteView => 1
  | uint32View => 4
  | float64View => 8
  end.

(** [Struct.<property>]: the object has the properties [int8], [int32] and
    [float64] (and the two methods); any other property is [undefined]. *)
Definition Struct (property : string) : option view :=
  if String.eqb property "int8" then Some byteView
  else if String.eqb property "int32" then Some uint32View
  else if String.eqb property "float64" then Some float64View
  else None.

(** [Struct.unpack(type, bytes)].  Reading [type.BYTES_PER_ELEMENT] of
    [undefined] throws a TypeError, whose message is the engine's.
    Otherwise [byteView.set(bytes)] stores the bytes at the start of the
    buffer and [view[0]] is read back; the element is given here by the
    bytes that make it up, in the order of the buffer, and not converted
    to the number or the double they stand for. *)
Definition unpack (type : option view) (bytes : list Z) : completion (list Z) :=
  match type with
  | None => Abrupt (TypeError "undefined is not an object")
  | Some type =>
      if negb (length bytes =? BYTES_PER_ELEMENT type)%nat
      then Abrupt (Error "Invalid bytearray")
      else Normal (map (fun b => b mod 256) bytes)
  end.

(** [debug_log(msg)] (utils.js) writes [msg] into the element [progressx]
    of the page, and throws a TypeError, whose message is the engine's,
    when the page has no such element. *)
Definition debug_log (page_has_progressx : bool) : completion unit :=
  if page_has_progressx then Normal tt
  else Abrupt (TypeError "null is not an object").

(** [this.asDouble()] *)
Definition asDouble (this : list Z) : completion (list Z) :=
  if (byteAt this 7 =? 0xff)
     && ((byteAt this 6 =? 0xff) || (byteAt this 6 =? 0xfe))
  then Abrupt (RangeError "Can not be represented by a double")
  else unpack (Struct "float64") this.

(** [this.asInteger()] *)
Definition asInteger (page_has_progressx : bool) (this : list Z)
    : completion (list Z) :=
  if negb (byteAt this 7 =? 0) || (0x20 <? byteAt this 6)
  then
    _ <-? debug_log page_has_progressx ;
    Abrupt (RangeError "Can not be represented as a regular number")
  else unpack (Struct "int64") this.

(** [this.asJSValue()] *)
Definition asJSValue (this : list Z) : completion (list Z) :=
  if ((byteAt this 7 =? 0) && (byteAt this 6 =? 0))
     || ((byteAt this 7 =? 0xff) && (byteAt this 6 =? 0xff))
  then Abrupt (RangeError "Can not be represented by a JSValue")
  else
    d <-? sub this [JNumber (Num 0x1000000000000)] ;
    unpack (Struct "float64") (bytes_copy d).

End Int64.

(** ** The chain builder (Chain803Base and Chain803) *)

(** *** Values of the [Int] class

    Modelled from the spec: [Int] (module/int64.mjs) is not among the
    sources; the specification describes it as an opaque 8-byte
    two's-complement quantity whose arithmetic is exact modulo 2^64.  An
    [Int] is represented by its unsigned value. *)

(** [new Int(z)] *)
Definition new_Int (z : Z) : Z := z mod 2 ^ 64.
(** [a.add(b)] *)
Definition Int_add (a b : Z) : Z := (a + b) mod 2 ^ 64.

(** A field that holds [null], a boolean or a number. *)
Inductive slot : Type :=
| SNull
| SBool (b : bool)
| SNum (z : Z).

(** The number a slot stands for in arithmetic ([null + 8] is [8]). *)
Definition to_number (v : slot) : Z :=
  match v with
  | SNull => 0
  | SBool true => 1
  | SBool false => 0
  | SNum z => z
  end.

(** *** Gadget keys *)

Definition kjop1 : string := "
mov rdi, qword ptr [rdi]
mov rax, qword ptr [rdi]
jmp qword ptr [rax + 0xe0]
".
Definition k2jop1 : string := "
mov rdi, qword ptr [rsi + 8]
mov rax, qword ptr [rdi]
jmp qword ptr [rax + 0x70]
".
Definition ta_jop1 : string := "
mov rdi, qword ptr [rsi + 0x18]
mov rax, qword ptr [rdi]
call qword ptr [rax + 0xb8]
".
Definition ta_jop2 : string := "
pop rsi
jmp qword ptr [rax + 0x5f]
".
Definition ta_jop3 : string := "
mov rdi, qword ptr [rax + 8]
mov rax, qword ptr [rdi]
jmp qword ptr [rax + 0x68]
".
Definition jop1 : string := "
mov rdi, qword ptr [rdi + 0x30]
mov rax, qword ptr [rdi]
jmp qword ptr [rax + 8]
".
Definition jop2 : string := "
push rbp
mov rbp, rsp
mov rax, qword ptr [rdi]
call qword ptr [rax + 0x30]
".
Definition jop3 : string := "
mov rdx, qword ptr [rax + 0x18]
mov rax, qword ptr [rdi]
call qword ptr [rax + 0x10]
".
Definition jop4 : string := "
push rdx
mov edi, 0xac9784fe
jmp qword ptr [rax]
".
Definition jop5 : string := "pop rsp; ret".
Definition rop_epilogue : string := "leave; ret".

Definition offset_libc_setjmp : Z := 0x258f4.
Definition offset_libc_longjmp : Z := 0x29c58.

Definition webkit_gadget_offsets : list (string * Z) :=
  [ ("pop rax; ret", 0x0000000000035a1b);
    ("pop rbx; ret", 0x000000000001537c);
    ("pop rcx; ret", 0x0000000000025ecb);
    ("pop rdx; ret", 0x0000000000060f52);
    ("pop rbp; ret", 0x00000000000000b6);
    ("pop rsi; ret", 0x000000000003bd77);
    ("pop rdi; ret", 0x00000000001e3f87);
    ("pop rsp; ret", 0x00000000000bf669);
    ("pop r8; ret", 0x0000000000097442);
    ("pop r9; ret", 0x00000000006f501f);
    ("pop r10; ret", 0x0000000000060f51);
    ("pop r11; ret", 0x0000000000d2a629);
    ("pop r12; ret", 0x0000000000d8968d);
    ("pop r13; ret", 0x00000000016ccff1);
    ("pop r14; ret", 0x000000000003bd76);
    ("pop r15; ret", 0x00000000002499df);
    ("ret", 0x0000000000000032);
    ("leave; ret", 0x0000000000291fd7);
    ("leave; jmp rcx", 0x000000000062a061);
    ("neg rax; and rax, rcx; ret", 0x0000000000e85f24);
    ("adc esi, esi; ret", 0x000000000088cbb9);
    ("add rax, rdx; ret", 0x00000000003cd92c);
    ("push rsp; jmp qword ptr [rax]", 0x0000000001abbc92);
    ("add rcx, rsi; and rdx, rcx; or rax, rdx; ret", 0x0000000000b8bc06);
    ("pop rdi; jmp qword ptr [rax + 0x50]", 0x00000000021f9e8e);
    ("add rax, 8; ret", 0x0000000000468988);
    ("mov qword ptr [rdi], rsi; ret", 0x0000000000034a40);
    ("mov rax, qword ptr [rax]; ret", 0x000000000002dc62);
    ("mov qword ptr [rdi], rax; ret", 0x000000000005b1bb);
    ("mov dword ptr [rdi], eax; ret", 0x000000000001f864);
    ("mov rdx, rcx; ret", 0x0000000000eae9fd);
    ("mov qword ptr [rdx], rax; mov al, 1; ret", 0x00000000000b6dcf);
    ("mov rdx, qword ptr [rcx]; ret", 0x0000000000182bc4);
    ("cli; jmp qword ptr [rax + 0x43]", 0x0000000002163442);
    ("sti; ret", 0x00000000004b94c8);
    ("xchg rbp, rax; ret", 0x000000000218ef60);
    (kjop1, 0x00000000010da705);
    (k2jop1, 0x0000000001988320);
    (jop1, 0x000000000028a8d0);
    (jop2, 0x000000000076b970);
    (jop3, 0x0000000000202698);
    (jop4, 0x00000000021af6ad);
    (ta_jop1, 0x00000000005efb14);
    (ta_jop2, 0x0000000002198221);
    (ta_jop3, 0x00000000014ff7a2) ].

Definition libc_gadget_offsets : list (string * Z) :=
  [ ("neg rax; ret", 0x00000000000d3503);
    ("mov rdx, rax; xor eax, eax; shl rdx, cl; ret", 0x00000000000ce436);
    ("mov qword ptr [rsi], rcx; ret", 0x00000000000cede2);
    ("setjmp", offset_libc_setjmp);
    ("longjmp", offset_libc_longjmp) ].

(** [init_gadget_map(gadget_map, offset_map, base_addr)] *)
Definition init_gadget_map (gadget_map : gmap string Z)
    (offset_map : list (string * Z)) (base_addr : Z) : gmap string Z :=
  foldl (fun m '(insn, offset) => <[insn := Int_add base_addr offset]> m)
        gadget_map offset_map.

(** *** The state of a chain *)

(** The fields [ChainBase] owns.
    Modelled from the spec: [ChainBase] (module/chain.mjs) is not among
    the sources.  The specification gives a chain a byte buffer, a write
    cursor [position] and the mark of a chain that has already run.  The
    buffer is kept as the 8-byte values stored in it, keyed by the byte
    offset they were stored at. *)
Record ChainBase_fields : Type := {
  position : Z;
  is_stale : bool;
  stack : gmap Z Z
}.

(** The branch context of [Chain803Base]. *)
Record branch_fields : Type := {
  is_branch_ctx : bool;
  branch_position : slot;
  delta_slot : slot;
  rsp_slot : slot;
  rsp_position : slot
}.

(** The pointer tables the constructors fill once. *)
Record table_fields : Type := {
  jmp_target : gmap Z Z;
  vtable : gmap Z Z;
  rax_ptrs : gmap Z Z;
  jop_buffer : gmap Z Z
}.

(** What [run] does to the target, in program order. *)
Inductive target_event : Type :=
| Write64 (addr offset value : Z)   (* addr.write64(offset, value) *)
| ScrollLeft.                       (* this.textarea.scrollLeft *)

Record chain : Type := {
  base : ChainBase_fields;
  branch : branch_fields;
  is_saved : bool;
  tables : table_fields;
  target : list target_event
}.

Definition set_base (f : ChainBase_fields -> ChainBase_fields) (s : chain) : chain :=
  {| base := f (base s); branch := branch s; is_saved := is_saved s;
     tables := tables s; target := target s |}.
Definition set_branch (f : branch_fields -> branch_fields) (s : chain) : chain :=
  {| base := base s; branch := f (branch s); is_saved := is_saved s;
     tables := tables s; target := target s |}.
Definition set_is_saved (b : bool) (s : chain) : chain :=
  {| base := base s; branch := branch s; is_saved := b;
     tables := tables s; target := target s |}.
Definition add_target (e : target_event) (s : chain) : chain :=
  {| base := base s; branch := branch s; is_saved := is_saved s;
     tables := tables s; target := (target s ++ [e])%list |}.

Definition with_position (z : Z) (b : ChainBase_fields) : ChainBase_fields :=
  {| position := z; is_stale := is_stale b; stack := stack b |}.
Definition with_is_stale (v : bool) (b : ChainBase_fields) : ChainBase_fields :=
  {| position := position b; is_stale := v; stack := stack b |}.
Definition with_stack (m : gmap Z Z) (b : ChainBase_fields) : ChainBase_fields :=
  {| position := position b; is_stale := is_stale b; stack := m |}.

Definition with_is_branch_ctx (v : bool) (b : branch_fields) : branch_fields :=
  {| is_branch_ctx := v; branch_position := branch_position b;
     delta_slot := delta_slot b; rsp_slot := rsp_slot b;
     rsp_position := rsp_position b |}.
Definition with_branch_position (v : slot) (b : branch_fields) : branch_fields :=
  {| is_branch_ctx := is_branch_ctx b; branch_position := v;
     delta_slot := delta_slot b; rsp_slot := rsp_slot b;
     rsp_position := rsp_position b |}.
Definition with_delta_slot (v : slot) (b : branch_fields) : branch_fields :=
  {| is_branch_ctx := is_branch_ctx b; branch_position := branch_position b;
     delta_slot := v; rsp_slot := rsp_slot b;
     rsp_position := rsp_position b |}.
Definition with_rsp_slot (v : slot) (b : branch_fields) : branch_fields :=
  {| is_branch_ctx := is_branch_ctx b; branch_position := branch_position b;
     delta_slot := delta_slot b; rsp_slot := v;
     rsp_position := rsp_position b |}.
Definition with_rsp_position (v : slot) (b : branch_fields) : branch_fields :=
  {| is_branch_ctx := is_branch_ctx b; branch_position := branch_position b;
     delta_slot := delta_slot b; rsp_slot := rsp_slot b;
     rsp_position := v |}.

(** *** Methods as state transformers that may throw

    A method either returns or throws; in both cases the object is left
    as the statements executed so far made it. *)
Inductive outcome (A : Type) : Type :=
| Ok (a : A) (s : chain)
| Throw (e : exn) (s : chain).
Arguments Ok {A} a s.
Arguments Throw {A} e s.

Definition M (A : Type) : Type := chain -> outcome A.

Definition ret {A} (a : A) : M A := fun s => Ok a s.
Definition bind {A B} (m : M A) (k : A -> M B) : M B :=
  fun s => match m s with
           | Ok a s' => k a s'
           | Throw e s' => Throw e s'
           end.
Definition throw {A} (e : exn) : M A := fun s => Throw e s.
Definition gets {A} (f : chain -> A) : M A := fun s => Ok (f s) s.
Definition modify (f : chain -> chain) : M unit := fun s => Ok tt (f s).
(** A pure computation that may throw, run inside a method. *)
Definition lift {A} (c : completion A) : M A :=
  fun s => match c with
           | Normal a => Ok a s
           | Abrupt e => Throw e s
           end.

Declare Scope chain_scope.
Delimit Scope chain_scope with chain.
Notation "x <- m ;; k" := (bind m (fun x => k))
  (at level 20, m at level 99, k at level 200, only parsing) : chain_scope.
Notation "m ;; k" := (bind m (fun _ => k))
  (at level 100, k at level 200, only parsing, right associativity) : chain_scope.
Local Open Scope chain_scope.

Fixpoint for_each {A} (f : A -> M unit) (l : list A) : M unit :=
  match l with
  | [] => ret tt
  | x :: xs => f x ;; for_each f xs
  end.

(** One entry of a call or syscall sequence. *)
Inductive push : Type :=
| PushGadget (insn_str : string)
| PushValue (value : Z)
| PushConstant (num : Z).

(** What a chain is built against: the gadget catalog handed to
    [Chain.init_class], the addresses [get_view_vector] and [mem] report
    for the buffers the constructors allocate, and the two composite
    pushes of [ChainBase].

    Modelled from the spec: [push_call] and [push_syscall] belong to
    [ChainBase], which is not among the sources.  The specification says
    that each appends a sequence of gadgets and values through the
    builder, or fails; [call_sequence] and [syscall_sequence] give that
    sequence (or the failure) for the current position and arguments. *)
Record env : Type := {
  gadgets : gmap string Z;
  stack_size : Z;
  stack_addr : Z;
  retval_addr : Z;
  flag_addr : Z;
  jmp_target_p : Z;
  jmp_buf_p : Z;
  vtable_p : Z;
  rax_ptrs_p : Z;
  jop_buffer_p : Z;
  webcore_ta : Z;
  old_vtable_p : Z;
  call_sequence : Z -> Z -> list Z -> completion (list push);
  syscall_sequence : Z -> string -> list Z -> completion (list push)
}.

Section Chain803.

Variable E : env.

(** **** ChainBase *)

(** Modelled from the spec: [ChainBase.get_gadget] resolves a key through
    the catalog and fails with [UnknownGadgetError] for a key that was
    never registered. *)
Definition get_gadget (insn_str : string) : M Z :=
  fun s => match gadgets E !! insn_str with
           | Some addr => Ok addr s
           | None => Throw (UnknownGadgetError insn_str) s
           end.

(** Modelled from the spec: [rw.write64(view, offset, value)] stores an
    8-byte value at a byte offset of a buffer.  A buffer is kept as the
    values stored, keyed by their offset; two stores less than 8 bytes
    apart are kept side by side and not merged byte by byte. *)
Definition write64 (view : gmap Z Z) (offset : Z) (value : Z) : gmap Z Z :=
  <[offset := value]> view.

(** Modelled from the spec: [ChainBase.push_value] appends an 8-byte value
    at [position] and moves [position] forward by 8; when the buffer is
    full it fails with [ChainOverflowError] and leaves [position] as it
    was. *)
Definition ChainBase_push_value (value : Z) : M unit :=
  fun s =>
    if stack_size E <? position (base s) + 8
    then Throw ChainOverflowError s
    else Ok tt (set_base (fun b =>
                  with_position (position b + 8)
                    (with_stack (write64 (stack b) (position b) value) b)) s).

(** Modelled from the spec: [ChainBase.clean] resets [position] to 0 and
    the chain is no longer stale; the buffer is kept. *)
Definition ChainBase_clean : M unit :=
  modify (set_base (fun b => with_is_stale false (with_position 0 b))).

(** Modelled from the spec: a chain is stale once it has been run and not
    cleaned, and running a stale chain is an error.  [Chain803.run] sets no
    flag itself, so the guard is what marks the chain.  The specification
    gives no message for this error nor for the next one. *)
Definition check_stale : M unit :=
  stale <- gets (fun s => is_stale (base s)) ;;
  if stale then throw (Error "chain already ran, clean it first")
  else modify (set_base (with_is_stale true)).

(** Modelled from the spec: running an empty chain is an error. *)
Definition check_is_empty : M unit :=
  pos <- gets (fun s => position (base s)) ;;
  if pos =? 0 then throw (Error "chain is empty") else ret tt.

(** **** Chain803Base *)

Definition _clean_branch_ctx : M unit :=
  modify (set_branch (fun _ =>
    {| is_branch_ctx := true;
       branch_position := SNull;
       delta_slot := SBool true;
       rsp_slot := SNull;
       rsp_position := SNull |})).

Definition check_is_branching : M unit :=
  branching <- gets (fun s => is_branch_ctx (branch s)) ;;
  if branching then throw (Error "chain is still branching, end it before running")
  else ret tt.

(** The override: [super.push_value(value)], then the count. *)
Definition push_value (value : Z) : M unit :=
  ChainBase_push_value value ;;
  branching <- gets (fun s => is_branch_ctx (branch s)) ;;
  if branching
  then modify (set_branch (fun b =>
         with_branch_position (SNum (to_number (branch_position b) + 8)) b))
  else ret tt.

(** Modelled from the spec: [ChainBase.push_gadget] resolves the key and
    appends the address, [ChainBase.push_constant] appends the [Int] of a
    number; both go through the [push_value] of the object, which is the
    override above. *)
Definition push_gadget (insn_str : string) : M unit :=
  addr <- get_gadget insn_str ;;
  push_value addr.

Definition push_constant (num : Z) : M unit :=
  push_value (new_Int num).

Definition push_entry (p : push) : M unit :=
  match p with
  | PushGadget insn_str => push_gadget insn_str
  | PushValue value => push_value value
  | PushConstant num => push_constant num
  end.

Definition push_call (func_addr : Z) (args : list Z) : M unit :=
  pos <- gets (fun s => position (base s)) ;;
  entries <- lift (call_sequence E pos func_addr args) ;;
  for_each push_entry entries.

Definition push_syscall (syscall_name : string) (args : list Z) : M unit :=
  pos <- gets (fun s => position (base s)) ;;
  entries <- lift (syscall_sequence E pos syscall_name args) ;;
  for_each push_entry entries.

Definition push_write64 (addr value : Z) : M unit :=
  push_gadget "pop rdi; ret" ;;
  push_value addr ;;
  push_gadget "pop rsi; ret" ;;
  push_value value ;;
  push_gadget "mov qword ptr [rdi], rsi; ret".

Definition push_end : M unit :=
  push_gadget rop_epilogue.

Definition clean : M unit :=
  ChainBase_clean ;;
  _clean_branch_ctx ;;
  modify (set_is_saved true).

Definition start_branch : M unit :=
  branching <- gets (fun s => is_branch_ctx (branch s)) ;;
  (if branching then throw (Error "chain already branching, end it first")
   else ret tt) ;;
  push_gadget "pop rcx; ret" ;;
  push_constant (-1) ;;
  push_gadget "neg rax; ret" ;;
  push_gadget "pop rsi; ret" ;;
  push_constant 0 ;;
  push_gadget "adc esi, esi; ret" ;;
  push_gadget "pop rdi; ret" ;;
  push_value (flag_addr E) ;;
  push_gadget "mov qword ptr [rdi], rsi; ret" ;;

  push_gadget "pop rax; ret" ;;
  push_value (flag_addr E) ;;
  push_gadget "mov rax, qword ptr [rax]; ret" ;;

  push_gadget "pop rcx; ret" ;;
  pos <- gets (fun s => position (base s)) ;;
  modify (set_branch (with_delta_slot (SNum pos))) ;;
  push_constant 0 ;;

  push_gadget "neg rax; and rax, rcx; ret" ;;
  push_gadget "pop rdi; ret" ;;
  push_value (flag_addr E) ;;
  push_gadget "mov qword ptr [rdi], rax; ret" ;;

  push_gadget "pop rcx; ret" ;;
  pos <- gets (fun s => position (base s)) ;;
  modify (set_branch (with_rsp_slot (SNum pos))) ;;
  push_constant 0 ;;

  push_gadget "pop rsi; ret" ;;
  pos <- gets (fun s => position (base s)) ;;
  push_value (Int_add (stack_addr E) (pos + 8)) ;;

  modify (set_branch (with_branch_position (SNum 0))) ;;
  modify (set_branch (with_is_branch_ctx true)) ;;

  push_gadget "add rcx, rsi; and rdx, rcx; or rax, rdx; ret" ;;
  push_gadget "mov rdx, rcx; ret" ;;

  push_gadget "pop rax; ret" ;;
  push_value (flag_addr E) ;;
  push_gadget "mov rax, qword ptr [rax]; ret" ;;

  push_gadget "add rax, rdx; ret" ;;

  push_gadget "pop rdi; ret" ;;
  push_value (flag_addr E) ;;
  push_gadget "mov qword ptr [rdi], rax; ret" ;;

  push_gadget "pop rcx; ret" ;;
  push_constant 0 ;;
  push_gadget "mov rdx, rax; xor eax, eax; shl rdx, cl; ret" ;;

  push_gadget "pop rax; ret" ;;
  push_value (jmp_target_p E) ;;
  push_gadget "pop rdi; jmp qword ptr [rax + 0x50]" ;;
  push_constant 0 ;;

  modify (set_branch (fun b => with_rsp_position (branch_position b) b)) ;;
  modify (fun s => set_base (fun b =>
    with_stack (write64 (stack b) (to_number (rsp_slot (branch s)))
                  (new_Int (to_number (rsp_position (branch s))))) b) s).

Definition end_branch : M unit :=
  branching <- gets (fun s => is_branch_ctx (branch s)) ;;
  (if negb branching then throw (Error "can not end nonbranching chain")
   else ret tt) ;;
  delta <- gets (fun s => to_number (branch_position (branch s))
                          - to_number (rsp_position (branch s))) ;;
  modify (fun s => set_base (fun b =>
    with_stack (write64 (stack b) (to_number (delta_slot (branch s)))
                  (new_Int delta)) b) s) ;;
  _clean_branch_ctx.

Definition push_save : M unit :=
  saved <- gets is_saved ;;
  (if saved then throw (Error "restore first before saving again")
   else ret tt) ;;
  setjmp <- get_gadget "setjmp" ;;
  push_call setjmp [jmp_buf_p E] ;;
  modify (set_is_saved true).

Definition push_restore (is_force : bool) : M unit :=
  saved <- gets is_saved ;;
  (if negb saved && negb is_force then throw (Error "save first before restoring")
   else ret tt) ;;
  push_gadget "pop rax; ret" ;;
  rsp_slot <- gets (fun s => position (base s)) ;;
  push_constant 0 ;;
  push_gadget "pop rdi; ret" ;;
  push_value (Int_add (jmp_buf_p E) 0x39) ;;
  push_gadget "mov qword ptr [rdi], rax; ret" ;;

  push_gadget "pop rax; ret" ;;
  ret_addr <- get_gadget "ret" ;;
  push_value ret_addr ;;
  push_gadget "pop rdi; ret" ;;
  push_value (Int_add (jmp_buf_p E) 0x80) ;;
  push_gadget "mov qword ptr [rdi], rax; ret" ;;

  longjmp <- get_gadget "longjmp" ;;
  push_call longjmp [jmp_buf_p E] ;;

  push_constant 0 ;;
  push_constant 0 ;;
  target_rsp <- gets (fun s => Int_add (stack_addr E) (position (base s))) ;;

  modify (set_base (fun b => with_stack (write64 (stack b) rsp_slot target_rsp) b)) ;;
  modify (set_is_saved true).

Definition push_get_retval : M unit :=
  push_gadget "pop rdi; ret" ;;
  push_value (retval_addr E) ;;
  push_gadget "mov qword ptr [rdi], rax; ret".

(** **** Chain803 *)

Definition run : M unit :=
  check_stale ;;
  check_is_empty ;;
  check_is_branching ;;
  modify (add_target (Write64 (webcore_ta E) 0 (vtable_p E))) ;;
  modify (add_target ScrollLeft) ;;
  modify (add_target (Write64 (webcore_ta E) 0 (old_vtable_p E))).

(** [call] and [syscall] of [Chain803Base]; [this.run()] is the [run] of
    [Chain803], the class every chain of the program is made from. *)
Definition call (func_addr : Z) (args : list Z) : M unit :=
  pos <- gets (fun s => position (base s)) ;;
  (if negb (pos =? 0) then throw (Error "call() needs an empty chain")
   else ret tt) ;;
  push_call func_addr args ;;
  push_get_retval ;;
  push_end ;;
  run ;;
  clean.

Definition syscall (syscall_name : string) (args : list Z) : M unit :=
  pos <- gets (fun s => position (base s)) ;;
  (if negb (pos =? 0) then throw (Error "syscall() needs an empty chain")
   else ret tt) ;;
  push_syscall syscall_name args ;;
  push_get_retval ;;
  push_end ;;
  run ;;
  clean.

(** The constructors, from [ChainBase] down to [Chain803].
    Modelled from the spec: the constructor of [ChainBase] leaves an empty
    chain that is not stale.  The fields of the two subclasses have no
    value yet at that point; the constructors below assign each of them
    before the object is handed out. *)
Definition new_ChainBase : chain :=
  {| base := {| position := 0; is_stale := false; stack := ∅ |};
     branch := {| is_branch_ctx := false; branch_position := SNull;
                  delta_slot := SNull; rsp_slot := SNull;
                  rsp_position := SNull |};
     is_saved := false;
     tables := {| jmp_target := ∅; vtable := ∅; rax_ptrs := ∅; jop_buffer := ∅ |};
     target := [] |}.

Definition set_tables (f : table_fields -> table_fields) (s : chain) : chain :=
  {| base := base s; branch := branch s; is_saved := is_saved s;
     tables := f (tables s); target := target s |}.

Definition write_jmp_target (offset value : Z) : M unit :=
  modify (set_tables (fun t =>
    {| jmp_target := write64 (jmp_target t) offset value; vtable := vtable t;
       rax_ptrs := rax_ptrs t; jop_buffer := jop_buffer t |})).
Definition write_vtable (offset value : Z) : M unit :=
  modify (set_tables (fun t =>
    {| jmp_target := jmp_target t; vtable := write64 (vtable t) offset value;
       rax_ptrs := rax_ptrs t; jop_buffer := jop_buffer t |})).
Definition write_rax_ptrs (offset value : Z) : M unit :=
  modify (set_tables (fun t =>
    {| jmp_target := jmp_target t; vtable := vtable t;
       rax_ptrs := write64 (rax_ptrs t) offset value; jop_buffer := jop_buffer t |})).
Definition write_jop_buffer (offset value : Z) : M unit :=
  modify (set_tables (fun t =>
    {| jmp_target := jmp_target t; vtable := vtable t;
       rax_ptrs := rax_ptrs t; jop_buffer := write64 (jop_buffer t) offset value |})).

Definition Chain803Base_constructor : M unit :=
  _clean_branch_ctx ;;
  g <- get_gadget jop4 ;; write_jmp_target 0x50 g ;;
  g <- get_gadget jop5 ;; write_jmp_target 0 g ;;
  modify (set_is_saved true).

Definition Chain803_constructor : M unit :=
  Chain803Base_constructor ;;
  g <- get_gadget ta_jop1 ;; write_vtable 0x1c8 g ;;
  g <- get_gadget ta_jop2 ;; write_vtable 0xb8 g ;;
  g <- get_gadget ta_jop3 ;; write_vtable 0x5f g ;;
  g <- get_gadget jop2 ;; write_rax_ptrs 0x68 g ;;
  g <- get_gadget jop3 ;; write_rax_ptrs 0x30 g ;;
  g <- get_gadget jop4 ;; write_rax_ptrs 0x10 g ;;
  g <- get_gadget jop5 ;; write_rax_ptrs 0 g ;;
  write_rax_ptrs 0x18 (stack_addr E) ;;
  write_jop_buffer 0 (rax_ptrs_p E) ;;
  write_vtable 8 (jop_buffer_p E).

(** [new Chain803()] *)
Definition new_Chain803 : outcome unit := Chain803_constructor new_ChainBase.

(** The builder operations a caller may put between [start_branch] and
    [end_branch]. *)
Inductive builder_op : Type :=
| OpGadget (insn_str : string)
| OpValue (value : Z)
| OpConstant (num : Z)
| OpWrite64 (addr value : Z)
| OpCall (func_addr : Z) (args : list Z)
| OpSyscall (syscall_name : string) (args : list Z)
| OpGetRetval
| OpEnd
| OpSave
| OpRestore (is_force : bool).

Definition run_op (o : builder_op) : M unit :=
  match o with
  | OpGadget insn_str => push_gadget insn_str
  | OpValue value => push_value value
  | OpConstant num => push_constant num
  | OpWrite64 addr value => push_write64 addr value
  | OpCall func_addr args => push_call func_addr args
  | OpSyscall syscall_name args => push_syscall syscall_name args
  | OpGetRetval => push_get_retval
  | OpEnd => push_end
  | OpSave => push_save
  | OpRestore is_force => push_restore is_force
  end.

Definition run_ops (body : list builder_op) : M unit := for_each run_op body.

(** The 8-byte value an entry puts on the stack, when its gadget is in
    the catalog. *)
Definition entry_cell (p : push) : option Z :=
  match p with
  | PushGadget insn_str => gadgets E !! insn_str
  | PushValue value => Some value
  | PushConstant num => Some (new_Int num)
  end.

End Chain803.

(** [cells] stored one after the other from byte offset [pos]. *)
Fixpoint store_cells (pos : Z) (cells : list Z) (m : gmap Z Z) : gmap Z Z :=
  match cells with
  | [] => m
  | c :: cs => store_cells (pos + 8) cs (write64 m pos c)
  end.

(** [s'] is [s] after [cells] were appended by [push_value] to a buffer of
    [cap] bytes: the cursor, the buffer and the running count of an open
    branch context have moved, and nothing else has. *)
Record appended (cap : Z) (cells : list Z) (s s' : chain) : Prop := {
  appended_position :
    position (base s') = position (base s) + 8 * Z.of_nat (length cells);
  appended_stack :
    stack (base s') = store_cells (position (base s)) cells (stack (base s));
  appended_is_stale : is_stale (base s') = is_stale (base s);
  appended_is_branch_ctx :
    is_branch_ctx (branch s') = is_branch_ctx (branch s);
  appended_branch_position :
    to_number (branch_position (branch s'))
    = to_number (branch_position (branch s))
      + (if is_branch_ctx (branch s) then 8 * Z.of_nat (length cells) else 0);
  appended_delta_slot : delta_slot (branch s') = delta_slot (branch s);
  appended_rsp_slot : rsp_slot (branch s') = rsp_slot (branch s);
  appended_rsp_position : rsp_position (branch s') = rsp_position (branch s);
  appended_is_saved : is_saved s' = is_saved s;
  appended_tables : tables s' = tables s;
  appended_target : target s' = target s;
  appended_fits : cells = [] \/ position (base s') <= cap
}.

(** The part of [appended] that every builder operation keeps, also those
    that patch the buffer or set [is_saved]: the cursor moved forward by
    [n] bytes, and so did the count of an open branch context. *)
Record advanced (cap : Z) (n : Z) (s s' : chain) : Prop := {
  advanced_nonneg : 0 <= n;
  advanced_position : position (base s') = position (base s) + n;
  advanced_is_branch_ctx :
    is_branch_ctx (branch s') = is_branch_ctx (branch s);
  advanced_branch_position :
    to_number (branch_position (branch s'))
    = to_number (branch_position (branch s))
      + (if is_branch_ctx (branch s) then n else 0);
  advanced_delta_slot : delta_slot (branch s') = delta_slot (branch s);
  advanced_rsp_position : rsp_position (branch s') = rsp_position (branch s);
  advanced_target : target s' = target s;
  advanced_fits : n = 0 \/ position (base s') <= cap;
  advanced_is_stale : is_stale (base s') = is_stale (base s)
}.

(** *** A concrete environment for the examples

    Modelled from the spec: [push_call] loads up to six arguments with
    pop-register gadgets in a fixed order and then appends the function
    address; more arguments fail with [TooManyArgumentsError].
    [push_syscall] loads the syscall number, loads the arguments in the
    same way and appends the syscall trampoline.  The register order is
    that of the System V calling convention. *)
Definition argument_pops : list string :=
  [ "pop rdi; ret"; "pop rsi; ret"; "pop rdx; ret";
    "pop rcx; ret"; "pop r8; ret"; "pop r9; ret" ].

Definition load_arguments (args : list Z) : list push :=
  concat (zip_with (fun pop arg => [PushGadget pop; PushConstant arg])
            argument_pops args).

Definition example_call_sequence (pos func_addr : Z) (args : list Z)
    : completion (list push) :=
  if (length argument_pops <? length args)%nat then Abrupt TooManyArgumentsError
  else Normal (load_arguments args ++ [PushValue func_addr])%list.

Definition example_syscall_table : gmap string Z :=
  {[ "getuid" := 24; "mlock" := 203; "mmap" := 477 ]}.

Definition example_syscall_sequence (trampoline : Z) (pos : Z)
    (syscall_name : string) (args : list Z) : completion (list push) :=
  match example_syscall_table !! syscall_name with
  | None => Abrupt (Error ("unknown syscall " +:+ syscall_name))
  | Some sysno =>
      if (length argument_pops <? length args)%nat then Abrupt TooManyArgumentsError
      else Normal ([PushGadget "pop rax; ret"; PushConstant sysno]
                   ++ load_arguments args ++ [PushValue trampoline])%list
  end.

Definition example_env : env :=
  {| gadgets :=
       init_gadget_map
         (init_gadget_map ∅ webkit_gadget_offsets 0x800000000)
         libc_gadget_offsets 0x810000000;
     stack_size := 0x1000;
     stack_addr := 0x200000000;
     retval_addr := 0x200010000;
     flag_addr := 0x200020000;
     jmp_target_p := 0x200030000;
     jmp_buf_p := 0x200040000;
     vtable_p := 0x200050000;
     rax_ptrs_p := 0x200060000;
     jop_buffer_p := 0x200070000;
     webcore_ta := 0x200080000;
     old_vtable_p := 0x808000000;
     call_sequence := example_call_sequence;
     syscall_sequence := example_syscall_sequence 0x820000000 |}.

(** The chain a method leaves behind, whether it returned or threw. *)
Definition state_of {A} (o : outcome A) : chain :=
  match o with
  | Ok _ c => c
  | Throw _ c => c
  end.

(** The chain [new Chain803()] returns in the example environment. *)
Definition example_chain : chain := state_of (new_Chain803 example_env).

(** The same chain with the branch context closed by hand
    ([chain.is_branch_ctx = false]). *)
Definition example_chain_not_branching : chain :=
  set_branch (with_is_branch_ctx false) example_chain.

(** A branch on that chain: opened, then the body of the first test of
    [test_rop], still to be ended. *)
Definition example_branch_opened : chain :=
  state_of (start_branch example_env example_chain_not_branching).

Definition example_body : list builder_op :=
  [ OpRestore true;
    OpGadget "pop rcx; ret";
    OpConstant 1;
    OpGadget "mov qword ptr [rsi], rcx; ret";
    OpEnd ].

Definition example_branch_built : chain :=
  state_of (run_ops example_env example_body example_branch_opened).

(** [push_restore()] on the chain as constructed. *)
Definition example_restored : chain :=
  state_of (push_restore example_env false example_chain).

(** *** The catalog of [init] and the methods a caller has *)

(** [init(Chain)]: the catalog after the two calls of [init_gadget_map],
    for the bases [get_bases] found. *)
Definition init_gadgets (libwebkit_base libc_base : Z) : gmap string Z :=
  init_gadget_map
    (init_gadget_map ∅ webkit_gadget_offsets libwebkit_base)
    libc_gadget_offsets libc_base.

(** A call of one method of a chain. *)
Inductive method : Type :=
| Push (o : builder_op)
| StartBranch
| EndBranch
| CheckIsBranching
| Clean
| Run
| Call (func_addr : Z) (args : list Z)
| Syscall (syscall_name : string) (args : list Z).

Definition invoke (E : env) (m : method) : M unit :=
  match m with
  | Push o => run_op E o
  | StartBranch => start_branch E
  | EndBranch => end_branch
  | CheckIsBranching => check_is_branching
  | Clean => clean
  | Run => run E
  | Call func_addr args => call E func_addr args
  | Syscall syscall_name args => syscall E syscall_name args
  end.

(** The chains a program can hold: the one [new Chain803()] returned,
    after any number of method calls, each of which returned or threw. *)
Inductive reachable (E : env) : chain -> Prop :=
| reachable_new (c : chain) :
    new_Chain803 E = Ok tt c -> reachable E c
| reachable_invoke (m : method) (s : chain) :
    reachable E s -> reachable E (state_of (invoke E m s)).

(** [P] is kept by a method, whether it returns or throws. *)
Definition keeps {A} (P : chain -> Prop) (m : M A) : Prop :=
  forall s, P s -> P (state_of (m s)).

(** What no method of the builder undoes: the branch context is marked
    open, the chain is marked saved, and nothing was written to the
    target. *)
Definition sealed (s : chain) : Prop :=
  is_branch_ctx (branch s) = true /\ is_saved s = true /\ target s = [].

(** What a call left, by cases on whether it returned or threw. *)
Definition on_outcome {A} (o : outcome A) (returned : chain -> Prop)
    (thrown : exn -> chain -> Prop) : Prop :=
  match o with
  | Ok _ s => returned s
  | Throw e s => thrown e s
  end.

(** * Properties of the chain builder *)

(** Taking a sequenced method apart, one statement at a time. *)
Lemma bind_unfold {A B} (m : M A) (k : A -> M B) (s : chain) :
  bind m k s = match m s with
               | Ok a s' => k a s'
               | Throw e s' => Throw e s'
               end.
Proof. reflexivity. Qed.

Lemma bind_gets {A B} (f : chain -> A) (k : A -> M B) (s : chain) :
  bind (gets f) k s = k (f s) s.
Proof. reflexivity. Qed.

Lemma bind_modify {B} (f : chain -> chain) (k : unit -> M B) (s : chain) :
  bind (modify f) k s = k tt (f s).
Proof. reflexivity. Qed.

Lemma bind_ret {A B} (a : A) (k : A -> M B) (s : chain) :
  bind (ret a) k s = k a s.
Proof. reflexivity. Qed.

Lemma bind_get_gadget {B} (E : env) (key : string) (k : Z -> M B) (s : chain) :
  bind (get_gadget E key) k s
  = match gadgets E !! key with
    | Some addr => k addr s
    | None => Throw (UnknownGadgetError key) s
    end.
Proof. unfold bind, get_gadget. by destruct (gadgets E !! key). Qed.

Ltac chain_bind H Hm s1 :=
  lazymatch type of H with
  | bind ?m ?k ?s = _ =>
      rewrite (bind_unfold m k s) in H;
      destruct (m s) as [[] s1|? s1] eqn:Hm; [cbv beta in H|discriminate H]
  end.

Ltac chain_step H :=
  lazymatch type of H with
  | bind (gets ?f) ?k ?s = _ => rewrite (bind_gets f k s) in H; cbv beta in H
  | bind (modify ?f) ?k ?s = _ => rewrite (bind_modify f k s) in H; cbv beta in H
  | bind (ret ?a) ?k ?s = _ => rewrite (bind_ret a k s) in H; cbv beta in H
  | bind (throw ?e) ?k ?s = Ok _ _ => discriminate H
  | bind (if ?b then _ else _) ?k ?s = _ =>
      let Hb := fresh "Hguard" in destruct b eqn:Hb
  | bind (get_gadget ?E ?key) ?k ?s = _ =>
      let Hg := fresh "Hgadget" in
      let a := fresh "addr" in
      rewrite (bind_get_gadget E key k s) in H;
      destruct (gadgets E !! key) as [a|] eqn:Hg; [cbv beta in H|discriminate H]
  | bind ?m ?k ?s = _ =>
      let Hm := fresh "Hm" in
      let s1 := fresh "s" in
      chain_bind H Hm s1
  end.

Section Chain803_properties.

Variable E : env.

Lemma appended_nil (s : chain) : appended (stack_size E) [] s s.
Proof.
  constructor; cbn [length store_cells]; try reflexivity; try lia; auto.
  destruct (is_branch_ctx (branch s)); lia.
Qed.

Lemma store_cells_app (pos : Z) (l1 l2 : list Z) (m : gmap Z Z) :
  store_cells pos (l1 ++ l2) m
  = store_cells (pos + 8 * Z.of_nat (length l1)) l2 (store_cells pos l1 m).
Proof.
  revert pos m; induction l1 as [|c l1 IH]; intros pos m; cbn [app store_cells length].
  - f_equal. lia.
  - rewrite IH. f_equal. lia.
Qed.

Lemma appended_trans (l1 l2 : list Z) (s s1 s2 : chain) :
  appended (stack_size E) l1 s s1 -> appended (stack_size E) l2 s1 s2 -> appended (stack_size E) (l1 ++ l2) s s2.
Proof.
  intros [] []. constructor; try congruence.
  - rewrite length_app. lia.
  - rewrite store_cells_app. congruence.
  - rewrite length_app. destruct (is_branch_ctx (branch s)) eqn:Hb;
      destruct (is_branch_ctx (branch s1)); try discriminate; lia.
  - destruct l2 as [|c l2].
    + rewrite app_nil_r. cbn [length] in *.
      destruct l1; [by left | right]. intuition (try discriminate; lia).
    + right. intuition (try discriminate; lia).
Qed.

Lemma appended_advanced (cells : list Z) (s s' : chain) :
  appended (stack_size E) cells s s' -> advanced (stack_size E) (8 * Z.of_nat (length cells)) s s'.
Proof.
  intros []. constructor; auto; [lia|].
  destruct cells; [by left | right]. intuition (try discriminate; lia).
Qed.

Lemma advanced_zero (s : chain) : advanced (stack_size E) 0 s s.
Proof.
  constructor; try reflexivity; try lia; auto.
  destruct (is_branch_ctx (branch s)); lia.
Qed.

Lemma advanced_trans (n1 n2 : Z) (s s1 s2 : chain) :
  advanced (stack_size E) n1 s s1 -> advanced (stack_size E) n2 s1 s2 -> advanced (stack_size E) (n1 + n2) s s2.
Proof.
  intros [] []. constructor; try congruence; try lia.
  destruct (is_branch_ctx (branch s)) eqn:Hb;
    destruct (is_branch_ctx (branch s1)); try discriminate; lia.
Qed.

(** **** What one push does *)

Lemma push_value_appended (value : Z) (s s' : chain) :
  push_value E value s = Ok tt s' -> appended (stack_size E) [value] s s'.
Proof.
  unfold push_value, bind, ChainBase_push_value, gets, modify, ret.
  destruct (Z.ltb_spec (stack_size E) (position (base s) + 8)); [discriminate|].
  cbn [base branch set_base is_branch_ctx].
  destruct (is_branch_ctx (branch s)) eqn:Hb; intros [= <-];
    constructor; cbn; rewrite ?Hb; try reflexivity; try lia; by right.
Qed.

Lemma push_value_fits (value : Z) (s s' : chain) :
  push_value E value s = Ok tt s' -> position (base s) + 8 <= stack_size E.
Proof.
  unfold push_value, bind, ChainBase_push_value.
  destruct (Z.ltb_spec (stack_size E) (position (base s) + 8)); [discriminate | lia].
Qed.

Lemma push_gadget_appended (insn_str : string) (s s' : chain) :
  push_gadget E insn_str s = Ok tt s' ->
  exists addr, gadgets E !! insn_str = Some addr /\ appended (stack_size E) [addr] s s'.
Proof.
  unfold push_gadget. intros H. chain_step H.
  eauto using push_value_appended.
Qed.

Lemma push_constant_appended (num : Z) (s s' : chain) :
  push_constant E num s = Ok tt s' -> appended (stack_size E) [new_Int num] s s'.
Proof. apply push_value_appended. Qed.

Lemma push_entry_appended (p : push) (s s' : chain) :
  push_entry E p s = Ok tt s' ->
  exists cell, entry_cell E p = Some cell /\ appended (stack_size E) [cell] s s'.
Proof.
  destruct p as [insn_str|value|num]; cbn [push_entry entry_cell]; intros H.
  - by apply push_gadget_appended.
  - eauto using push_value_appended.
  - eauto using push_constant_appended.
Qed.

Lemma push_entries_appended (entries : list push) (s s' : chain) :
  for_each (push_entry E) entries s = Ok tt s' ->
  exists cells, mapM (entry_cell E) entries = Some cells /\ appended (stack_size E) cells s s'.
Proof.
  revert s; induction entries as [|p entries IH]; intros s H; cbn [for_each] in H.
  - injection H as <-. exists []. split; [reflexivity | apply appended_nil].
  - chain_step H.
    apply push_entry_appended in Hm as (cell & Hcell & Hone).
    apply IH in H as (cells & Hcells & Hrest).
    exists (cell :: cells). split.
    + cbn. rewrite Hcell. cbn. rewrite Hcells. reflexivity.
    + exact (appended_trans [cell] cells _ _ _ Hone Hrest).
Qed.

Lemma push_call_appended (func_addr : Z) (args : list Z) (s s' : chain) :
  push_call E func_addr args s = Ok tt s' ->
  exists entries cells,
    call_sequence E (position (base s)) func_addr args = Normal entries
    /\ mapM (entry_cell E) entries = Some cells
    /\ appended (stack_size E) cells s s'.
Proof.
  unfold push_call. intros H. chain_step H.
  unfold bind at 1, lift in H.
  destruct (call_sequence E (position (base s)) func_addr args) as [entries|];
    [|discriminate].
  apply push_entries_appended in H as (cells & Hcells & Happ). eauto.
Qed.

Lemma push_syscall_appended (name : string) (args : list Z) (s s' : chain) :
  push_syscall E name args s = Ok tt s' ->
  exists entries cells,
    syscall_sequence E (position (base s)) name args = Normal entries
    /\ mapM (entry_cell E) entries = Some cells
    /\ appended (stack_size E) cells s s'.
Proof.
  unfold push_syscall. intros H. chain_step H.
  unfold bind at 1, lift in H.
  destruct (syscall_sequence E (position (base s)) name args) as [entries|];
    [|discriminate].
  apply push_entries_appended in H as (cells & Hcells & Happ). eauto.
Qed.

(** **** Every builder operation moves the cursor and the count together *)

(** [Hadv : advanced (stack_size E) n s0 s] is carried over the next push of [H]. *)
Ltac absorb Hadv Hm :=
  apply appended_advanced in Hm;
  let Hn := fresh "Hadv" in
  pose proof (advanced_trans _ _ _ _ _ Hadv Hm) as Hn;
  clear Hadv Hm; rename Hn into Hadv.

Ltac push_step H Hadv :=
  let Hm := fresh "Hpush" in
  let s1 := fresh "s" in
  chain_bind H Hm s1;
  lazymatch type of Hm with
  | push_gadget _ _ _ = _ =>
      apply push_gadget_appended in Hm as (? & _ & Hm); absorb Hadv Hm
  | push_constant _ _ _ = _ =>
      apply push_constant_appended in Hm; absorb Hadv Hm
  | push_value _ _ _ = _ =>
      apply push_value_appended in Hm; absorb Hadv Hm
  | push_call _ _ _ _ = _ =>
      apply push_call_appended in Hm as (? & ? & _ & _ & Hm); absorb Hadv Hm
  | push_syscall _ _ _ _ = _ =>
      apply push_syscall_appended in Hm as (? & ? & _ & _ & Hm); absorb Hadv Hm
  end.

Lemma advanced_same (n : Z) (s s1 s2 : chain) :
  advanced (stack_size E) n s s1 ->
  position (base s2) = position (base s1) -> branch s2 = branch s1 ->
  target s2 = target s1 -> is_stale (base s2) = is_stale (base s1) ->
  advanced (stack_size E) n s s2.
Proof.
  intros [] Hp Hb Ht Hs. constructor; rewrite ?Hp, ?Hb, ?Ht, ?Hs; assumption.
Qed.

Lemma push_write64_advanced (addr value : Z) (s s' : chain) :
  push_write64 E addr value s = Ok tt s' -> exists n, advanced (stack_size E) n s s'.
Proof.
  unfold push_write64. intros H. pose proof (advanced_zero s) as Hadv.
  do 4 push_step H Hadv.
  apply push_gadget_appended in H as (? & _ & H). absorb Hadv H. eauto.
Qed.

Lemma push_get_retval_advanced (s s' : chain) :
  push_get_retval E s = Ok tt s' -> exists n, advanced (stack_size E) n s s'.
Proof.
  unfold push_get_retval. intros H. pose proof (advanced_zero s) as Hadv.
  do 2 push_step H Hadv.
  apply push_gadget_appended in H as (? & _ & H). absorb Hadv H. eauto.
Qed.

Lemma push_end_advanced (s s' : chain) :
  push_end E s = Ok tt s' -> exists n, advanced (stack_size E) n s s'.
Proof.
  unfold push_end. intros H.
  apply push_gadget_appended in H as (? & _ & H).
  apply appended_advanced in H. eauto.
Qed.

Lemma push_save_advanced (s s' : chain) :
  push_save E s = Ok tt s' -> exists n, advanced (stack_size E) n s s'.
Proof.
  unfold push_save. intros H. pose proof (advanced_zero s) as Hadv.
  chain_step H. chain_step H; [discriminate H|]. chain_step H.
  chain_step H. push_step H Hadv.
  injection H as <-. eexists. eapply advanced_same; [exact Hadv|..]; reflexivity.
Qed.

Lemma push_restore_advanced (is_force : bool) (s s' : chain) :
  push_restore E is_force s = Ok tt s' -> exists n, advanced (stack_size E) n s s'.
Proof.
  unfold push_restore. intros H. pose proof (advanced_zero s) as Hadv.
  chain_step H. chain_step H; [discriminate H|]. chain_step H.
  push_step H Hadv. chain_step H. do 5 push_step H Hadv.
  chain_step H. do 4 push_step H Hadv.
  chain_step H. do 3 push_step H Hadv.
  chain_step H. chain_step H.
  injection H as <-. eexists. eapply advanced_same; [exact Hadv|..]; reflexivity.
Qed.

Lemma run_op_advanced (o : builder_op) (s s' : chain) :
  run_op E o s = Ok tt s' -> exists n, advanced (stack_size E) n s s'.
Proof.
  destruct o; cbn [run_op]; intros H.
  - apply push_gadget_appended in H as (? & _ & H).
    eauto using appended_advanced.
  - eauto using appended_advanced, push_value_appended.
  - eauto using appended_advanced, push_constant_appended.
  - eauto using push_write64_advanced.
  - apply push_call_appended in H as (? & ? & _ & _ & H).
    eauto using appended_advanced.
  - apply push_syscall_appended in H as (? & ? & _ & _ & H).
    eauto using appended_advanced.
  - eauto using push_get_retval_advanced.
  - eauto using push_end_advanced.
  - eauto using push_save_advanced.
  - eauto using push_restore_advanced.
Qed.

Lemma run_ops_advanced (body : list builder_op) (s s' : chain) :
  run_ops E body s = Ok tt s' -> exists n, advanced (stack_size E) n s s'.
Proof.
  unfold run_ops. revert s; induction body as [|o body IH]; intros s H;
    cbn [for_each] in H.
  - injection H as <-. eauto using advanced_zero.
  - chain_step H. apply run_op_advanced in Hm as (n1 & H1).
    apply IH in H as (n2 & H2). eauto using advanced_trans.
Qed.

(** **** Opening and closing a branch *)

Ltac restart H A :=
  lazymatch type of H with
  | bind _ _ ?st = _ => pose proof (advanced_zero st) as A
  end.

(** What [start_branch] leaves when it returns: it was entered with no
    branch context open, the context is now open, [delta_slot] is the
    offset of the fourteenth entry, and the count starts level with
    [rsp_position]. *)
Lemma start_branch_opens (s s1 : chain) :
  start_branch E s = Ok tt s1 ->
  is_branch_ctx (branch s) = false
  /\ is_branch_ctx (branch s1) = true
  /\ delta_slot (branch s1) = SNum (position (base s) + 104)
  /\ rsp_position (branch s1) = branch_position (branch s1)
  /\ position (base s1) = position (base s) + 304
  /\ position (base s1) <= stack_size E.
Proof.
  unfold start_branch. intros H.
  chain_step H. chain_step H; [discriminate H|]. chain_step H.
  restart H A. do 13 push_step H A. chain_step H. chain_step H.
  restart H B. do 6 push_step H B. chain_step H. chain_step H.
  restart H C. do 2 push_step H C. chain_step H. push_step H C.
  chain_step H. chain_step H.
  restart H D. do 16 push_step H D. chain_step H.
  injection H as <-.
  destruct A as [_ Apos _ _ _ _ _ _], B as [_ Bpos _ _ Bdelta _ _ _],
    C as [_ Cpos _ _ Cdelta _ _ _], D as [_ Dpos Dctx _ Ddelta _ _ Dfits].
  cbn in *.
  repeat split; try congruence.
  - rewrite Ddelta, Cdelta, Bdelta. f_equal. lia.
  - lia.
  - lia.
Qed.

Lemma end_branch_writes (s : chain) :
  is_branch_ctx (branch s) = true ->
  exists s', end_branch s = Ok tt s'
    /\ stack (base s')
       = write64 (stack (base s)) (to_number (delta_slot (branch s)))
           (new_Int (to_number (branch_position (branch s))
                     - to_number (rsp_position (branch s)))).
Proof.
  intros Hb. unfold end_branch, bind, gets, modify, _clean_branch_ctx, ret.
  rewrite Hb. cbn [negb]. eexists. split; reflexivity.
Qed.

(** C4: when [start_branch()] has returned and the caller has then
    appended a body of [N] bytes with the builder's push operations,
    [end_branch()] returns and the value it writes into the delta slot that
    [start_branch()] recorded is exactly [N], whatever the body is made
    of; with an empty body it is 0.  (The buffer is smaller than 2^64
    bytes and the cursor is not negative, as on every real chain.) *)
Theorem branch_delta_is_body_length (s s1 s2 : chain) (body : list builder_op)
    (Hsize : stack_size E < 2 ^ 64)
    (Hcursor : 0 <= position (base s))
    (Hstart : start_branch E s = Ok tt s1)
    (Hbody : run_ops E body s1 = Ok tt s2) :
  let N := position (base s2) - position (base s1) in
  exists s3,
    end_branch s2 = Ok tt s3
    /\ delta_slot (branch s1) = SNum (position (base s) + 104)
    /\ 0 <= N
    /\ stack (base s3)
       = write64 (stack (base s2)) (position (base s) + 104) (new_Int N)
    /\ stack (base s3) !! (position (base s) + 104) = Some N
    /\ (body = [] -> stack (base s3) !! (position (base s) + 104) = Some 0).
Proof.
  intros N.
  apply start_branch_opens in Hstart as (_ & Hctx & Hdelta & Hrsp & Hp1 & Hfit1).
  assert (Hnil : body = [] -> N = 0).
  { intros ->. cbn in Hbody. injection Hbody as <-. subst N. lia. }
  apply run_ops_advanced in Hbody
    as (n & [Hn Hpos Hctx2 Hcount Hdelta2 Hrsp2 _ Hfit2]).
  rewrite Hctx in Hcount, Hctx2.
  destruct (end_branch_writes s2 Hctx2) as (s3 & Hend & Hstack).
  rewrite Hdelta2, Hdelta, Hcount, Hrsp2, Hrsp in Hstack. cbn [to_number] in Hstack.
  replace (to_number (branch_position (branch s1)) + n
           - to_number (branch_position (branch s1))) with N in Hstack
    by (subst N; lia).
  assert (Hint : new_Int N = N).
  { unfold new_Int. apply Z.mod_small. subst N. lia. }
  exists s3. split; [exact Hend|]. split; [exact Hdelta|].
  split; [subst N; lia|]. split; [exact Hstack|].
  rewrite Hstack, Hint. unfold write64. split; [apply lookup_insert_eq|].
  intros Hb. rewrite <- (Hnil Hb). apply lookup_insert_eq.
Qed.

(** **** run, clean and the constructor *)

Lemma run_cases (s : chain) :
  run E s
  = if is_stale (base s)
    then Throw (Error "chain already ran, clean it first") s
    else
      let s1 := set_base (with_is_stale true) s in
      if position (base s) =? 0 then Throw (Error "chain is empty") s1
      else if is_branch_ctx (branch s)
      then Throw (Error "chain is still branching, end it before running") s1
      else Ok tt (add_target (Write64 (webcore_ta E) 0 (old_vtable_p E))
                   (add_target ScrollLeft
                     (add_target (Write64 (webcore_ta E) 0 (vtable_p E)) s1))).
Proof.
  unfold run, check_stale, check_is_empty, check_is_branching.
  rewrite bind_unfold, bind_gets.
  destruct (is_stale (base s)); [reflexivity|].
  cbv zeta. unfold modify at 1. rewrite bind_unfold, bind_gets.
  cbn [position base set_base with_is_stale].
  destruct (position (base s) =? 0); [reflexivity|].
  unfold ret at 1. rewrite bind_unfold, bind_gets.
  cbn [is_branch_ctx branch set_base].
  destruct (is_branch_ctx (branch s)); reflexivity.
Qed.

(** C7: [run()] throws whenever the chain is empty, stale or still has an
    open branch context, and it has then written nothing to the target:
    the three checks come before the vtable overwrite.  The buffer and the
    pointer tables are untouched as well. *)
Theorem run_checks_before_target (s : chain)
    (H : position (base s) = 0 \/ is_stale (base s) = true
         \/ is_branch_ctx (branch s) = true) :
  exists e s',
    run E s = Throw e s'
    /\ target s' = target s
    /\ stack (base s') = stack (base s)
    /\ tables s' = tables s
    /\ (e = Error "chain already ran, clean it first"
        \/ e = Error "chain is empty"
        \/ e = Error "chain is still branching, end it before running").
Proof.
  rewrite run_cases. cbv zeta.
  destruct (is_stale (base s)) eqn:Hstale.
  { eexists _, _. split; [reflexivity|]. repeat split; auto. }
  destruct (Z.eqb_spec (position (base s)) 0) as [Hpos|Hpos].
  { eexists _, _. split; [reflexivity|]. repeat split; auto. }
  destruct (is_branch_ctx (branch s)) eqn:Hctx.
  { eexists _, _. split; [reflexivity|]. repeat split; auto. }
  destruct H as [H|[H|H]]; [contradiction | discriminate | discriminate].
Qed.

Lemma clean_result (s : chain) :
  clean s
  = Ok tt {| base := {| position := 0; is_stale := false;
                        stack := stack (base s) |};
             branch := {| is_branch_ctx := true; branch_position := SNull;
                          delta_slot := SBool true; rsp_slot := SNull;
                          rsp_position := SNull |};
             is_saved := true;
             tables := tables s;
             target := target s |}.
Proof. reflexivity. Qed.

Lemma start_branch_already_branching (s : chain) :
  is_branch_ctx (branch s) = true ->
  start_branch E s = Throw (Error "chain already branching, end it first") s.
Proof.
  intros Hb. unfold start_branch. rewrite bind_gets, Hb. reflexivity.
Qed.

Lemma push_save_already_saved (s : chain) :
  is_saved s = true ->
  push_save E s = Throw (Error "restore first before saving again") s.
Proof.
  intros Hb. unfold push_save. rewrite bind_gets, Hb. reflexivity.
Qed.

Lemma push_restore_force_irrelevant (s : chain) :
  is_saved s = true -> push_restore E false s = push_restore E true s.
Proof.
  intros Hb. unfold push_restore. rewrite !bind_gets, Hb. reflexivity.
Qed.

(** What the constructors leave, when every gadget they look up is in
    the catalog. *)
Lemma new_Chain803_fields (c : chain) :
  new_Chain803 E = Ok tt c ->
  position (base c) = 0 /\ is_stale (base c) = false
  /\ is_branch_ctx (branch c) = true /\ is_saved c = true /\ target c = [].
Proof.
  unfold new_Chain803, Chain803_constructor, Chain803Base_constructor,
    _clean_branch_ctx, write_jmp_target, write_vtable, write_rax_ptrs,
    write_jop_buffer.
  intros H.
  rewrite bind_unfold, bind_modify in H.
  repeat (rewrite bind_get_gadget in H;
          destruct (gadgets E !! _); [|discriminate H];
          rewrite bind_modify in H).
  cbn in H.
  repeat (rewrite bind_get_gadget in H;
          destruct (gadgets E !! _); [|discriminate H];
          rewrite bind_modify in H).
  rewrite !bind_modify in H.
  injection H as <-. repeat split; reflexivity.
Qed.

(** On a chain whose branch context is marked open, [call] and [syscall]
    never return: whatever they append, [run] refuses the chain. *)
Lemma invocation_stuck_while_branching (m : M unit) (s : chain) :
  is_branch_ctx (branch s) = true ->
  (forall s1, m s = Ok tt s1 -> exists n, advanced (stack_size E) n s s1) ->
  forall s',
    (m ;; push_get_retval E ;; push_end E ;; run E ;; clean) s <> Ok tt s'.
Proof.
  intros Hctx Hm s' H.
  chain_bind H H1 s1. destruct (Hm s1 eq_refl) as (n1 & A1).
  chain_bind H H2 s2. apply push_get_retval_advanced in H2 as (n2 & A2).
  chain_bind H H3 s3. apply push_end_advanced in H3 as (n3 & A3).
  chain_bind H H4 s4. rewrite run_cases in H4. cbv zeta in H4.
  pose proof (advanced_is_branch_ctx _ _ _ _ A3) as Hctx3.
  rewrite (advanced_is_branch_ctx _ _ _ _ A2),
    (advanced_is_branch_ctx _ _ _ _ A1), Hctx in Hctx3.
  rewrite Hctx3 in H4.
  destruct (is_stale (base s3)); [discriminate|].
  destruct (position (base s3) =? 0); discriminate.
Qed.

(** On a chain that is empty, not stale and not marked as branching,
    [call] appends, runs and cleans. *)
Lemma call_runs_and_cleans (func_addr : Z) (args : list Z) (s s1 s2 s3 : chain) :
  position (base s) = 0 -> is_stale (base s) = false ->
  is_branch_ctx (branch s) = false ->
  push_call E func_addr args s = Ok tt s1 ->
  push_get_retval E s1 = Ok tt s2 ->
  push_end E s2 = Ok tt s3 ->
  exists s',
    call E func_addr args s = Ok tt s'
    /\ position (base s') = 0
    /\ target s'
       = (target s ++ [Write64 (webcore_ta E) 0 (vtable_p E); ScrollLeft;
                       Write64 (webcore_ta E) 0 (old_vtable_p E)])%list.
Proof.
  intros Hpos Hstale Hctx H1 H2 H3.
  unfold call. rewrite bind_gets, Hpos. cbn [Z.eqb negb].
  rewrite bind_ret, bind_unfold, H1, bind_unfold, H2, bind_unfold, H3,
    bind_unfold, run_cases.
  apply push_call_appended in H1 as (? & ? & _ & _ & A1).
  apply appended_advanced in A1.
  apply push_get_retval_advanced in H2 as (n2 & A2).
  unfold push_end in H3. apply push_gadget_appended in H3 as (? & _ & A3).
  apply appended_advanced in A3. cbn [length] in A3.
  pose proof (advanced_trans _ _ _ _ _ (advanced_trans _ _ _ _ _ A1 A2) A3) as A.
  destruct A as [_ Apos Actx _ _ _ Atarget _ Astale].
  pose proof (advanced_nonneg _ _ _ _ A1). pose proof (advanced_nonneg _ _ _ _ A2).
  rewrite Astale, Hstale, Actx, Hctx. cbv zeta.
  destruct (Z.eqb_spec (position (base s3)) 0) as [Hz|_]; [lia|].
  eexists. split; [reflexivity|]. cbn. rewrite Atarget.
  split; [reflexivity|]. by rewrite <- !app_assoc.
Qed.

Lemma call_needs_empty_chain (func_addr : Z) (args : list Z) (s : chain) :
  position (base s) <> 0 ->
  call E func_addr args s = Throw (Error "call() needs an empty chain") s.
Proof.
  intros Hpos. unfold call. rewrite bind_gets.
  destruct (Z.eqb_spec (position (base s)) 0); [contradiction | reflexivity].
Qed.

Lemma syscall_needs_empty_chain (name : string) (args : list Z) (s : chain) :
  position (base s) <> 0 ->
  syscall E name args s = Throw (Error "syscall() needs an empty chain") s.
Proof.
  intros Hpos. unfold syscall. rewrite bind_gets.
  destruct (Z.eqb_spec (position (base s)) 0); [contradiction | reflexivity].
Qed.

Lemma call_stuck_while_branching (func_addr : Z) (args : list Z) (s s' : chain) :
  is_branch_ctx (branch s) = true -> call E func_addr args s <> Ok tt s'.
Proof.
  intros Hctx H. unfold call in H. chain_step H.
  chain_step H; [discriminate H|]. chain_step H.
  revert H. apply invocation_stuck_while_branching; [exact Hctx|].
  intros s1 H1. apply push_call_appended in H1 as (? & ? & _ & _ & H1).
  eauto using appended_advanced.
Qed.

Lemma syscall_stuck_while_branching (name : string) (args : list Z) (s s' : chain) :
  is_branch_ctx (branch s) = true -> syscall E name args s <> Ok tt s'.
Proof.
  intros Hctx H. unfold syscall in H. chain_step H.
  chain_step H; [discriminate H|]. chain_step H.
  revert H. apply invocation_stuck_while_branching; [exact Hctx|].
  intros s1 H1. apply push_syscall_appended in H1 as (? & ? & _ & _ & H1).
  eauto using appended_advanced.
Qed.

(** **** Reading the buffer back *)

Lemma store_cells_below (pos : Z) (cells : list Z) (m : gmap Z Z) (offset : Z) :
  offset < pos -> store_cells pos cells m !! offset = m !! offset.
Proof.
  revert pos m; induction cells as [|c cells IH]; intros pos m Hlt;
    cbn [store_cells]; [reflexivity|].
  rewrite IH by lia. unfold write64. apply lookup_insert_ne. lia.
Qed.

Lemma store_cells_lookup (pos : Z) (cells : list Z) (m : gmap Z Z) (i : nat) (c : Z) :
  cells !! i = Some c ->
  store_cells pos cells m !! (pos + 8 * Z.of_nat i) = Some c.
Proof.
  revert pos m i; induction cells as [|c0 cells IH]; intros pos m [|i] Hc;
    try discriminate; cbn [store_cells].
  - injection Hc as ->. rewrite store_cells_below by lia.
    unfold write64. rewrite Z.add_0_r. apply lookup_insert_eq.
  - replace (pos + 8 * Z.of_nat (S i)) with (pos + 8 + 8 * Z.of_nat i) by lia.
    by apply IH.
Qed.

(** C8: every [push_restore()] that returns, forced or not, has appended
    the two stores into the jmp_buf, the longjmp call and then exactly two
    padding constants; the slot it reserved as its second entry holds the
    stack base address plus the position after that padding; and the
    value stored to the resume-address field of the jmp_buf is the address
    of the ['ret'] gadget. *)
Theorem push_restore_layout (is_force : bool) (s s' : chain)
    (H : push_restore E is_force s = Ok tt s') :
  exists pop_rax pop_rdi mov_rdi_rax ret_addr longjmp entries call_cells,
    gadgets E !! "pop rax; ret" = Some pop_rax
    /\ gadgets E !! "pop rdi; ret" = Some pop_rdi
    /\ gadgets E !! "mov qword ptr [rdi], rax; ret" = Some mov_rdi_rax
    /\ gadgets E !! "ret" = Some ret_addr
    /\ gadgets E !! "longjmp" = Some longjmp
    /\ call_sequence E (position (base s) + 80) longjmp [jmp_buf_p E]
       = Normal entries
    /\ mapM (entry_cell E) entries = Some call_cells
    /\ let p0 := position (base s) in
       let p1 := position (base s') in
       let cells :=
         ([pop_rax; 0; pop_rdi; Int_add (jmp_buf_p E) 0x39; mov_rdi_rax;
           pop_rax; ret_addr; pop_rdi; Int_add (jmp_buf_p E) 0x80; mov_rdi_rax]
          ++ call_cells ++ [0; 0])%list in
       p1 = p0 + 8 * Z.of_nat (length cells)
       /\ stack (base s')
          = write64 (store_cells p0 cells (stack (base s))) (p0 + 8)
              (Int_add (stack_addr E) p1)
       /\ stack (base s') !! (p0 + 8) = Some (Int_add (stack_addr E) p1)
       /\ stack (base s') !! (p1 - 16) = Some 0
       /\ stack (base s') !! (p1 - 8) = Some 0
       /\ stack (base s') !! (p0 + 48) = Some ret_addr
       /\ stack (base s') !! (p0 + 64) = Some (Int_add (jmp_buf_p E) 0x80)
       /\ stack (base s') !! (p0 + 72) = Some mov_rdi_rax
       /\ is_saved s' = true
       /\ (forall value s'',
             push_value E value s' = Ok tt s'' ->
             stack (base s'') !! p1 = Some value).
Proof.
  unfold push_restore in H.
  chain_step H. chain_step H; [discriminate H|]. chain_step H.
  chain_step H. apply push_gadget_appended in Hm as (pop_rax & Hpop_rax & A1).
  pose proof (appended_position _ _ _ _ A1) as Hslot.
  cbn [length] in Hslot. change (8 * Z.of_nat 1) with 8 in Hslot.
  chain_step H.
  chain_step H. apply push_constant_appended in Hm.
  pose proof (appended_trans _ _ _ _ _ A1 Hm) as A2. clear A1 Hm.
  chain_step H. apply push_gadget_appended in Hm as (pop_rdi & Hpop_rdi & A1).
  pose proof (appended_trans _ _ _ _ _ A2 A1) as A3. clear A1 A2.
  chain_step H. apply push_value_appended in Hm.
  pose proof (appended_trans _ _ _ _ _ A3 Hm) as A4. clear A3 Hm.
  chain_step H. apply push_gadget_appended in Hm as (mov & Hmov & A1).
  pose proof (appended_trans _ _ _ _ _ A4 A1) as A5. clear A1 A4.
  chain_step H. apply push_gadget_appended in Hm as (pop_rax' & Hpop_rax' & A1).
  pose proof (appended_trans _ _ _ _ _ A5 A1) as A6. clear A1 A5.
  chain_step H.
  chain_step H. apply push_value_appended in Hm.
  pose proof (appended_trans _ _ _ _ _ A6 Hm) as A7. clear A6 Hm.
  chain_step H. apply push_gadget_appended in Hm as (pop_rdi' & Hpop_rdi' & A1).
  pose proof (appended_trans _ _ _ _ _ A7 A1) as A8. clear A1 A7.
  chain_step H. apply push_value_appended in Hm.
  pose proof (appended_trans _ _ _ _ _ A8 Hm) as A9. clear A8 Hm.
  chain_step H. apply push_gadget_appended in Hm as (mov' & Hmov' & A1).
  pose proof (appended_trans _ _ _ _ _ A9 A1) as A10. clear A1 A9.
  chain_step H.
  chain_step H.
  apply push_call_appended in Hm as (entries & call_cells & Hseq & Hcells & A1).
  rewrite (appended_position _ _ _ _ A10) in Hseq.
  pose proof (appended_trans _ _ _ _ _ A10 A1) as A11. clear A1 A10.
  chain_step H. apply push_constant_appended in Hm.
  pose proof (appended_trans _ _ _ _ _ A11 Hm) as A12. clear A11 Hm.
  chain_step H. apply push_constant_appended in Hm.
  pose proof (appended_trans _ _ _ _ _ A12 Hm) as A13. clear A12 Hm.
  chain_step H. chain_step H.
  injection H as <-.
  replace pop_rax' with pop_rax in * by congruence.
  replace pop_rdi' with pop_rdi in * by congruence.
  replace mov' with mov in * by congruence.
  cbn [app] in A13. rewrite <- !app_assoc in A13. cbn [app] in A13.
  change (new_Int 0) with 0 in A13.
  pose proof (appended_position _ _ _ _ A13) as Hpos.
  pose proof (appended_stack _ _ _ _ A13) as Hstack. clear A13.
  cbn [position base stack set_base set_is_saved with_stack is_saved with_position].
  pose proof Hpos as Hpos'.
  rewrite Hstack, Hpos, Hslot. clear Hstack Hpos Hslot.
  cbn [app length] in Hseq. change (8 * Z.of_nat 10) with 80 in Hseq.
  exists pop_rax, pop_rdi, mov, addr, addr0, entries, call_cells.
  split; [assumption|]. split; [assumption|]. split; [assumption|].
  split; [reflexivity|]. split; [reflexivity|].
  split; [exact Hseq|]. split; [assumption|].
  cbv zeta. cbn [app].
  match goal with
  | |- context [store_cells _ ?c _] => set (cells := c) in *
  end.
  assert (Hlen : Z.of_nat (length cells) = 12 + Z.of_nat (length call_cells)).
  { subst cells. cbn [length]. rewrite length_app. cbn [length]. lia. }
  assert (Hlast : forall i : nat, (i < 2)%nat ->
            cells !! (10 + length call_cells + i)%nat = Some 0).
  { intros i Hi. subst cells.
    change (?a :: ?b :: ?c :: ?d :: ?e :: ?f :: ?g :: ?h :: ?i :: ?j :: ?l)
      with ([a; b; c; d; e; f; g; h; i; j] ++ l)%list.
    rewrite lookup_app_r by (cbn [length]; lia). cbn [length].
    rewrite lookup_app_r by lia.
    replace (10 + length call_cells + i - 10 - length call_cells)%nat with i by lia.
    destruct i as [|[|i]]; [reflexivity | reflexivity | lia]. }
  unfold write64. rewrite Hlen.
  split; [reflexivity|]. split; [reflexivity|].
  split; [apply lookup_insert_eq|].
  split.
  { rewrite lookup_insert_ne by lia.
    replace (position (base s) + 8 * (12 + Z.of_nat (length call_cells)) - 16)
      with (position (base s) + 8 * Z.of_nat (10 + length call_cells + 0)) by lia.
    apply store_cells_lookup, Hlast. lia. }
  split.
  { rewrite lookup_insert_ne by lia.
    replace (position (base s) + 8 * (12 + Z.of_nat (length call_cells)) - 8)
      with (position (base s) + 8 * Z.of_nat (10 + length call_cells + 1)) by lia.
    apply store_cells_lookup, Hlast. lia. }
  split; [rewrite lookup_insert_ne by lia;
          apply (store_cells_lookup _ _ _ 6%nat); reflexivity|].
  split; [rewrite lookup_insert_ne by lia;
          apply (store_cells_lookup _ _ _ 8%nat); reflexivity|].
  split; [rewrite lookup_insert_ne by lia;
          apply (store_cells_lookup _ _ _ 9%nat); reflexivity|].
  split; [reflexivity|].
  intros value s'' Hnext. apply push_value_appended in Hnext.
  rewrite (appended_stack _ _ _ _ Hnext).
  cbn [store_cells position base set_base set_is_saved with_stack].
  unfold write64. rewrite Hpos', Hlen. apply lookup_insert_eq.
Qed.

End Chain803_properties.

(** **** The chain as constructed and as cleaned *)

(** C1: after [clean()] the position is 0 and the chain is not stale, but
    the branch context is marked open: [check_is_branching()] throws and
    [start_branch()] throws.  This holds for every chain and every
    environment. *)
Theorem clean_leaves_branch_context_open (E : env) (s : chain) :
  exists s',
    clean s = Ok tt s'
    /\ position (base s') = 0
    /\ is_stale (base s') = false
    /\ is_branch_ctx (branch s') = true
    /\ check_is_branching s'
       = Throw (Error "chain is still branching, end it before running") s'
    /\ start_branch E s'
       = Throw (Error "chain already branching, end it first") s'.
Proof.
  eexists. split; [apply clean_result|].
  do 4 (split; [reflexivity|]).
  by apply start_branch_already_branching.
Qed.

Lemma example_chain_constructed : new_Chain803 example_env = Ok tt example_chain.
Proof. vm_compute. reflexivity. Qed.

(** C2: on a chain that was just constructed or just cleaned, with no
    [push_save()] on it, [push_restore()] without the force flag does what
    the forced one does and returns; in the example environment it appends
    its fifteen entries. *)
Theorem push_restore_without_save_returns :
  (forall (E : env) (s : chain),
     exists s', clean s = Ok tt s' /\ is_saved s' = true
                /\ push_restore E false s' = push_restore E true s')
  /\ (forall (E : env) (c : chain),
        new_Chain803 E = Ok tt c ->
        is_saved c = true /\ push_restore E false c = push_restore E true c)
  /\ match push_restore example_env false example_chain with
     | Ok _ s' => position (base s') = 120
     | Throw _ _ => False
     end
  /\ match (clean ;; push_restore example_env false) example_chain with
     | Ok _ s' => position (base s') = 120
     | Throw _ _ => False
     end.
Proof.
  split; [|split; [|split]].
  - intros E s. eexists. split; [apply clean_result|].
    split; [reflexivity|]. by apply push_restore_force_irrelevant.
  - intros E c Hc. apply new_Chain803_fields in Hc as (_ & _ & _ & Hsaved & _).
    split; [exact Hsaved|]. by apply push_restore_force_irrelevant.
  - vm_compute. reflexivity.
  - vm_compute. reflexivity.
Qed.

(** C3: the first [push_save()] on a chain that was just constructed or
    just cleaned throws 'restore first before saving again' and leaves the
    chain as it was. *)
Theorem first_push_save_throws :
  (forall (E : env) (s : chain),
     exists s', clean s = Ok tt s'
                /\ push_save E s'
                   = Throw (Error "restore first before saving again") s')
  /\ (forall (E : env) (c : chain),
        new_Chain803 E = Ok tt c ->
        push_save E c = Throw (Error "restore first before saving again") c)
  /\ new_Chain803 example_env = Ok tt example_chain
  /\ push_save example_env example_chain
     = Throw (Error "restore first before saving again") example_chain.
Proof.
  split; [|split; [|split]].
  - intros E s. eexists. split; [apply clean_result|].
    by apply push_save_already_saved.
  - intros E c Hc. apply new_Chain803_fields in Hc as (_ & _ & _ & Hsaved & _).
    by apply push_save_already_saved.
  - exact example_chain_constructed.
  - by apply push_save_already_saved.
Qed.

(** C6: on a chain that is not empty [call] and [syscall] throw and leave
    the chain and the target as they were.  On an empty chain that was
    just cleaned they never return: [run()] finds the branch context
    marked open and throws, after the entries were appended and before
    anything is written to the target, so [clean()] is not reached and the
    chain is left with its entries. *)
Theorem invocation_on_clean_chain_throws :
  (forall (E : env) (func_addr : Z) (name : string) (args : list Z) (s : chain),
     position (base s) <> 0 ->
     call E func_addr args s = Throw (Error "call() needs an empty chain") s
     /\ syscall E name args s
        = Throw (Error "syscall() needs an empty chain") s)
  /\ (forall (E : env) (func_addr : Z) (name : string) (args : list Z) (s : chain),
        exists s0,
          clean s = Ok tt s0 /\ position (base s0) = 0
          /\ (forall s', call E func_addr args s0 <> Ok tt s')
          /\ (forall s', syscall E name args s0 <> Ok tt s'))
  /\ match call example_env 0x900000000 [1; 2] example_chain with
     | Throw e s' =>
         e = Error "chain is still branching, end it before running"
         /\ position (base s') = 72 /\ target s' = []
     | Ok _ _ => False
     end
  /\ match syscall example_env "getuid" [] example_chain with
     | Throw e s' =>
         e = Error "chain is still branching, end it before running"
         /\ position (base s') = 56 /\ target s' = []
     | Ok _ _ => False
     end.
Proof.
  split; [|split; [|split]].
  - intros E func_addr name args s Hpos.
    split; [by apply call_needs_empty_chain | by apply syscall_needs_empty_chain].
  - intros E func_addr name args s. eexists. split; [apply clean_result|].
    split; [reflexivity|]. split; intros s'.
    + by apply call_stuck_while_branching.
    + by apply syscall_stuck_while_branching.
  - vm_compute. repeat split; reflexivity.
  - vm_compute. repeat split; reflexivity.
Qed.

(** **** The theorems above at the example chain *)

Lemma branch_delta_is_body_length_witness :
  start_branch example_env example_chain_not_branching = Ok tt example_branch_opened
  /\ run_ops example_env example_body example_branch_opened
     = Ok tt example_branch_built
  /\ position (base example_branch_built) - position (base example_branch_opened)
     = 152
  /\ exists s3,
       end_branch example_branch_built = Ok tt s3
       /\ stack (base s3) !! 104 = Some 152.
Proof.
  assert (H1 : start_branch example_env example_chain_not_branching
               = Ok tt example_branch_opened) by (vm_compute; reflexivity).
  assert (H2 : run_ops example_env example_body example_branch_opened
               = Ok tt example_branch_built) by (vm_compute; reflexivity).
  split; [exact H1|]. split; [exact H2|].
  assert (Hsize : stack_size example_env < 2 ^ 64) by (cbn; lia).
  assert (Hcursor : 0 <= position (base example_chain_not_branching)).
  { replace (position (base example_chain_not_branching)) with 0
      by (vm_compute; reflexivity). lia. }
  assert (Hn : position (base example_branch_built)
               - position (base example_branch_opened) = 152)
    by (vm_compute; reflexivity).
  split; [exact Hn|].
  destruct (branch_delta_is_body_length example_env _ _ _ _ Hsize Hcursor H1 H2)
    as (s3 & Hend & _ & _ & _ & Hslot & _).
  exists s3. split; [exact Hend|].
  rewrite Hn in Hslot. exact Hslot.
Defined.

Lemma run_checks_before_target_witness :
  position (base example_chain) = 0
  /\ exists e s', run example_env example_chain = Throw e s'
                  /\ target s' = target example_chain.
Proof.
  assert (H : position (base example_chain) = 0) by reflexivity.
  split; [exact H|].
  destruct (run_checks_before_target example_env example_chain (or_introl H))
    as (e & s' & Hrun & Htarget & _).
  eauto.
Defined.

Lemma push_restore_layout_witness :
  push_restore example_env false example_chain = Ok tt example_restored
  /\ position (base example_restored) = 120
  /\ stack (base example_restored) !! 8
     = Some (Int_add (stack_addr example_env) 120)
  /\ stack (base example_restored) !! 104 = Some 0
  /\ stack (base example_restored) !! 112 = Some 0.
Proof.
  assert (H : push_restore example_env false example_chain
              = Ok tt example_restored) by (vm_compute; reflexivity).
  assert (Hp : position (base example_restored) = 120) by (vm_compute; reflexivity).
  split; [exact H|]. split; [exact Hp|].
  destruct (push_restore_layout example_env false _ _ H)
    as (? & ? & ? & ? & ? & ? & ? & _ & _ & _ & _ & _ & _ & _
        & _ & _ & Hslot & Hpad1 & Hpad2 & _).
  rewrite Hp in Hslot, Hpad1, Hpad2. auto.
Defined.

(** * Properties of Int64 *)

Section Int64_arithmetic.

Import Int64.

Local Abbreviation byte_range := (fun b : Z => 0 <= b < 256).

Lemma le_value_snoc (l : list Z) (x : Z) :
  le_value (l ++ [x]) = le_value l + 256 ^ Z.of_nat (length l) * x.
Proof.
  induction l as [|b l IH]; cbn [le_value app length].
  - cbn. lia.
  - rewrite IH, Nat2Z.inj_succ, Z.pow_succ_r by lia. lia.
Qed.

Lemma le_value_take_succ (l : list Z) (n : nat) :
  le_value (take (S n) l) = le_value (take n l) + 256 ^ Z.of_nat n * nth n l 0.
Proof.
  revert l; induction n as [|n IH]; intros [|b l]; cbn [take firstn le_value nth];
    try (cbn; lia).
  - destruct l; cbn; lia.
  - specialize (IH l). cbn [take firstn] in IH. rewrite IH.
    rewrite Nat2Z.inj_succ, Z.pow_succ_r by lia. lia.
Qed.

Lemma le_value_bounds (l : list Z) :
  Forall byte_range l -> 0 <= le_value l < 256 ^ Z.of_nat (length l).
Proof.
  induction 1 as [|b l Hb _ IH]; cbn [le_value length].
  - cbn. lia.
  - rewrite Nat2Z.inj_succ, Z.pow_succ_r by lia. lia.
Qed.

Lemma le_value_inj (l1 l2 : list Z) :
  length l1 = length l2 -> Forall byte_range l1 -> Forall byte_range l2 ->
  le_value l1 = le_value l2 -> l1 = l2.
Proof.
  revert l2; induction l1 as [|b1 l1 IH]; intros [|b2 l2] Hlen H1 H2 Hv;
    try discriminate; [reflexivity|].
  inversion H1; inversion H2; subst. cbn [le_value] in Hv.
  assert (b1 = b2) by lia. subst b2.
  f_equal. apply IH; auto. lia.
Qed.

Lemma byteAt_range (l : list Z) (i : Z) :
  Forall byte_range l -> 0 <= byteAt l i < 256.
Proof.
  intros H. unfold byteAt. generalize (Z.to_nat i) as n.
  induction H as [|b l Hb _ IH]; intros [|n]; cbn [nth]; auto; lia.
Qed.

Lemma wrapped_range (l : list Z) : Forall byte_range (map (fun x => x mod 256) l).
Proof.
  apply Forall_forall. intros y Hy. apply list_elem_of_In, in_map_iff in Hy.
  destruct Hy as (x & <- & _). apply Z.mod_pos_bound. lia.
Qed.

Lemma take_full (l : list Z) (n : nat) : length l = n -> take n l = l.
Proof. intros <-. apply firstn_all. Qed.

(** The constructor on an array of eight numbers: each is stored into the
    [Uint8Array]. *)
Lemma new_Int64_array (l : list Z) :
  length l = 8%nat -> new_Int64 [JArray l] = Normal (map (fun x => x mod 256) l).
Proof.
  intros Hl. unfold new_Int64. cbn [length nth Nat.ltb Nat.leb Nat.eqb orb cbind].
  rewrite Hl. cbn [Nat.eqb negb]. unfold u8_set.
  rewrite repeat_length, Hl. cbn [Nat.ltb Nat.leb]. f_equal.
  cbn. apply app_nil_r.
Qed.

Lemma new_Int64_array_wf (l : list Z) :
  length l = 8%nat -> is_u8x8 (map (fun x => x mod 256) l).
Proof. intros Hl. split; [by rewrite length_map | apply wrapped_range]. Qed.

(** The loop of [add]: after the turns for bytes [0 .. i), the bytes written
    so far and the carry hold the sum of the low [i] bytes. *)
Lemma add_loop_sum (this a : list Z) :
  Forall byte_range this -> Forall byte_range a ->
  forall (n : nat) (i : Z) (ret : list Z) (carry : Z),
    0 <= i -> length ret = Z.to_nat i -> 0 <= carry <= 1 ->
    le_value (map (fun x => x mod 256) ret) + carry * 256 ^ i
      = le_value (take (Z.to_nat i) this) + le_value (take (Z.to_nat i) a) ->
    exists ret' carry',
      for_loop n i 1 (add_step this a) (ret, carry) = (ret', carry')
      /\ length ret' = (Z.to_nat i + n)%nat /\ 0 <= carry' <= 1
      /\ le_value (map (fun x => x mod 256) ret') + carry' * 256 ^ (i + Z.of_nat n)
         = le_value (take (Z.to_nat i + n) this) + le_value (take (Z.to_nat i + n) a).
Proof.
  intros Hthis Ha. induction n as [|n IH]; intros i ret carry Hi Hlen Hc Hsum.
  - exists ret, carry. rewrite !Nat.add_0_r, Z.add_0_r. auto.
  - cbn [for_loop add_step].
    pose proof (byteAt_range this i Hthis) as Hti.
    pose proof (byteAt_range a i Ha) as Hai.
    set (cur := byteAt this i + byteAt a i + carry) in *.
    set (carry1 := if 255 <? cur then 1 else 0).
    assert (Hsplit : cur mod 256 + carry1 * 256 = cur).
    { subst carry1. destruct (Z.ltb_spec 255 cur).
      - rewrite <- (Z.mod_unique_pos cur 256 1 (cur - 256)); lia.
      - rewrite Z.mod_small; lia. }
    destruct (IH (i + 1) (ret ++ [cur])%list carry1) as (ret' & carry' & Hrun & Hl & Hc' & Hs).
    + lia.
    + rewrite length_app, Hlen. cbn. lia.
    + subst carry1. destruct (255 <? cur); lia.
    + replace (Z.to_nat (i + 1)) with (S (Z.to_nat i)) by lia.
      rewrite !le_value_take_succ, map_app. cbn [map].
      rewrite le_value_snoc, length_map, Hlen, Z2Nat.id by lia.
      replace (256 ^ (i + 1)) with (256 * 256 ^ i) by (rewrite Z.pow_add_r; lia).
      unfold byteAt in cur. nia.
    + exists ret', carry'. rewrite Hrun.
      replace (Z.to_nat i + S n)%nat with (Z.to_nat (i + 1) + n)%nat by lia.
      replace (i + Z.of_nat (S n)) with (i + 1 + Z.of_nat n) by lia.
      auto.
Qed.

(** The loop of [sub], with the borrow in place of the carry. *)
Lemma sub_loop_difference (this a : list Z) :
  Forall byte_range this -> Forall byte_range a ->
  forall (n : nat) (i : Z) (ret : list Z) (carry : Z),
    0 <= i -> length ret = Z.to_nat i -> 0 <= carry <= 1 ->
    le_value (map (fun x => x mod 256) ret) - carry * 256 ^ i
      = le_value (take (Z.to_nat i) this) - le_value (take (Z.to_nat i) a) ->
    exists ret' carry',
      for_loop n i 1 (sub_step this a) (ret, carry) = (ret', carry')
      /\ length ret' = (Z.to_nat i + n)%nat /\ 0 <= carry' <= 1
      /\ le_value (map (fun x => x mod 256) ret') - carry' * 256 ^ (i + Z.of_nat n)
         = le_value (take (Z.to_nat i + n) this) - le_value (take (Z.to_nat i + n) a).
Proof.
  intros Hthis Ha. induction n as [|n IH]; intros i ret carry Hi Hlen Hc Hsum.
  - exists ret, carry. rewrite !Nat.add_0_r, Z.add_0_r. auto.
  - cbn [for_loop sub_step].
    pose proof (byteAt_range this i Hthis) as Hti.
    pose proof (byteAt_range a i Ha) as Hai.
    set (cur := byteAt this i - byteAt a i - carry) in *.
    set (carry1 := if cur <? 0 then 1 else 0).
    assert (Hsplit : cur mod 256 - carry1 * 256 = cur).
    { subst carry1. destruct (Z.ltb_spec cur 0).
      - rewrite <- (Z.mod_unique_pos cur 256 (-1) (cur + 256)); lia.
      - rewrite Z.mod_small; lia. }
    destruct (IH (i + 1) (ret ++ [cur])%list carry1) as (ret' & carry' & Hrun & Hl & Hc' & Hs).
    + lia.
    + rewrite length_app, Hlen. cbn. lia.
    + subst carry1. destruct (cur <? 0); lia.
    + replace (Z.to_nat (i + 1)) with (S (Z.to_nat i)) by lia.
      rewrite !le_value_take_succ, map_app. cbn [map].
      rewrite le_value_snoc, length_map, Hlen, Z2Nat.id by lia.
      replace (256 ^ (i + 1)) with (256 * 256 ^ i) by (rewrite Z.pow_add_r; lia).
      unfold byteAt in cur. nia.
    + exists ret', carry'. rewrite Hrun.
      replace (Z.to_nat i + S n)%nat with (Z.to_nat (i + 1) + n)%nat by lia.
      replace (i + Z.of_nat (S n)) with (i + 1 + Z.of_nat n) by lia.
      auto.
Qed.

(** [a.add(b)] returns an Int64 whose value is the sum modulo 2^64. *)
Lemma add_value (a b : list Z) :
  is_u8x8 a -> is_u8x8 b ->
  exists r, add a [JInt64 b] = Normal r /\ is_u8x8 r
            /\ le_value r = (le_value a + le_value b) mod 2 ^ 64.
Proof.
  intros [Hla Ha] [Hlb Hb].
  unfold add, operation. cbn [length Nat.eqb negb cmapM cbind].
  unfold add_body. cbn [nth].
  destruct (add_loop_sum a b Ha Hb 8 0 [] 0) as (ret & c & Hrun & Hl & Hc & Hs);
    [lia | reflexivity | lia | reflexivity |].
  rewrite Hrun, new_Int64_array by exact Hl.
  eexists; split; [reflexivity|]. split; [by apply new_Int64_array_wf|].
  cbn [Z.to_nat Nat.add] in Hs. rewrite !take_full in Hs by assumption.
  pose proof (le_value_bounds _ (wrapped_range ret)) as Hr.
  rewrite length_map, Hl in Hr.
  apply Z.mod_unique_pos with (q := c); [exact Hr|].
  change (0 + Z.of_nat 8) with 8 in Hs. change (256 ^ 8) with (2 ^ 64) in Hs. lia.
Qed.

(** [a.sub(b)] returns an Int64 whose value is the difference modulo 2^64. *)
Lemma sub_value (a b : list Z) :
  is_u8x8 a -> is_u8x8 b ->
  exists r, sub a [JInt64 b] = Normal r /\ is_u8x8 r
            /\ le_value r = (le_value a - le_value b) mod 2 ^ 64.
Proof.
  intros [Hla Ha] [Hlb Hb].
  unfold sub, operation. cbn [length Nat.eqb negb cmapM cbind].
  unfold sub_body. cbn [nth].
  destruct (sub_loop_difference a b Ha Hb 8 0 [] 0) as (ret & c & Hrun & Hl & Hc & Hs);
    [lia | reflexivity | lia | reflexivity |].
  rewrite Hrun, new_Int64_array by exact Hl.
  eexists; split; [reflexivity|]. split; [by apply new_Int64_array_wf|].
  cbn [Z.to_nat Nat.add] in Hs. rewrite !take_full in Hs by assumption.
  pose proof (le_value_bounds _ (wrapped_range ret)) as Hr.
  rewrite length_map, Hl in Hr.
  apply Z.mod_unique_pos with (q := - c); [exact Hr|].
  change (0 + Z.of_nat 8) with 8 in Hs. change (256 ^ 8) with (2 ^ 64) in Hs. lia.
Qed.

Lemma One_value : One = Normal [1; 0; 0; 0; 0; 0; 0; 0].
Proof. reflexivity. Qed.

Lemma Zero_value : Zero = Normal [0; 0; 0; 0; 0; 0; 0; 0].
Proof. reflexivity. Qed.

Lemma complement_value (l : list Z) :
  Forall byte_range l ->
  le_value (map (fun x => x mod 256) (map Z.lnot l))
  = 256 ^ Z.of_nat (length l) - 1 - le_value l.
Proof.
  induction 1 as [|b l Hb _ IH]; [reflexivity|].
  cbn [map le_value length]. rewrite IH, Nat2Z.inj_succ, Z.pow_succ_r by lia.
  unfold Z.lnot.
  rewrite <- (Z.mod_unique_pos (Z.pred (- b)) 256 (-1) (255 - b)) by lia. lia.
Qed.

(** [a.neg()] returns the two's complement of [a]. *)
Lemma neg_value (a : list Z) :
  is_u8x8 a ->
  exists r, neg a [] = Normal r /\ is_u8x8 r
            /\ le_value r = (- le_value a) mod 2 ^ 64.
Proof.
  intros [Hla Ha].
  assert (Hloop : for_loop 8 0 1 (neg_step a) [] = map Z.lnot a).
  { destruct a as [|a0 [|a1 [|a2 [|a3 [|a4 [|a5 [|a6 [|a7 [|]]]]]]]]];
      try discriminate. reflexivity. }
  unfold neg, operation. cbn [length Nat.eqb negb cmapM cbind].
  unfold neg_body. rewrite Hloop.
  rewrite new_Int64_array by (by rewrite length_map).
  rewrite One_value. cbn [cbind].
  destruct (add_value (map (fun x => x mod 256) (map Z.lnot a))
              [1; 0; 0; 0; 0; 0; 0; 0]) as (r & Hr & Hwf & Hv).
  { apply new_Int64_array_wf. by rewrite length_map. }
  { split; [reflexivity|]. repeat constructor; lia. }
  exists r. split; [exact Hr|]. split; [exact Hwf|].
  rewrite Hv, complement_value, Hla by exact Ha.
  change (le_value [1; 0; 0; 0; 0; 0; 0; 0]) with 1.
  change (256 ^ Z.of_nat 8) with (2 ^ 64).
  replace (2 ^ 64 - 1 - le_value a + 1) with (- le_value a + 1 * 2 ^ 64) by lia.
  apply Z.mod_add. lia.
Qed.

(** [x.equals(x)] *)
Lemma equals_same (x : list Z) : equals x (JInt64 x) = Normal true.
Proof.
  unfold equals. cbn [cbind for_loop]. by rewrite !Z.eqb_refl.
Qed.

(** The value of an Int64 determines its bytes. *)
Lemma u8x8_value_inj (x y : list Z) :
  is_u8x8 x -> is_u8x8 y -> le_value x = le_value y -> x = y.
Proof.
  intros [Hlx Hx] [Hly Hy] Hv. apply le_value_inj; auto. congruence.
Qed.

(** C9: Int64 arithmetic is exact modulo 2^64.  For all Int64 values [a]
    and [b]: [a.add(b)] returns the Int64 whose value is the sum of the two
    values modulo 2^64, [a.add(b).sub(b).equals(a)] is true, and
    [a.add(a.neg()).equals(Int64.Zero)] is true. *)
Theorem Int64_arithmetic_mod_2_64 (a b : list Z)
    (Ha : is_u8x8 a) (Hb : is_u8x8 b) :
  (exists r, add a [JInt64 b] = Normal r /\ is_u8x8 r
             /\ le_value r = (le_value a + le_value b) mod 2 ^ 64)
  /\ (s <-? add a [JInt64 b] ; d <-? sub s [JInt64 b] ; equals d (JInt64 a))
     = Normal true
  /\ (n <-? neg a [] ; z <-? add a [JInt64 n] ; zero <-? Zero ;
      equals z (JInt64 zero))
     = Normal true.
Proof.
  pose proof (le_value_bounds a (proj2 Ha)) as Hra. rewrite (proj1 Ha) in Hra.
  change (256 ^ Z.of_nat 8) with (2 ^ 64) in Hra.
  destruct (add_value a b Ha Hb) as (s & Hs & Hwfs & Hvs).
  split; [eauto|]. split.
  - rewrite Hs. cbn [cbind].
    destruct (sub_value s b Hwfs Hb) as (d & Hd & Hwfd & Hvd).
    rewrite Hd. cbn [cbind].
    assert (d = a) as ->; [|apply equals_same].
    apply u8x8_value_inj; auto.
    rewrite Hvd, Hvs, Zminus_mod_idemp_l.
    replace (le_value a + le_value b - le_value b) with (le_value a) by lia.
    apply Z.mod_small. lia.
  - destruct (neg_value a Ha) as (n & Hn & Hwfn & Hvn).
    rewrite Hn. cbn [cbind].
    destruct (add_value a n Ha Hwfn) as (z & Hz & Hwfz & Hvz).
    rewrite Hz, Zero_value. cbn [cbind].
    assert (z = [0; 0; 0; 0; 0; 0; 0; 0]) as ->; [|apply equals_same].
    apply u8x8_value_inj; auto.
    { split; [reflexivity|]. repeat constructor; lia. }
    rewrite Hvz, Hvn, Zplus_mod_idemp_r, Z.add_opp_diag_r. reflexivity.
Qed.

Lemma Int64_arithmetic_mod_2_64_witness :
  let a := [255; 255; 255; 255; 255; 255; 255; 255] in
  let b := [2; 0; 0; 0; 0; 0; 0; 0] in
  add a [JInt64 b] = Normal [1; 0; 0; 0; 0; 0; 0; 0]
  /\ (s <-? add a [JInt64 b] ; d <-? sub s [JInt64 b] ; equals d (JInt64 a))
     = Normal true
  /\ (n <-? neg a [] ; z <-? add a [JInt64 n] ; zero <-? Zero ;
      equals z (JInt64 zero))
     = Normal true.
Proof.
  intros a b.
  assert (Ha : is_u8x8 a) by (split; [reflexivity | repeat constructor; lia]).
  assert (Hb : is_u8x8 b) by (split; [reflexivity | repeat constructor; lia]).
  destruct (Int64_arithmetic_mod_2_64 a b Ha Hb) as (_ & H2 & H3).
  split; [reflexivity | split; assumption].
Defined.

(** C10: the Int64 constructor validates its arguments.  No argument or
    more than two arguments throw TypeError; with two arguments, one that
    is not a number throws TypeError and, both being numbers, one that is
    negative or above 0xffffffff throws RangeError; an object that is not
    an Int64 and whose length is not 8 throws TypeError. *)
Theorem new_Int64_validates (arguments : list jsval) (e : exn)
    (H : refused arguments e) :
  new_Int64 arguments = Abrupt e.
Proof.
  destruct H as [|arguments Hlen|low high Hnum|low high Hrange|l Hlen|].
  - reflexivity.
  - unfold new_Int64.
    destruct (Nat.ltb_spec 2 (length arguments)); [reflexivity | lia].
  - unfold new_Int64. cbn [length Nat.ltb Nat.leb Nat.eqb orb nth cbind].
    destruct Hnum as [Hnum|Hnum]; destruct low, high; try discriminate; reflexivity.
  - unfold new_Int64. cbn [length Nat.ltb Nat.leb Nat.eqb orb nth cbind].
    assert (Hb : num_gt low 0xffffffff || num_gt high 0xffffffff
                 || num_lt low 0 || num_lt high 0 = true).
    { destruct low as [|zl], high as [|zh]; cbn [negative exceeds_uint32] in Hrange;
        unfold num_gt, num_lt; rewrite ?orb_true_iff, ?Z.ltb_lt; cbn; lia. }
    rewrite Hb. reflexivity.
  - unfold new_Int64. cbn [length Nat.ltb Nat.leb Nat.eqb orb nth cbind].
    destruct (Nat.eqb_spec (length l) 8); [contradiction | reflexivity].
  - reflexivity.
Qed.

Lemma new_Int64_validates_witness :
  new_Int64 [] = Abrupt (TypeError "Incorrect number of arguments to constructor")
  /\ new_Int64 [JNumber (Num 1); JNumber (Num 2); JNumber (Num 3)]
     = Abrupt (TypeError "Incorrect number of arguments to constructor")
  /\ new_Int64 [JNumber (Num 1); JString "2"]
     = Abrupt (TypeError "Both arguments must be numbers")
  /\ new_Int64 [JNumber (Num 0x100000000); JNumber (Num 0)]
     = Abrupt (RangeError "Both arguments must fit inside a uint32")
  /\ new_Int64 [JNumber (Num 0); JNumber (Num (-1))]
     = Abrupt (RangeError "Both arguments must fit inside a uint32")
  /\ new_Int64 [JArray [1; 2; 3]]
     = Abrupt (TypeError "Array must have excactly 8 elements.").
Proof.
  split; [apply new_Int64_validates, refused_no_argument|].
  split; [apply new_Int64_validates, refused_more_than_two; cbn; lia|].
  split; [apply new_Int64_validates, refused_not_a_number; right; reflexivity|].
  split; [apply new_Int64_validates, refused_out_of_range;
          right; right; left; cbn; lia|].
  split; [apply new_Int64_validates, refused_out_of_range; right; left; cbn; lia|].
  apply new_Int64_validates, refused_array_length; cbn; lia.
Defined.

End Int64_arithmetic.

(** * Hexadecimal strings and the Int64 constructor *)

Section Int64_strings.

Import Int64.

Local Abbreviation byte_range := (fun b : Z => 0 <= b < 256).

(** A property checked on each of the 256 bytes holds of every byte. *)
Lemma byte_cases (P : Z -> bool) :
  forallb P (seqZ 0 256) = true -> forall b, 0 <= b < 256 -> P b = true.
Proof.
  intros H b Hb. rewrite forallb_forall in H. apply H.
  apply list_elem_of_In, elem_of_seqZ. lia.
Qed.

Lemma hex_digit_range (c : ascii) (d : Z) : hex_digit c = Some d -> 0 <= d < 16.
Proof.
  unfold hex_digit, HexString.ascii_to_digit.
  repeat match goal with
         | |- context [ascii_dec c ?x] => destruct (ascii_dec c x)
         end; cbn; intros [= <-]; lia.
Qed.

(** [parseInt] of two hexadecimal digits. *)
Lemma parseInt16_pair (c1 c2 : ascii) (d1 d2 : Z) :
  hex_digit c1 = Some d1 -> hex_digit c2 = Some d2 ->
  parseInt16 (String c1 (String c2 "")) = Num (16 * d1 + d2).
Proof.
  assert (Hall : forallb (fun a => forallb (fun b =>
            match hex_digit a, hex_digit b with
            | Some x, Some y =>
                match parseInt16 (String a (String b "")) with
                | Num v => v =? 16 * x + y
                | NaN => false
                end
            | _, _ => true
            end) (list_ascii_of_string "0123456789abcdefABCDEF"))
            (list_ascii_of_string "0123456789abcdefABCDEF") = true)
    by (vm_compute; reflexivity).
  assert (Hin : forall c d, hex_digit c = Some d ->
            In c (list_ascii_of_string "0123456789abcdefABCDEF")).
  { intros c d. unfold hex_digit, HexString.ascii_to_digit.
    repeat match goal with
           | |- context [ascii_dec c ?x] =>
               destruct (ascii_dec c x) as [->|_]; [intros _; cbn; tauto|]
           end.
    discriminate. }
  intros H1 H2. rewrite forallb_forall in Hall.
  specialize (Hall c1 (Hin _ _ H1)). rewrite forallb_forall in Hall.
  specialize (Hall c2 (Hin _ _ H2)). rewrite H1, H2 in Hall.
  destruct (parseInt16 (String c1 (String c2 ""))); [discriminate|].
  apply Z.eqb_eq in Hall. by subst.
Qed.

Lemma substring_skip (pre t : string) (k : nat) :
  String.substring (String.length pre) k (pre +:+ t) = String.substring 0 k t.
Proof. induction pre as [|c pre IH]; [reflexivity | exact IH]. Qed.

Lemma substring_whole (t : string) : String.substring 0 (String.length t) t = t.
Proof. induction t as [|c t IH]; [reflexivity|]. exact (f_equal (String c) IH). Qed.

Lemma append_assoc (a b c : string) : (a +:+ b) +:+ c = a +:+ (b +:+ c).
Proof. induction a as [|x a IH]; [reflexivity|]. exact (f_equal (String x) IH). Qed.

Lemma append_empty_r (a : string) : a +:+ "" = a.
Proof. induction a as [|x a IH]; [reflexivity|]. exact (f_equal (String x) IH). Qed.

Lemma length_append (a b : string) :
  String.length (a +:+ b) = (String.length a + String.length b)%nat.
Proof. induction a as [|x a IH]; [reflexivity|]. exact (f_equal S IH). Qed.

Lemma all_hex_cons (c : ascii) (s : string) :
  all_hex (String c s) <-> is_Some (hex_digit c) /\ all_hex s.
Proof.
  unfold all_hex. cbn [list_ascii_of_string]. split.
  - inversion 1; auto.
  - intros []. by constructor.
Qed.

Lemma all_hex_append (a b : string) : all_hex a -> all_hex b -> all_hex (a +:+ b).
Proof.
  induction a as [|x a IH]; [auto|].
  change (String x a +:+ b) with (String x (a +:+ b)). rewrite !all_hex_cons.
  intros [Hx Ha] Hb. auto.
Qed.

(** The loop of [unhexlify] over a string of digit pairs, started anywhere
    in the string. *)
Lemma unhexlify_loop (n : nat) :
  forall (s pre : string) (acc : list Z),
    String.length s = (2 * n)%nat -> all_hex s ->
    for_loop n (Z.of_nat (String.length pre)) 2
      (fun i (bytes : list Z) =>
         (bytes ++ [to_uint8 (parseInt16 (substr (pre +:+ s) (Z.to_nat i) 2))])%list)
      acc
    = (acc ++ bytes_of_pairs s)%list.
Proof.
  induction n as [|n IH]; intros s pre acc Hlen Hhex.
  - destruct s; [|discriminate]. cbn. by rewrite app_nil_r.
  - destruct s as [|c1 [|c2 r]]; [cbn in Hlen; lia | cbn in Hlen; lia |].
    apply all_hex_cons in Hhex as [[d1 H1] Hhex].
    apply all_hex_cons in Hhex as [[d2 H2] Hhex].
    cbn [for_loop bytes_of_pairs]. rewrite H1, H2.
    assert (Hsub : substr (pre +:+ String c1 (String c2 r)) (String.length pre) 2
                   = String c1 (String c2 "")).
    { unfold substr. rewrite substring_skip. by destruct r. }
    rewrite Nat2Z.id, Hsub.
    rewrite (parseInt16_pair _ _ _ _ H1 H2). cbn [to_uint8].
    pose proof (hex_digit_range _ _ H1). pose proof (hex_digit_range _ _ H2).
    rewrite Z.mod_small by lia.
    specialize (IH r (pre +:+ String c1 (String c2 "")) (acc ++ [16 * d1 + d2])%list).
    rewrite length_append, append_assoc in IH. cbn [String.length] in IH.
    change (String c1 (String c2 "") +:+ r) with (String c1 (String c2 r)) in IH.
    replace (Z.of_nat (String.length pre) + 2)
      with (Z.of_nat (String.length pre + 2)) by lia.
    rewrite IH; [|cbn in Hlen; lia | exact Hhex].
    by rewrite <- app_assoc.
Qed.

(** [unhexlify] on a string of digit pairs. *)
Lemma unhexlify_pairs (s : string) (n : nat) :
  String.length s = (2 * n)%nat -> all_hex s ->
  unhexlify s = Normal (bytes_of_pairs s).
Proof.
  intros Hlen Hhex. unfold unhexlify, strlen. rewrite Hlen.
  replace (Z.of_nat (2 * n) mod 2) with 0
    by (rewrite Nat2Z.inj_mul, Z.mul_comm, Z.mod_mul; lia).
  cbn [Z.eqb]. f_equal.
  replace (2 * n / 2)%nat with n by (rewrite Nat.mul_comm, Nat.div_mul; lia).
  exact (unhexlify_loop n s "" [] Hlen Hhex).
Qed.

(** [hex] of a byte is two hexadecimal digits that write the byte. *)
Lemma hex_shape (b : Z) :
  0 <= b < 256 ->
  exists c1 c2 d1 d2,
    hex b = String c1 (String c2 "")
    /\ hex_digit c1 = Some d1 /\ hex_digit c2 = Some d2 /\ 16 * d1 + d2 = b.
Proof.
  intros Hb.
  pose proof (byte_cases
    (fun b => match hex b with
              | String c1 (String c2 EmptyString) =>
                  match hex_digit c1, hex_digit c2 with
                  | Some d1, Some d2 => 16 * d1 + d2 =? b
                  | _, _ => false
                  end
              | _ => false
              end) ltac:(vm_compute; reflexivity) b Hb) as H.
  cbv beta in H.
  destruct (hex b) as [|c1 [|c2 [|]]]; try discriminate.
  destruct (hex_digit c1) as [d1|] eqn:H1; [|discriminate].
  destruct (hex_digit c2) as [d2|] eqn:H2; [|discriminate].
  apply Z.eqb_eq in H. by exists c1, c2, d1, d2.
Qed.

Lemma concat_cons (h : string) (l : list string) :
  String.concat "" (h :: l) = h +:+ String.concat "" l.
Proof. destruct l; [symmetry; apply append_empty_r | reflexivity]. Qed.

Lemma hexlify_cons (b : Z) (bs : list Z) : hexlify (b :: bs) = hex b +:+ hexlify bs.
Proof. apply concat_cons. Qed.

Lemma hexlify_pairs (bs : list Z) :
  Forall byte_range bs ->
  String.length (hexlify bs) = (2 * length bs)%nat
  /\ all_hex (hexlify bs)
  /\ bytes_of_pairs (hexlify bs) = bs.
Proof.
  induction 1 as [|b bs Hb _ (IHlen & IHhex & IHbytes)].
  - repeat split. constructor.
  - destruct (hex_shape b Hb) as (c1 & c2 & d1 & d2 & Hhex & H1 & H2 & Hv).
    rewrite hexlify_cons, Hhex.
    change (String c1 (String c2 "") +:+ hexlify bs)
      with (String c1 (String c2 (hexlify bs))).
    split; [cbn [String.length length]; lia|]. split.
    + apply all_hex_cons. split; [eauto|]. apply all_hex_cons. split; [eauto|]. done.
    + cbn [bytes_of_pairs]. rewrite H1, H2, IHbytes, Hv. reflexivity.
Qed.

(** X1: [unhexlify(hexlify(bytes))] gives back [bytes], for every array of
    bytes. *)
Theorem unhexlify_hexlify (bytes : list Z) (H : Forall byte_range bytes) :
  unhexlify (hexlify bytes) = Normal bytes.
Proof.
  destruct (hexlify_pairs bytes H) as (Hlen & Hhex & Hbytes).
  rewrite (unhexlify_pairs _ _ Hlen Hhex), Hbytes. reflexivity.
Qed.

Lemma unhexlify_hexlify_witness :
  hexlify [0; 171; 255] = "00abff" /\ unhexlify "00abff" = Normal [0; 171; 255].
Proof.
  split; [reflexivity|].
  change "00abff" with (hexlify [0; 171; 255]).
  apply unhexlify_hexlify. repeat constructor; lia.
Defined.

(** X2: [buf2hex] and [hexlify] write the same string for every array of
    bytes. *)
Theorem buf2hex_is_hexlify (buffer : list Z) (H : Forall byte_range buffer) :
  buf2hex buffer = hexlify buffer.
Proof.
  unfold buf2hex, hexlify. f_equal.
  induction H as [|b bs Hb _ IH]; [reflexivity|]. cbn [map]. f_equal; [|exact IH].
  pose proof (byte_cases
    (fun b => String.eqb (substr_last ("00" +:+ toString16 (Num b)) 2) (hex b))
    ltac:(vm_compute; reflexivity) b Hb) as Heq.
  by apply String.eqb_eq in Heq.
Qed.

Lemma buf2hex_is_hexlify_witness : buf2hex [7; 200] = hexlify [7; 200].
Proof. apply buf2hex_is_hexlify. repeat constructor; lia. Defined.

Lemma bytes_copy_u8x8 (x : list Z) : length x = 8%nat -> bytes_copy x = x.
Proof.
  intros Hx.
  destruct x as [|x0 [|x1 [|x2 [|x3 [|x4 [|x5 [|x6 [|x7 [|]]]]]]]]];
    try discriminate. reflexivity.
Qed.

(** The ['string'] arm of the constructor on ['0x'] followed by eight digit
    pairs. *)
Lemma from_string_0x_pairs (h : string) (bs : list Z) :
  String.length h = 16%nat -> all_hex h -> bytes_of_pairs h = bs ->
  length bs = 8%nat ->
  from_string (repeat 0 8) ("0x" +:+ h) = Normal (map (fun x => x mod 256) (rev bs)).
Proof.
  intros Hlen Hhex Hbytes Hbs. unfold from_string.
  assert (H0x : substr ("0x" +:+ h) 0 2 = "0x") by (by destruct h).
  rewrite H0x. cbn [String.eqb Ascii.eqb Bool.eqb].
  assert (Hrest : substr_from ("0x" +:+ h) 2 = h).
  { unfold substr_from. change ("0x" +:+ h) with (String "0" (String "x" h)).
    cbn [String.length Nat.sub String.substring].
    rewrite Nat.sub_0_r. apply substring_whole. }
  rewrite Hrest. unfold strlen at 1. rewrite Hlen. cbn [Z.of_nat Z.modulo Z.eqb].
  change (Z.of_nat 16 mod 2 =? 1) with false. cbv iota.
  rewrite (unhexlify_pairs h 8 Hlen Hhex), Hbytes. cbn [cbind].
  unfold u8_set. rewrite repeat_length, length_rev, Hbs.
  cbn [Nat.ltb Nat.leb drop repeat]. by rewrite app_nil_r.
Qed.

(** X3: the constructor reads back what [toString] writes:
    [new Int64(x.toString())] has the bytes of [x]. *)
Theorem new_Int64_of_toString (x : list Z) (H : is_u8x8 x) :
  new_Int64 [JString (toString x)] = Normal x.
Proof.
  destruct H as [Hlen Hrange].
  assert (Hrev : Forall byte_range (rev x)) by (by apply Forall_rev).
  destruct (hexlify_pairs (rev x) Hrev) as (Hl & Hhex & Hbytes).
  rewrite length_rev, Hlen in Hl.
  unfold toString. rewrite (bytes_copy_u8x8 x Hlen).
  unfold new_Int64. cbn [length Nat.ltb Nat.leb Nat.eqb orb nth cbind].
  rewrite (from_string_0x_pairs _ (rev x) Hl Hhex Hbytes)
    by (by rewrite length_rev).
  rewrite rev_involutive. f_equal.
  clear -Hrange. induction Hrange as [|b l Hb _ IH]; [reflexivity|].
  cbn [map]. rewrite IH, Z.mod_small by lia. reflexivity.
Qed.

Lemma new_Int64_of_toString_witness :
  toString [239; 190; 173; 222; 0; 0; 0; 128] = "0x80000000deadbeef"
  /\ new_Int64 [JString "0x80000000deadbeef"]
     = Normal [239; 190; 173; 222; 0; 0; 0; 128].
Proof.
  split; [reflexivity|].
  change "0x80000000deadbeef" with (toString [239; 190; 173; 222; 0; 0; 0; 128]).
  apply new_Int64_of_toString. split; [reflexivity | repeat constructor; lia].
Defined.

(** **** The number a string of digits writes *)

Lemma hex_prefix_all_hex (s : string) :
  all_hex s ->
  forall acc seen,
    hex_prefix s acc seen
    = (acc * 16 ^ Z.of_nat (String.length s) + hex_value s,
       match s with EmptyString => seen | String _ _ => true end).
Proof.
  unfold hex_value.
  induction s as [|c s IH]; intros Hs acc seen.
  - cbn. f_equal. lia.
  - apply all_hex_cons in Hs as [[d Hd] Hs]. cbn [hex_prefix]. rewrite Hd.
    rewrite (IH Hs (16 * acc + d) true), (IH Hs (16 * 0 + d) true).
    cbn [fst String.length]. rewrite Nat2Z.inj_succ, Z.pow_succ_r by lia.
    f_equal; [lia|]. by destruct s.
Qed.

Lemma hex_value_cons (c : ascii) (d : Z) (s : string) :
  hex_digit c = Some d -> all_hex s ->
  hex_value (String c s) = d * 16 ^ Z.of_nat (String.length s) + hex_value s.
Proof.
  intros Hd Hs. unfold hex_value at 1. cbn [hex_prefix]. rewrite Hd.
  rewrite (hex_prefix_all_hex s Hs). cbn [fst]. lia.
Qed.

Lemma hex_value_bounds (s : string) :
  all_hex s -> 0 <= hex_value s < 16 ^ Z.of_nat (String.length s).
Proof.
  induction s as [|c s IH]; intros Hs; [cbn; lia|].
  apply all_hex_cons in Hs as [[d Hd] Hs].
  rewrite (hex_value_cons c d s Hd Hs). cbn [String.length].
  rewrite Nat2Z.inj_succ, Z.pow_succ_r by lia.
  pose proof (hex_digit_range c d Hd). specialize (IH Hs). nia.
Qed.

Lemma hex_value_append (a b : string) :
  all_hex a -> all_hex b ->
  hex_value (a +:+ b)
  = hex_value a * 16 ^ Z.of_nat (String.length b) + hex_value b.
Proof.
  induction a as [|c a IH]; intros Ha Hb.
  { change ("" +:+ b) with b. change (hex_value "") with 0. lia. }
  apply all_hex_cons in Ha as [[d Hd] Ha].
  change (String c a +:+ b) with (String c (a +:+ b)).
  rewrite (hex_value_cons c d _ Hd (all_hex_append a b Ha Hb)),
    (hex_value_cons c d a Hd Ha), (IH Ha Hb), length_append, Nat2Z.inj_add,
    Z.pow_add_r by lia.
  lia.
Qed.

(** The bytes [unhexlify] reads from digit pairs, taken as a big-endian
    number, are the number the string writes. *)
Lemma bytes_of_pairs_value (n : nat) :
  forall s : string,
    String.length s = (2 * n)%nat -> all_hex s ->
    length (bytes_of_pairs s) = n
    /\ Forall byte_range (bytes_of_pairs s)
    /\ le_value (rev (bytes_of_pairs s)) = hex_value s.
Proof.
  induction n as [|n IH]; intros s Hlen Hs.
  - destruct s; [|discriminate]. repeat split. constructor.
  - destruct s as [|c1 [|c2 r]]; [cbn in Hlen; lia | cbn in Hlen; lia |].
    pose proof Hs as Hs'.
    apply all_hex_cons in Hs as [[d1 H1] Hs].
    pose proof Hs as Hs1.
    apply all_hex_cons in Hs as [[d2 H2] Hs].
    assert (Hr : String.length r = (2 * n)%nat) by (cbn in Hlen; lia).
    destruct (IH r Hr Hs) as (IHlen & IHrange & IHvalue).
    pose proof (hex_digit_range _ _ H1). pose proof (hex_digit_range _ _ H2).
    cbn [bytes_of_pairs]. rewrite H1, H2. split; [cbn; lia|]. split.
    + constructor; [lia | exact IHrange].
    + cbn [rev]. rewrite le_value_snoc, length_rev, IHlen, IHvalue.
      rewrite (hex_value_cons c1 d1 _ H1 Hs1), (hex_value_cons c2 d2 _ H2 Hs).
      cbn [String.length]. rewrite Hr, Nat2Z.inj_succ, Z.pow_succ_r by lia.
      replace (16 ^ Z.of_nat (2 * n)) with (256 ^ Z.of_nat n).
      * lia.
      * rewrite Nat2Z.inj_mul, Z.pow_mul_r by lia. reflexivity.
Qed.

Lemma le_value_zeros (l : list Z) (k : nat) :
  le_value (l ++ repeat 0 k) = le_value l.
Proof.
  induction l as [|b l IH]; cbn [app le_value].
  - induction k as [|k IHk]; [reflexivity|]. cbn [repeat le_value]. lia.
  - by rewrite IH.
Qed.

(** The ['string'] arm of the constructor on ['0x'] followed by at most
    sixteen hexadecimal digits: the Int64 holds the number written. *)
Lemma from_string_0x_digits (h : string) :
  all_hex h -> (1 <= String.length h <= 16)%nat ->
  exists b, from_string (repeat 0 8) ("0x" +:+ h) = Normal b
            /\ is_u8x8 b /\ le_value b = hex_value h.
Proof.
  intros Hhex Hlen. unfold from_string.
  assert (H0x : substr ("0x" +:+ h) 0 2 = "0x") by (by destruct h).
  rewrite H0x. cbn [String.eqb Ascii.eqb Bool.eqb].
  assert (Hrest : substr_from ("0x" +:+ h) 2 = h).
  { unfold substr_from. change ("0x" +:+ h) with (String "0" (String "x" h)).
    cbn [String.length Nat.sub String.substring].
    rewrite Nat.sub_0_r. apply substring_whole. }
  rewrite Hrest.
  assert (Hpad : exists (h' : string) (m : nat),
            (if strlen h mod 2 =? 1 then String "0" h else h) = h'
            /\ String.length h' = (2 * m)%nat /\ (m <= 8)%nat
            /\ all_hex h' /\ hex_value h' = hex_value h).
  { unfold strlen.
    destruct (Nat.Even_or_Odd (String.length h)) as [[j Hj]|[j Hj]]; rewrite Hj.
    - replace (Z.of_nat (2 * j) mod 2) with 0
        by (rewrite Nat2Z.inj_mul, Z.mul_comm, Z.mod_mul; lia).
      exists h, j. repeat split; auto; lia.
    - replace (Z.of_nat (2 * j + 1) mod 2) with 1.
      2:{ rewrite Nat2Z.inj_add, Nat2Z.inj_mul, Z.add_comm, Z.mul_comm,
            Z.mod_add by lia. reflexivity. }
      exists (String "0" h), (S j). cbn [Z.eqb Pos.eqb String.length].
      split; [reflexivity|]. split; [lia|]. split; [lia|]. split.
      + apply all_hex_cons. split; [by exists 0 | exact Hhex].
      + rewrite (hex_value_cons "0" 0 h) by (reflexivity || exact Hhex). lia. }
  destruct Hpad as (h' & m & -> & Hlen' & Hm & Hhex' & Hvalue).
  destruct (bytes_of_pairs_value m h' Hlen' Hhex') as (Hbl & Hbr & Hbv).
  rewrite (unhexlify_pairs h' m Hlen' Hhex'). cbn [cbind].
  unfold u8_set. rewrite repeat_length, length_rev, Hbl.
  destruct (Nat.ltb_spec 8 m) as [|_]; [lia|].
  eexists. split; [reflexivity|].
  assert (Hwrap : map (fun x => x mod 256) (rev (bytes_of_pairs h'))
                  = rev (bytes_of_pairs h')).
  { apply Forall_rev in Hbr. clear -Hbr.
    induction Hbr as [|b l Hb _ IH]; [reflexivity|].
    cbn [map]. rewrite IH, Z.mod_small by lia. reflexivity. }
  rewrite Hwrap.
  assert (Hdrop : drop m (repeat 0 8) = repeat 0 (8 - m)).
  { clear -Hm. do 9 (destruct m as [|m]; [reflexivity|]). lia. }
  rewrite Hdrop. split; [split|].
  - rewrite length_app, length_rev, Hbl, repeat_length. lia.
  - apply Forall_app. split; [by apply Forall_rev|].
    apply Forall_forall. intros x Hx. apply list_elem_of_In, repeat_spec in Hx. lia.
  - rewrite le_value_zeros, Hbv. exact Hvalue.
Qed.

(** **** The digits [toString(16)] writes *)

(** [Raw.of_pos p rest] puts the hexadecimal digits of [p] before [rest]. *)
Lemma of_pos_digits (n : nat) :
  forall (p : positive) (rest : string),
    (Pos.to_nat p < n)%nat -> all_hex rest ->
    all_hex (HexString.Raw.of_pos p rest)
    /\ hex_value (HexString.Raw.of_pos p rest)
       = Z.pos p * 16 ^ Z.of_nat (String.length rest) + hex_value rest
    /\ (forall k : nat,
          Z.pos p < 16 ^ Z.of_nat k ->
          (String.length (HexString.Raw.of_pos p rest)
           <= k + String.length rest)%nat).
Proof.
  induction n as [|n IH]; intros p rest Hn Hrest; [lia|].
  assert (Hbase : forall (c : ascii) (d : Z),
            hex_digit c = Some d -> d = Z.pos p ->
            HexString.Raw.of_pos p rest = String c rest ->
            all_hex (HexString.Raw.of_pos p rest)
            /\ hex_value (HexString.Raw.of_pos p rest)
               = Z.pos p * 16 ^ Z.of_nat (String.length rest) + hex_value rest
            /\ (forall k : nat,
                  Z.pos p < 16 ^ Z.of_nat k ->
                  (String.length (HexString.Raw.of_pos p rest)
                   <= k + String.length rest)%nat)).
  { intros c d Hc Hd ->. split; [apply all_hex_cons; eauto|].
    split; [rewrite (hex_value_cons c d rest Hc Hrest); lia|].
    intros [|k] Hk; [cbn in Hk; lia | cbn; lia]. }
  assert (Hstep : forall (q : positive) (c : ascii) (d : Z),
            hex_digit c = Some d -> Z.pos p = 16 * Z.pos q + d ->
            HexString.Raw.of_pos p rest = HexString.Raw.of_pos q (String c rest) ->
            all_hex (HexString.Raw.of_pos p rest)
            /\ hex_value (HexString.Raw.of_pos p rest)
               = Z.pos p * 16 ^ Z.of_nat (String.length rest) + hex_value rest
            /\ (forall k : nat,
                  Z.pos p < 16 ^ Z.of_nat k ->
                  (String.length (HexString.Raw.of_pos p rest)
                   <= k + String.length rest)%nat)).
  { intros q c d Hc Hp ->.
    pose proof (hex_digit_range c d Hc) as Hd.
    destruct (IH q (String c rest)) as (Hall & Hval & Hlen).
    { lia. }
    { apply all_hex_cons; eauto. }
    split; [exact Hall|]. split.
    - rewrite Hval, (hex_value_cons c d rest Hc Hrest), Hp.
      cbn [String.length]. rewrite Nat2Z.inj_succ, Z.pow_succ_r by lia. lia.
    - intros [|k] Hk; [cbn in Hk; lia|].
      rewrite Nat2Z.inj_succ, Z.pow_succ_r in Hk by lia.
      specialize (Hlen k ltac:(lia)). cbn [String.length] in Hlen. lia. }
  do 4 try destruct p as [p|p|];
    first [ eapply Hbase; [| |reflexivity]; [reflexivity | lia]
          | eapply Hstep; [| |reflexivity]; [reflexivity | lia] ].
Qed.

Lemma toString16_digits (n : Z) :
  0 <= n ->
  all_hex (toString16 (Num n))
  /\ hex_value (toString16 (Num n)) = n
  /\ (1 <= String.length (toString16 (Num n)))%nat
  /\ (forall k : nat,
        (1 <= k)%nat -> n < 16 ^ Z.of_nat k ->
        (String.length (toString16 (Num n)) <= k)%nat).
Proof.
  intros Hn. destruct n as [|p|p]; [|clear Hn|lia].
  - cbn [toString16]. split; [apply all_hex_cons; split; [by exists 0 | constructor]|].
    split; [reflexivity|]. split; [cbn; lia|]. intros k Hk _. cbn. lia.
  - cbn [toString16].
    destruct (of_pos_digits (S (Pos.to_nat p)) p "") as (Hall & Hval & Hlen);
      [lia | constructor |].
    split; [exact Hall|]. split; [rewrite Hval; cbn; lia|]. split.
    + pose proof (hex_value_bounds _ Hall) as Hb. rewrite Hval in Hb.
      destruct (HexString.Raw.of_pos p "") as [|c r]; [cbn in Hb; lia | cbn; lia].
    + intros k _ Hk. specialize (Hlen k Hk). cbn in Hlen. lia.
Qed.

(** X4: [new Int64(n)] for an integer [0 <= n < 2^53], the range in which
    every integer is a number, returns the Int64 whose value is [n]. *)
Theorem new_Int64_of_number (n : Z) (H : 0 <= n < 2 ^ 53) :
  exists b, new_Int64 [JNumber (Num n)] = Normal b
            /\ is_u8x8 b /\ le_value b = n.
Proof.
  destruct (toString16_digits n ltac:(lia)) as (Hall & Hval & Hlen1 & Hlen).
  specialize (Hlen 16%nat ltac:(lia) ltac:(change (16 ^ Z.of_nat 16) with (2 ^ 64); lia)).
  destruct (from_string_0x_digits (toString16 (Num n)) Hall ltac:(lia))
    as (b & Hb & Hwf & Hv).
  exists b. split; [|split; [exact Hwf | by rewrite Hv]].
  unfold new_Int64. cbn [length Nat.ltb Nat.leb Nat.eqb orb nth cbind].
  exact Hb.
Qed.

Lemma new_Int64_of_number_witness :
  exists b, new_Int64 [JNumber (Num 0x1000000000000)] = Normal b
            /\ is_u8x8 b /\ le_value b = 0x1000000000000.
Proof. apply new_Int64_of_number. lia. Defined.

(** The decorator makes an Int64 of a number argument before the method
    runs. *)
Lemma operation_number (name : string)
    (f : list Z -> list (list Z) -> completion (list Z)) (this : list Z) (n : Z) :
  0 <= n < 2 ^ 53 ->
  exists b, is_u8x8 b /\ le_value b = n
            /\ operation name f 1 this [JNumber (Num n)]
               = operation name f 1 this [JInt64 b].
Proof.
  intros H.
  destruct (toString16_digits n ltac:(lia)) as (Hall & Hval & Hlen1 & Hlen).
  specialize (Hlen 16%nat ltac:(lia) ltac:(change (16 ^ Z.of_nat 16) with (2 ^ 64); lia)).
  destruct (from_string_0x_digits (toString16 (Num n)) Hall ltac:(lia))
    as (b & Hb & Hwf & Hv).
  exists b. split; [exact Hwf|]. split; [by rewrite Hv|].
  unfold operation. cbn [length Nat.eqb negb cmapM cbind].
  unfold new_Int64. cbn [length Nat.ltb Nat.leb Nat.eqb orb nth cbind].
  rewrite Hb. reflexivity.
Qed.

(** X5: a number given to [add] or [sub] is first made an Int64: for an
    integer [0 <= n < 2^53], the range in which every integer is a
    number, [a.add(n)] and [a.sub(n)] return the Int64s of
    [(a + n) mod 2^64] and [(a - n) mod 2^64]. *)
Theorem add_sub_of_number (a : list Z) (n : Z)
    (Ha : is_u8x8 a) (Hn : 0 <= n < 2 ^ 53) :
  (exists r, add a [JNumber (Num n)] = Normal r /\ is_u8x8 r
             /\ le_value r = (le_value a + n) mod 2 ^ 64)
  /\ (exists r, sub a [JNumber (Num n)] = Normal r /\ is_u8x8 r
                /\ le_value r = (le_value a - n) mod 2 ^ 64).
Proof.
  split.
  - destruct (operation_number "add" add_body a n Hn) as (b & Hwf & Hv & Heq).
    destruct (add_value a b Ha Hwf) as (r & Hr & Hwr & Hvr).
    exists r. split; [|split; [exact Hwr | by rewrite Hvr, Hv]].
    unfold add in *. by rewrite Heq.
  - destruct (operation_number "sub" sub_body a n Hn) as (b & Hwf & Hv & Heq).
    destruct (sub_value a b Ha Hwf) as (r & Hr & Hwr & Hvr).
    exists r. split; [|split; [exact Hwr | by rewrite Hvr, Hv]].
    unfold sub in *. by rewrite Heq.
Qed.

Lemma add_sub_of_number_witness :
  exists r, sub [0; 0; 0; 0; 0; 0; 1; 0] [JNumber (Num 0x1000000000000)] = Normal r
            /\ le_value r = 0.
Proof.
  assert (Ha : is_u8x8 [0; 0; 0; 0; 0; 0; 1; 0])
    by (split; [reflexivity | repeat constructor; lia]).
  assert (Hn : 0 <= 0x1000000000000 < 2 ^ 53) by lia.
  destruct (add_sub_of_number _ _ Ha Hn) as (_ & r & Hr & _ & Hv).
  exists r. split; [exact Hr|]. rewrite Hv. reflexivity.
Defined.

(** **** The two-argument constructor *)

(** The padding loop of the two-argument form only puts zeros in front;
    on [L] digits, one to eight, it stops when the zeros added so far and
    the digits still missing meet, so the result has [L + (9 - L) / 2]
    characters. *)
Lemma pad_low_zeros (fuel : nat) :
  forall (i : Z) (s : string),
    all_hex s ->
    all_hex (pad_low fuel i s) /\ hex_value (pad_low fuel i s) = hex_value s.
Proof.
  induction fuel as [|fuel IH]; intros i s Hs; [by split|].
  cbn [pad_low]. destruct (i <? 8 - strlen s); [|by split].
  assert (H0 : all_hex (String "0" s))
    by (apply all_hex_cons; split; [by exists 0 | exact Hs]).
  destruct (IH (i + 1) (String "0" s) H0) as [Hall Hval].
  split; [exact Hall|]. rewrite Hval.
  rewrite (hex_value_cons "0" 0 s) by (reflexivity || exact Hs). lia.
Qed.

Lemma pad_low_length (s : string) :
  (1 <= String.length s <= 8)%nat ->
  String.length (pad_low 8 0 s)
  = (String.length s + (9 - String.length s) / 2)%nat.
Proof.
  intros Hlen.
  destruct s as [|c1 [|c2 [|c3 [|c4 [|c5 [|c6 [|c7 [|c8 [|c9 s]]]]]]]]];
    cbn [String.length] in Hlen; try lia; reflexivity.
Qed.

(** X6: [new Int64(low, high)] for two numbers in the uint32 range always
    returns, and its value is [high * 16^m + low], where [m] is the length
    the padding loop leaves the digits of [low] with.  From [low =
    0x1000000] on that is [high * 2^32 + low]; for a smaller [low] the
    padding stops short of eight digits and, with [high] not 0, the value
    is smaller than [high * 2^32 + low]. *)
Theorem new_Int64_of_halves (low high : Z)
    (Hlow : 0 <= low <= 0xffffffff) (Hhigh : 0 <= high <= 0xffffffff) :
  exists (b : list Z) (m : nat),
    new_Int64 [JNumber (Num low); JNumber (Num high)] = Normal b
    /\ is_u8x8 b
    /\ m = String.length (pad_low 8 0 (toString16 (Num low)))
    /\ le_value b = high * 16 ^ Z.of_nat m + low
    /\ (0x1000000 <= low -> le_value b = high * 2 ^ 32 + low)
    /\ (low < 0x1000000 -> 0 < high -> le_value b < high * 2 ^ 32 + low).
Proof.
  destruct (toString16_digits low ltac:(lia)) as (Hl_all & Hl_val & Hl_1 & Hl_len).
  destruct (toString16_digits high ltac:(lia)) as (Hh_all & Hh_val & Hh_1 & Hh_len).
  pose proof (Hl_len 8%nat ltac:(lia) ltac:(cbn; lia)) as Hl_8.
  pose proof (Hh_len 8%nat ltac:(lia) ltac:(cbn; lia)) as Hh_8.
  destruct (pad_low_zeros 8 0 _ Hl_all) as (Hp_all & Hp_val).
  pose proof (pad_low_length _ (conj Hl_1 Hl_8)) as Hp_len.
  pose proof (hex_value_bounds _ Hl_all) as Hl_bound. rewrite Hl_val in Hl_bound.
  set (digits := toString16 (Num low)) in *.
  set (padded := pad_low 8 0 digits) in *.
  set (L := String.length digits) in *.
  assert (HL : (String.length padded <= 8)%nat
               /\ (7 <= L -> String.length padded = 8)%nat
               /\ (L <= 6 -> String.length padded <= 7)%nat).
  { rewrite Hp_len. clearbody L.
    do 9 (destruct L as [|L]; [cbn; lia|]). lia. }
  destruct HL as (Hm8 & Hm_full & Hm_short).
  assert (Hall : all_hex (toString16 (Num high) +:+ padded))
    by (by apply all_hex_append).
  destruct (from_string_0x_digits _ Hall) as (b & Hb & Hwf & Hv).
  { rewrite length_append. lia. }
  rewrite hex_value_append, Hh_val, Hp_val, Hl_val in Hv by assumption.
  exists b, (String.length padded).
  split.
  { unfold new_Int64. cbn [length Nat.ltb Nat.leb Nat.eqb orb nth].
    unfold num_gt, num_lt.
    destruct (Z.ltb_spec 0xffffffff low); [lia|].
    destruct (Z.ltb_spec 0xffffffff high); [lia|].
    destruct (Z.ltb_spec low 0); [lia|].
    destruct (Z.ltb_spec high 0); [lia|].
    cbn [orb cbind]. exact Hb. }
  split; [exact Hwf|]. split; [reflexivity|]. split; [exact Hv|]. split.
  - intros Hbig. rewrite Hv.
    assert (7 <= L)%nat as H7.
    { destruct (Nat.le_gt_cases 7 L) as [|Hs]; [assumption|].
      assert (16 ^ Z.of_nat L <= 16 ^ 6) by (apply Z.pow_le_mono_r; lia). lia. }
    rewrite (Hm_full H7). reflexivity.
  - intros Hsmall Hpos. rewrite Hv.
    assert (L <= 6)%nat as H6.
    { apply (Hl_len 6%nat); [lia | cbn; lia]. }
    specialize (Hm_short H6).
    assert (16 ^ Z.of_nat (String.length padded) <= 16 ^ 7)
      by (apply Z.pow_le_mono_r; lia).
    nia.
Qed.

Lemma new_Int64_of_halves_witness :
  new_Int64 [JNumber (Num 1); JNumber (Num 1)] = Normal [1; 0; 16; 0; 0; 0; 0; 0]
  /\ exists b, new_Int64 [JNumber (Num 1); JNumber (Num 1)] = Normal b
               /\ le_value b < 1 * 2 ^ 32 + 1.
Proof.
  split; [reflexivity|].
  assert (H1 : 0 <= 1 <= 0xffffffff) by lia.
  destruct (new_Int64_of_halves 1 1 H1 H1) as (b & m & Hb & _ & _ & _ & _ & Hlt).
  exists b. split; [exact Hb|]. apply Hlt; lia.
Defined.

End Int64_strings.

(** * Comparison and the laws of Int64 arithmetic *)

Section Int64_laws.

Import Int64.

Local Abbreviation byte_range := (fun b : Z => 0 <= b < 256).

Lemma u8x8_words (a : list Z) :
  is_u8x8 a ->
  le_value a = low32 a + 2 ^ 32 * hi32 a
  /\ 0 <= low32 a < 2 ^ 32 /\ 0 <= hi32 a < 2 ^ 32.
Proof.
  intros [Hlen Hrange].
  destruct a as [|a0 [|a1 [|a2 [|a3 [|a4 [|a5 [|a6 [|a7 [|]]]]]]]]];
    try discriminate.
  repeat match goal with
         | H : Forall _ (_ :: _) |- _ => inversion H; clear H; subst
         end.
  unfold low32, hi32, uint32_at. cbn [Nat.mul Nat.add drop take firstn skipn le_value].
  lia.
Qed.

(** X7: [a.greater(b)] is the comparison of the two unsigned 64-bit
    values: it is true exactly when [a] is the larger. *)
Theorem greater_is_unsigned_gt (a b : list Z) (Ha : is_u8x8 a) (Hb : is_u8x8 b) :
  greater a (JInt64 b) = Normal (le_value b <? le_value a).
Proof.
  destruct (u8x8_words a Ha) as (Hva & Hla & Hha).
  destruct (u8x8_words b Hb) as (Hvb & Hlb & Hhb).
  unfold greater. cbn [cbind]. f_equal. rewrite Hva, Hvb.
  destruct (Z.ltb_spec (hi32 b) (hi32 a)).
  { symmetry. apply Z.ltb_lt. nia. }
  destruct (Z.eqb_spec (hi32 a) (hi32 b)) as [Heq|Hne].
  - rewrite Heq. destruct (Z.ltb_spec (low32 b) (low32 a)); symmetry;
      [apply Z.ltb_lt | apply Z.ltb_ge]; lia.
  - symmetry. apply Z.ltb_ge. nia.
Qed.

Lemma greater_is_unsigned_gt_witness :
  greater [0; 0; 0; 0; 1; 0; 0; 0] (JInt64 [255; 255; 255; 255; 0; 0; 0; 0])
  = Normal true.
Proof.
  assert (Ha : is_u8x8 [0; 0; 0; 0; 1; 0; 0; 0])
    by (split; [reflexivity | repeat constructor; lia]).
  assert (Hb : is_u8x8 [255; 255; 255; 255; 0; 0; 0; 0])
    by (split; [reflexivity | repeat constructor; lia]).
  rewrite (greater_is_unsigned_gt _ _ Ha Hb). reflexivity.
Defined.

(** X8: [add] is commutative and associative and [Int64.Zero] is neutral
    for it. *)
Theorem add_laws (a b c : list Z)
    (Ha : is_u8x8 a) (Hb : is_u8x8 b) (Hc : is_u8x8 c) :
  add a [JInt64 b] = add b [JInt64 a]
  /\ (x <-? add a [JInt64 b] ; add x [JInt64 c])
     = (y <-? add b [JInt64 c] ; add a [JInt64 y])
  /\ (zero <-? Zero ; add a [JInt64 zero]) = Normal a.
Proof.
  pose proof (le_value_bounds a (proj2 Ha)) as Hra. rewrite (proj1 Ha) in Hra.
  change (256 ^ Z.of_nat 8) with (2 ^ 64) in Hra.
  destruct (add_value a b Ha Hb) as (ab & Hab & Wab & Vab).
  destruct (add_value b a Hb Ha) as (ba & Hba & Wba & Vba).
  destruct (add_value b c Hb Hc) as (bc & Hbc & Wbc & Vbc).
  destruct (add_value ab c Wab Hc) as (l & Hl & Wl & Vl).
  destruct (add_value a bc Ha Wbc) as (r & Hr & Wr & Vr).
  split; [|split].
  - rewrite Hab, Hba. f_equal. apply u8x8_value_inj; auto.
    rewrite Vab, Vba. f_equal. lia.
  - rewrite Hab, Hbc. cbn [cbind]. rewrite Hl, Hr. f_equal.
    apply u8x8_value_inj; auto.
    rewrite Vl, Vr, Vab, Vbc, Zplus_mod_idemp_l, Zplus_mod_idemp_r.
    f_equal. lia.
  - rewrite Zero_value. cbn [cbind].
    assert (Wz : is_u8x8 [0; 0; 0; 0; 0; 0; 0; 0])
      by (split; [reflexivity | repeat constructor; lia]).
    destruct (add_value a _ Ha Wz) as (z & Hz & Wzz & Vz).
    rewrite Hz. f_equal. apply u8x8_value_inj; auto.
    rewrite Vz. cbn [le_value]. rewrite Z.mod_small; lia.
Qed.

Lemma add_laws_witness :
  let a := [255; 255; 255; 255; 255; 255; 255; 255] in
  let b := [1; 0; 0; 0; 0; 0; 0; 0] in
  let c := [0; 0; 0; 0; 0; 0; 0; 128] in
  add a [JInt64 b] = add b [JInt64 a]
  /\ (x <-? add a [JInt64 b] ; add x [JInt64 c])
     = (y <-? add b [JInt64 c] ; add a [JInt64 y]).
Proof.
  intros a b c.
  assert (Ha : is_u8x8 a) by (split; [reflexivity | repeat constructor; lia]).
  assert (Hb : is_u8x8 b) by (split; [reflexivity | repeat constructor; lia]).
  assert (Hc : is_u8x8 c) by (split; [reflexivity | repeat constructor; lia]).
  destruct (add_laws a b c Ha Hb Hc) as (H1 & H2 & _). by split.
Defined.

(** X9: subtracting is adding the negation, and negating twice gives the
    number back: [a.sub(b)] equals [a.add(b.neg())], and [a.neg().neg()]
    equals [a]. *)
Theorem sub_and_neg_laws (a b : list Z) (Ha : is_u8x8 a) (Hb : is_u8x8 b) :
  sub a [JInt64 b] = (n <-? neg b [] ; add a [JInt64 n])
  /\ (n <-? neg a [] ; neg n []) = Normal a.
Proof.
  pose proof (le_value_bounds a (proj2 Ha)) as Hra. rewrite (proj1 Ha) in Hra.
  change (256 ^ Z.of_nat 8) with (2 ^ 64) in Hra.
  destruct (sub_value a b Ha Hb) as (d & Hd & Wd & Vd).
  destruct (neg_value b Hb) as (nb & Hnb & Wnb & Vnb).
  destruct (add_value a nb Ha Wnb) as (r & Hr & Wr & Vr).
  destruct (neg_value a Ha) as (na & Hna & Wna & Vna).
  destruct (neg_value na Wna) as (nna & Hnna & Wnna & Vnna).
  split.
  - rewrite Hd, Hnb. cbn [cbind]. rewrite Hr. f_equal.
    apply u8x8_value_inj; auto.
    rewrite Vd, Vr, Vnb, Zplus_mod_idemp_r. f_equal; lia.
  - rewrite Hna. cbn [cbind]. rewrite Hnna. f_equal.
    apply u8x8_value_inj; auto.
    rewrite Vnna, Vna.
    destruct (Z.eq_dec (le_value a) 0) as [->|Hnz]; [reflexivity|].
    rewrite <- (Z.mod_unique_pos (- le_value a) (2 ^ 64) (-1)
                  (2 ^ 64 - le_value a)) by lia.
    symmetry. apply Z.mod_unique_pos with (q := -1); lia.
Qed.

Lemma sub_and_neg_laws_witness :
  let a := [0; 0; 0; 0; 0; 0; 0; 0] in
  let b := [1; 0; 0; 0; 0; 0; 0; 0] in
  sub a [JInt64 b] = Normal [255; 255; 255; 255; 255; 255; 255; 255]
  /\ sub a [JInt64 b] = (n <-? neg b [] ; add a [JInt64 n]).
Proof.
  intros a b.
  assert (Ha : is_u8x8 a) by (split; [reflexivity | repeat constructor; lia]).
  assert (Hb : is_u8x8 b) by (split; [reflexivity | repeat constructor; lia]).
  split; [reflexivity|]. exact (proj1 (sub_and_neg_laws a b Ha Hb)).
Defined.

(** X10: [assignAdd] leaves in the object the bytes [add] returns, also
    when the argument is the object itself. *)
Theorem assignAdd_is_add (a b : list Z)
    (Ha : length a = 8%nat) (Hb : length b = 8%nat) :
  assignAdd a [Other (JInt64 b)] = add a [JInt64 b]
  /\ assignAdd a [This] = add a [JInt64 a].
Proof.
  destruct a as [|a0 [|a1 [|a2 [|a3 [|a4 [|a5 [|a6 [|a7 [|]]]]]]]]];
    try discriminate.
  destruct b as [|b0 [|b1 [|b2 [|b3 [|b4 [|b5 [|b6 [|b7 [|]]]]]]]]];
    try discriminate.
  split; reflexivity.
Qed.

Lemma assignAdd_is_add_witness :
  assignAdd [255; 255; 0; 0; 0; 0; 0; 128] [This]
  = Normal [254; 255; 1; 0; 0; 0; 0; 0]
  /\ assignAdd [255; 255; 0; 0; 0; 0; 0; 128] [This]
     = add [255; 255; 0; 0; 0; 0; 0; 128] [JInt64 [255; 255; 0; 0; 0; 0; 0; 128]].
Proof.
  split; [reflexivity|].
  exact (proj2 (assignAdd_is_add [255; 255; 0; 0; 0; 0; 0; 128]
                  [0; 0; 0; 0; 0; 0; 0; 0] eq_refl eq_refl)).
Defined.

(** X11: [a.equals(b)] is true exactly when the two Int64s have the same
    bytes. *)
Theorem equals_iff_same_bytes (a b : list Z)
    (Ha : length a = 8%nat) (Hb : length b = 8%nat) :
  equals a (JInt64 b) = Normal true <-> a = b.
Proof.
  split; [|intros ->; apply equals_same].
  destruct a as [|a0 [|a1 [|a2 [|a3 [|a4 [|a5 [|a6 [|a7 [|]]]]]]]]];
    try discriminate.
  destruct b as [|b0 [|b1 [|b2 [|b3 [|b4 [|b5 [|b6 [|b7 [|]]]]]]]]];
    try discriminate.
  unfold equals. cbn [cbind for_loop byteAt Z.to_nat Z.add Pos.add Pos.succ
                        Pos.to_nat Pos.iter_op Nat.add nth].
  intros [= H]. rewrite !andb_true_iff, !Z.eqb_eq in H.
  destruct H as [[[[[[[H0 H1] H2] H3] H4] H5] H6] H7].
  by subst.
Qed.

Lemma equals_iff_same_bytes_witness :
  equals [1; 2; 3; 4; 5; 6; 7; 8] (JInt64 [1; 2; 3; 4; 5; 6; 7; 9]) <> Normal true.
Proof.
  intros H.
  apply (equals_iff_same_bytes [1; 2; 3; 4; 5; 6; 7; 8] [1; 2; 3; 4; 5; 6; 7; 9]
           eq_refl eq_refl) in H.
  discriminate H.
Defined.

End Int64_laws.

(** * The conversions of Int64 to a number *)

Section Int64_conversions.

Import Int64.

Local Abbreviation byte_range := (fun b : Z => 0 <= b < 256).

Lemma map_mod_256 (l : list Z) :
  Forall byte_range l -> map (fun b => b mod 256) l = l.
Proof.
  induction 1 as [|b l Hb _ IH]; cbn [map]; [reflexivity|].
  rewrite IH, Z.mod_small by exact Hb. reflexivity.
Qed.

Lemma unpack_float64 (x : list Z) :
  is_u8x8 x -> unpack (Struct "float64") x = Normal x.
Proof.
  intros [Hlen Hrange]. cbn [Struct String.eqb Ascii.eqb Bool.eqb unpack].
  unfold unpack. cbn. rewrite Hlen. cbn. by rewrite map_mod_256.
Qed.

(** X18: [asDouble()] hands the eight bytes unchanged to the double it
    returns for every value below 0xfffe000000000000, and throws the
    RangeError for every other value. *)
Theorem asDouble_range (x : list Z) (H : is_u8x8 x) :
  asDouble x
  = if le_value x <? 0xfffe000000000000 then Normal x
    else Abrupt (RangeError "Can not be represented by a double").
Proof.
  unfold asDouble. rewrite (unpack_float64 x H).
  destruct H as [Hlen Hrange].
  destruct x as [|a0 [|a1 [|a2 [|a3 [|a4 [|a5 [|a6 [|a7 [|]]]]]]]]];
    try discriminate.
  repeat match goal with
         | H : Forall _ (_ :: _) |- _ => inversion H; clear H; subst
         end.
  change (byteAt [a0; a1; a2; a3; a4; a5; a6; a7] 7) with a7.
  change (byteAt [a0; a1; a2; a3; a4; a5; a6; a7] 6) with a6.
  cbn [le_value].
  destruct (Z.ltb_spec (a0 + 256 * (a1 + 256 * (a2 + 256 * (a3 + 256 * (a4 + 256 * (a5 + 256 * (a6 + 256 * (a7 + 256 * 0)))))))) 0xfffe000000000000);
    destruct (Z.eqb_spec a7 0xff); destruct (Z.eqb_spec a6 0xff);
    destruct (Z.eqb_spec a6 0xfe); cbn [andb orb]; try reflexivity; lia.
Qed.

Lemma asDouble_range_witness :
  asDouble [0; 0; 0; 0; 0; 0; 0xf0; 0x3f] = Normal [0; 0; 0; 0; 0; 0; 0xf0; 0x3f]
  /\ asDouble [1; 0; 0; 0; 0; 0; 0xfe; 0xff]
     = Abrupt (RangeError "Can not be represented by a double").
Proof.
  split.
  - rewrite asDouble_range; [reflexivity|].
    split; [reflexivity | repeat constructor; lia].
  - rewrite asDouble_range; [reflexivity|].
    split; [reflexivity | repeat constructor; lia].
Defined.

(** X19: [asInteger()] never returns.  [Struct] has no property [int64],
    so the call of [Struct.unpack] that should produce the result throws
    a TypeError; this is what happens on every value the guard lets
    through, those below 0x21000000000000. *)
Theorem asInteger_never_returns (page_has_progressx : bool) (this : list Z) :
  (exists e, asInteger page_has_progressx this = Abrupt e)
  /\ (is_u8x8 this -> le_value this < 0x21000000000000 ->
      exists msg, asInteger page_has_progressx this = Abrupt (TypeError msg)).
Proof.
  split.
  - unfold asInteger.
    destruct (negb (byteAt this 7 =? 0) || (0x20 <? byteAt this 6)).
    + destruct page_has_progressx; cbn; eauto.
    + cbn. eauto.
  - intros [Hlen Hrange] Hv.
    destruct this as [|a0 [|a1 [|a2 [|a3 [|a4 [|a5 [|a6 [|a7 [|]]]]]]]]];
      try discriminate.
    repeat match goal with
           | H : Forall _ (_ :: _) |- _ => inversion H; clear H; subst
           end.
    unfold asInteger.
    change (byteAt [a0; a1; a2; a3; a4; a5; a6; a7] 7) with a7.
    change (byteAt [a0; a1; a2; a3; a4; a5; a6; a7] 6) with a6.
    cbn [le_value] in Hv.
    destruct (Z.eqb_spec a7 0); [|lia].
    destruct (Z.ltb_spec 0x20 a6); [lia|].
    cbn. eauto.
Qed.

Lemma asInteger_never_returns_witness :
  exists msg, asInteger true [5; 0; 0; 0; 0; 0; 0; 0] = Abrupt (TypeError msg).
Proof.
  apply (proj2 (asInteger_never_returns true [5; 0; 0; 0; 0; 0; 0; 0])).
  - split; [reflexivity | repeat constructor; lia].
  - cbn. lia.
Defined.

(** X20: [asJSValue()] returns exactly on the range its comment gives,
    from 0x0001000000000000 up to but not including 0xffff000000000000,
    and the bit pattern of its result is then the value minus 2^48; on
    every other value it throws the RangeError. *)
Theorem asJSValue_range (x : list Z) (H : is_u8x8 x) :
  (0x1000000000000 <= le_value x < 0xffff000000000000 ->
   exists d, asJSValue x = Normal d /\ is_u8x8 d
             /\ le_value d = le_value x - 0x1000000000000)
  /\ (~ 0x1000000000000 <= le_value x < 0xffff000000000000 ->
      asJSValue x = Abrupt (RangeError "Can not be represented by a JSValue")).
Proof.
  assert (Hguard :
    ((byteAt x 7 =? 0) && (byteAt x 6 =? 0))
    || ((byteAt x 7 =? 0xff) && (byteAt x 6 =? 0xff))
    = negb ((0x1000000000000 <=? le_value x) && (le_value x <? 0xffff000000000000))).
  { destruct H as [Hlen Hrange].
    destruct x as [|a0 [|a1 [|a2 [|a3 [|a4 [|a5 [|a6 [|a7 [|]]]]]]]]];
      try discriminate.
    repeat match goal with
           | H : Forall _ (_ :: _) |- _ => inversion H; clear H; subst
           end.
    change (byteAt [a0; a1; a2; a3; a4; a5; a6; a7] 7) with a7.
    change (byteAt [a0; a1; a2; a3; a4; a5; a6; a7] 6) with a6.
    cbn [le_value].
    destruct (Z.eqb_spec a7 0); destruct (Z.eqb_spec a6 0);
      destruct (Z.eqb_spec a7 0xff); destruct (Z.eqb_spec a6 0xff);
      destruct (Z.leb_spec 0x1000000000000 (a0 + 256 * (a1 + 256 * (a2 + 256 * (a3 + 256 * (a4 + 256 * (a5 + 256 * (a6 + 256 * (a7 + 256 * 0)))))))));
      destruct (Z.ltb_spec (a0 + 256 * (a1 + 256 * (a2 + 256 * (a3 + 256 * (a4 + 256 * (a5 + 256 * (a6 + 256 * (a7 + 256 * 0)))))))) 0xffff000000000000);
      cbn [andb orb negb]; try reflexivity; lia. }
  unfold asJSValue. rewrite Hguard. split.
  - intros [Hlo Hhi].
    destruct (Z.leb_spec 0x1000000000000 (le_value x)); [|lia].
    destruct (Z.ltb_spec (le_value x) 0xffff000000000000); [|lia].
    cbn [andb negb].
    destruct (operation_number "sub" sub_body x 0x1000000000000 ltac:(lia))
      as (b & Hwf & Hv & Heq).
    destruct (sub_value x b H Hwf) as (d & Hd & Hwd & Hvd).
    assert (Hsub : sub x [JNumber (Num 0x1000000000000)] = Normal d).
    { unfold sub in *. by rewrite Heq. }
    rewrite Hsub. cbn [cbind].
    rewrite bytes_copy_u8x8 by apply Hwd. rewrite (unpack_float64 d Hwd).
    exists d. split; [reflexivity|]. split; [exact Hwd|].
    rewrite Hvd, Hv. apply Z.mod_small. lia.
  - intros Hout.
    destruct (Z.leb_spec 0x1000000000000 (le_value x));
      destruct (Z.ltb_spec (le_value x) 0xffff000000000000);
      cbn [andb negb]; try reflexivity; lia.
Qed.

Lemma asJSValue_range_witness :
  exists d, asJSValue [0; 0; 0; 0; 0; 0; 0xf1; 0x3f] = Normal d
            /\ le_value d = 0x3ff0000000000000.
Proof.
  assert (H : is_u8x8 [0; 0; 0; 0; 0; 0; 0xf1; 0x3f])
    by (split; [reflexivity | repeat constructor; lia]).
  destruct (proj1 (asJSValue_range _ H)) as (d & Hd & _ & Hv).
  { cbn. lia. }
  exists d. split; [exact Hd|]. rewrite Hv. reflexivity.
Defined.

End Int64_conversions.

(** * The gadget catalog of [init] *)

Lemma init_gadget_map_unchanged (m : gmap string Z) (offset_map : list (string * Z))
    (base_addr : Z) (key : string) :
  key ∉ offset_map.*1 ->
  init_gadget_map m offset_map base_addr !! key = m !! key.
Proof.
  unfold init_gadget_map.
  revert m; induction offset_map as [|[insn offset] l IH]; intros m Hnot;
    cbn [foldl]; [reflexivity|].
  cbn [fmap list_fmap fst] in Hnot. apply not_elem_of_cons in Hnot as [Hne Hnot].
  rewrite IH by exact Hnot. by apply lookup_insert_ne.
Qed.

Lemma init_gadget_map_registered (m : gmap string Z) (offset_map : list (string * Z))
    (base_addr : Z) (key : string) (offset : Z) :
  NoDup offset_map.*1 -> (key, offset) ∈ offset_map ->
  init_gadget_map m offset_map base_addr !! key = Some (Int_add base_addr offset).
Proof.
  revert m; induction offset_map as [|[insn off] l IH]; intros m Hnd Hin.
  - by apply elem_of_nil in Hin.
  - cbn [fmap list_fmap fst] in Hnd. apply NoDup_cons in Hnd as [Hnot Hnd].
    apply elem_of_cons in Hin as [[= -> ->]|Hin].
    + change (init_gadget_map m ((insn, off) :: l) base_addr)
        with (init_gadget_map (<[insn := Int_add base_addr off]> m) l base_addr).
      rewrite init_gadget_map_unchanged by exact Hnot. apply lookup_insert_eq.
    + change (init_gadget_map m ((insn, off) :: l) base_addr)
        with (init_gadget_map (<[insn := Int_add base_addr off]> m) l base_addr).
      by apply IH.
Qed.

Ltac decide_by_computation :=
  refine (bool_decide_unpack _ _); vm_compute; exact I.

(** X12: [init_gadget_map] registers every pair of an offset table whose
    keys are distinct at the base address plus its offset, and leaves
    every other key of the catalog as it was. *)
Theorem init_gadget_map_lookup (gadget_map : gmap string Z)
    (offset_map : list (string * Z)) (base_addr : Z)
    (H : NoDup offset_map.*1) :
  (forall key offset, (key, offset) ∈ offset_map ->
     init_gadget_map gadget_map offset_map base_addr !! key
     = Some (Int_add base_addr offset))
  /\ (forall key, key ∉ offset_map.*1 ->
        init_gadget_map gadget_map offset_map base_addr !! key
        = gadget_map !! key).
Proof.
  split.
  - intros key offset. by apply init_gadget_map_registered.
  - intros key. apply init_gadget_map_unchanged.
Qed.

Lemma webkit_keys_NoDup : NoDup webkit_gadget_offsets.*1.
Proof. decide_by_computation. Qed.

Lemma libc_keys_NoDup : NoDup libc_gadget_offsets.*1.
Proof. decide_by_computation. Qed.

Lemma catalogs_disjoint (key : string) :
  key ∈ webkit_gadget_offsets.*1 -> key ∉ libc_gadget_offsets.*1.
Proof.
  assert (HF : Forall (fun k => k ∉ libc_gadget_offsets.*1) webkit_gadget_offsets.*1)
    by (decide_by_computation).
  rewrite Forall_forall in HF. apply HF.
Qed.

Lemma init_gadget_map_lookup_witness :
  NoDup libc_gadget_offsets.*1
  /\ init_gadget_map ∅ libc_gadget_offsets 0x810000000 !! "setjmp"
     = Some (Int_add 0x810000000 offset_libc_setjmp)
  /\ init_gadget_map ∅ libc_gadget_offsets 0x810000000 !! "ret" = None.
Proof.
  assert (H : NoDup libc_gadget_offsets.*1)
    by (decide_by_computation).
  split; [exact H|].
  destruct (init_gadget_map_lookup ∅ libc_gadget_offsets 0x810000000 H) as [Hin Hout].
  split.
  - apply Hin. decide_by_computation.
  - rewrite Hout; [reflexivity|]. decide_by_computation.
Defined.

Lemma init_gadgets_webkit (wk lc : Z) (key : string) (offset : Z) :
  (key, offset) ∈ webkit_gadget_offsets ->
  init_gadgets wk lc !! key = Some (Int_add wk offset).
Proof.
  intros Hin. unfold init_gadgets.
  rewrite init_gadget_map_unchanged.
  - by apply init_gadget_map_registered; [apply webkit_keys_NoDup|].
  - apply catalogs_disjoint, list_elem_of_fmap. by exists (key, offset).
Qed.

Lemma init_gadgets_libc (wk lc : Z) (key : string) (offset : Z) :
  (key, offset) ∈ libc_gadget_offsets ->
  init_gadgets wk lc !! key = Some (Int_add lc offset).
Proof.
  intros Hin. unfold init_gadgets.
  by apply init_gadget_map_registered; [apply libc_keys_NoDup|].
Qed.

(** X13: with the catalog [init] builds, for any two module bases,
    [new Chain803()] returns: every gadget the two constructors look up is
    in the WebKit table.  The chain is empty and not stale, nothing has
    been written to the target, and the tables of the JOP sequence hold
    the addresses of their gadgets, the base of WebKit plus the offset of
    the table; [rax_ptrs] holds the address of the stack at 0x18,
    [jop_buffer] that of [rax_ptrs], and the vtable that of [jop_buffer]
    at 8. *)
Theorem new_Chain803_after_init (E : env) (libwebkit_base libc_base : Z)
    (H : gadgets E = init_gadgets libwebkit_base libc_base) :
  exists c,
    new_Chain803 E = Ok tt c
    /\ position (base c) = 0 /\ is_stale (base c) = false /\ stack (base c) = ∅
    /\ target c = []
    /\ jmp_target (tables c) !! 0x50 = Some (Int_add libwebkit_base 0x21af6ad)
    /\ jmp_target (tables c) !! 0 = Some (Int_add libwebkit_base 0xbf669)
    /\ vtable (tables c) !! 0x1c8 = Some (Int_add libwebkit_base 0x5efb14)
    /\ vtable (tables c) !! 0xb8 = Some (Int_add libwebkit_base 0x2198221)
    /\ vtable (tables c) !! 0x5f = Some (Int_add libwebkit_base 0x14ff7a2)
    /\ vtable (tables c) !! 8 = Some (jop_buffer_p E)
    /\ jop_buffer (tables c) !! 0 = Some (rax_ptrs_p E)
    /\ rax_ptrs (tables c) !! 0x68 = Some (Int_add libwebkit_base 0x76b970)
    /\ rax_ptrs (tables c) !! 0x30 = Some (Int_add libwebkit_base 0x202698)
    /\ rax_ptrs (tables c) !! 0x10 = Some (Int_add libwebkit_base 0x21af6ad)
    /\ rax_ptrs (tables c) !! 0 = Some (Int_add libwebkit_base 0xbf669)
    /\ rax_ptrs (tables c) !! 0x18 = Some (stack_addr E).
Proof.
  assert (Hjop2 : gadgets E !! jop2 = Some (Int_add libwebkit_base 0x76b970))
    by (rewrite H; apply init_gadgets_webkit; decide_by_computation).
  assert (Hjop3 : gadgets E !! jop3 = Some (Int_add libwebkit_base 0x202698))
    by (rewrite H; apply init_gadgets_webkit; decide_by_computation).
  assert (Hjop4 : gadgets E !! jop4 = Some (Int_add libwebkit_base 0x21af6ad))
    by (rewrite H; apply init_gadgets_webkit; decide_by_computation).
  assert (Hjop5 : gadgets E !! jop5 = Some (Int_add libwebkit_base 0xbf669))
    by (rewrite H; apply init_gadgets_webkit; decide_by_computation).
  assert (Hta1 : gadgets E !! ta_jop1 = Some (Int_add libwebkit_base 0x5efb14))
    by (rewrite H; apply init_gadgets_webkit; decide_by_computation).
  assert (Hta2 : gadgets E !! ta_jop2 = Some (Int_add libwebkit_base 0x2198221))
    by (rewrite H; apply init_gadgets_webkit; decide_by_computation).
  assert (Hta3 : gadgets E !! ta_jop3 = Some (Int_add libwebkit_base 0x14ff7a2))
    by (rewrite H; apply init_gadgets_webkit; decide_by_computation).
  unfold new_Chain803, Chain803_constructor, Chain803Base_constructor,
    _clean_branch_ctx, write_jmp_target, write_vtable, write_rax_ptrs,
    write_jop_buffer.
  rewrite bind_unfold, bind_modify.
  rewrite bind_get_gadget, Hjop4, bind_modify, bind_get_gadget, Hjop5, bind_modify.
  unfold modify at 1. cbv beta iota.
  rewrite bind_get_gadget, Hta1, bind_modify, bind_get_gadget, Hta2, bind_modify,
    bind_get_gadget, Hta3, bind_modify, bind_get_gadget, Hjop2, bind_modify,
    bind_get_gadget, Hjop3, bind_modify, bind_get_gadget, Hjop4, bind_modify,
    bind_get_gadget, Hjop5, !bind_modify.
  eexists. split; [reflexivity|].
  cbn [base position is_stale stack target tables jmp_target vtable rax_ptrs
       jop_buffer set_tables set_branch set_is_saved new_ChainBase].
  unfold write64.
  repeat split; by simplify_map_eq.
Qed.

Lemma new_Chain803_after_init_witness :
  gadgets example_env = init_gadgets 0x800000000 0x810000000
  /\ exists c,
       new_Chain803 example_env = Ok tt c
       /\ jmp_target (tables c) !! 0x50 = Some 0x8021af6ad
       /\ rax_ptrs (tables c) !! 0x18 = Some 0x200000000.
Proof.
  assert (H : gadgets example_env = init_gadgets 0x800000000 0x810000000)
    by reflexivity.
  split; [exact H|].
  destruct (new_Chain803_after_init example_env _ _ H)
    as (c & Hc & _ & _ & _ & _ & H50 & _ & _ & _ & _ & _ & _ & _ & _ & _ & _ & H18).
  exists c. split; [exact Hc|]. split; [exact H50 | exact H18].
Defined.

Lemma init_gadgets_complete (wk lc : Z) (key : string) :
  key ∈ (webkit_gadget_offsets ++ libc_gadget_offsets)%list.*1 ->
  is_Some (init_gadgets wk lc !! key).
Proof.
  rewrite fmap_app, elem_of_app, !list_elem_of_fmap.
  intros [([k off] & -> & Hin)|([k off] & -> & Hin)]; cbn [fst].
  - rewrite (init_gadgets_webkit wk lc k off Hin). by eexists.
  - rewrite (init_gadgets_libc wk lc k off Hin). by eexists.
Qed.

(** * The chains a program can reach *)

(** Every statement of a method keeps a property that each of its parts
    keeps. *)
Section Chain803_invariant.
Variable E : env.

Lemma keeps_bind {A B} (P : chain -> Prop) (m : M A) (k : A -> M B) :
  keeps P m -> (forall a, keeps P (k a)) -> keeps P (bind m k).
Proof.
  intros Hm Hk s Hs. unfold bind. specialize (Hm s Hs).
  destruct (m s) as [a s1|e s1]; cbn [state_of] in *; [by apply Hk | exact Hm].
Qed.

Lemma keeps_ret {A} (P : chain -> Prop) (a : A) : keeps P (ret a).
Proof. by intros s Hs. Qed.

Lemma keeps_throw {A} (P : chain -> Prop) (e : exn) : keeps P (@throw A e).
Proof. by intros s Hs. Qed.

Lemma keeps_gets {A} (P : chain -> Prop) (f : chain -> A) : keeps P (gets f).
Proof. by intros s Hs. Qed.

Lemma keeps_modify (P : chain -> Prop) (f : chain -> chain) :
  (forall s, P s -> P (f s)) -> keeps P (modify f).
Proof. intros Hf s Hs. by apply Hf. Qed.

Lemma keeps_lift {A} (P : chain -> Prop) (c : completion A) : keeps P (lift c).
Proof. destruct c; [apply keeps_ret | apply keeps_throw]. Qed.

Lemma keeps_for_each {A} (P : chain -> Prop) (f : A -> M unit) (l : list A) :
  (forall x, keeps P (f x)) -> keeps P (for_each f l).
Proof.
  intros Hf. induction l as [|x l IH]; cbn [for_each];
    [apply keeps_ret | by apply keeps_bind].
Qed.

Lemma keeps_get_gadget (P : chain -> Prop) (key : string) : keeps P (get_gadget E key).
Proof. intros s Hs. unfold get_gadget. by destruct (gadgets E !! key). Qed.

Lemma sealed_push_value (value : Z) : keeps sealed (push_value E value).
Proof.
  unfold push_value. apply keeps_bind.
  - intros s Hs. unfold ChainBase_push_value.
    destruct (stack_size E <? position (base s) + 8); exact Hs.
  - intros _. apply keeps_bind; [apply keeps_gets|]. intros [|].
    + apply keeps_modify. by intros s Hs.
    + apply keeps_ret.
Qed.

Ltac sealed_leaf :=
  first
    [ apply keeps_ret | apply keeps_throw | apply keeps_gets
    | apply keeps_get_gadget | apply keeps_lift | apply sealed_push_value
    | apply keeps_modify; intros ? (? & ? & ?); repeat split; assumption ].

Ltac sealed_steps :=
  repeat first
    [ sealed_leaf
    | apply keeps_bind; [|intros ?]
    | match goal with |- keeps _ (if ?b then _ else _) => destruct b end ].

Lemma sealed_push_gadget (key : string) : keeps sealed (push_gadget E key).
Proof. unfold push_gadget. sealed_steps. Qed.

Lemma sealed_push_entries (entries : list push) :
  keeps sealed (for_each (push_entry E) entries).
Proof.
  apply keeps_for_each. intros [key|value|num]; cbn [push_entry];
    [apply sealed_push_gadget | apply sealed_push_value | apply sealed_push_value].
Qed.

Lemma sealed_push_call (func_addr : Z) (args : list Z) :
  keeps sealed (push_call E func_addr args).
Proof.
  unfold push_call. sealed_steps. apply sealed_push_entries.
Qed.

Lemma sealed_push_syscall (name : string) (args : list Z) :
  keeps sealed (push_syscall E name args).
Proof.
  unfold push_syscall. sealed_steps. apply sealed_push_entries.
Qed.

Lemma sealed_run_op (o : builder_op) : keeps sealed (run_op E o).
Proof.
  destruct o; cbn [run_op].
  - apply sealed_push_gadget.
  - apply sealed_push_value.
  - apply sealed_push_value.
  - unfold push_write64.
    repeat first [apply sealed_push_gadget | apply sealed_push_value
                 | apply keeps_bind; [|intros ?]].
  - apply sealed_push_call.
  - apply sealed_push_syscall.
  - unfold push_get_retval.
    repeat first [apply sealed_push_gadget | apply sealed_push_value
                 | apply keeps_bind; [|intros ?]].
  - apply sealed_push_gadget.
  - unfold push_save.
    repeat first [apply sealed_push_call | sealed_leaf
                 | apply keeps_bind; [|intros ?]
                 | match goal with |- keeps _ (if ?b then _ else _) => destruct b end ].
  - unfold push_restore, push_constant.
    repeat first [apply sealed_push_call | apply sealed_push_gadget | sealed_leaf
                 | apply keeps_bind; [|intros ?]
                 | match goal with |- keeps _ (if ?b then _ else _) => destruct b end ].
Qed.

Lemma sealed_start_branch : keeps sealed (start_branch E).
Proof.
  unfold start_branch, push_constant.
  repeat first [apply sealed_push_gadget | sealed_leaf
               | apply keeps_bind; [|intros ?]
               | match goal with |- keeps _ (if ?b then _ else _) => destruct b end ].
Qed.

Lemma sealed_end_branch : keeps sealed end_branch.
Proof.
  unfold end_branch, _clean_branch_ctx.
  repeat first [sealed_leaf
               | apply keeps_bind; [|intros ?]
               | match goal with |- keeps _ (if ?b then _ else _) => destruct b end ].
Qed.

Lemma sealed_clean : keeps sealed clean.
Proof. intros s (_ & _ & Ht). by rewrite clean_result. Qed.

Lemma sealed_run : keeps sealed (run E).
Proof.
  intros s (Hctx & Hsaved & Ht). rewrite run_cases, Hctx. cbv zeta.
  destruct (is_stale (base s)); [by repeat split|].
  destruct (position (base s) =? 0); by repeat split.
Qed.

End Chain803_invariant.

Lemma sealed_invoke (E : env) (m : method) : keeps sealed (invoke E m).
Proof.
  destruct m; cbn [invoke].
  - apply sealed_run_op.
  - apply sealed_start_branch.
  - apply sealed_end_branch.
  - unfold check_is_branching. apply keeps_bind; [apply keeps_gets|].
    intros [|]; [apply keeps_throw | apply keeps_ret].
  - apply sealed_clean.
  - apply sealed_run.
  - unfold call.
    apply keeps_bind; [apply keeps_gets|]. intros pos.
    apply keeps_bind; [destruct (negb (pos =? 0)); [apply keeps_throw | apply keeps_ret]|].
    intros _.
    apply keeps_bind; [apply sealed_push_call|]. intros _.
    apply keeps_bind; [apply (sealed_run_op E OpGetRetval)|]. intros _.
    apply keeps_bind; [apply (sealed_run_op E OpEnd)|]. intros _.
    apply keeps_bind; [apply sealed_run|]. intros _. apply sealed_clean.
  - unfold syscall.
    apply keeps_bind; [apply keeps_gets|]. intros pos.
    apply keeps_bind; [destruct (negb (pos =? 0)); [apply keeps_throw | apply keeps_ret]|].
    intros _.
    apply keeps_bind; [apply sealed_push_syscall|]. intros _.
    apply keeps_bind; [apply (sealed_run_op E OpGetRetval)|]. intros _.
    apply keeps_bind; [apply (sealed_run_op E OpEnd)|]. intros _.
    apply keeps_bind; [apply sealed_run|]. intros _. apply sealed_clean.
Qed.

Lemma reachable_sealed (E : env) (s : chain) : reachable E s -> sealed s.
Proof.
  induction 1 as [c Hc|m s _ IH].
  - apply new_Chain803_fields in Hc as (_ & _ & Hctx & Hsaved & Ht). by repeat split.
  - by apply sealed_invoke.
Qed.

(** The branch fields the constructors leave are those of
    [_clean_branch_ctx]. *)
Lemma new_Chain803_branch (E : env) (c : chain) :
  new_Chain803 E = Ok tt c ->
  branch c = {| is_branch_ctx := true; branch_position := SNull;
                delta_slot := SBool true; rsp_slot := SNull;
                rsp_position := SNull |}.
Proof.
  unfold new_Chain803, Chain803_constructor, Chain803Base_constructor,
    _clean_branch_ctx, write_jmp_target, write_vtable, write_rax_ptrs,
    write_jop_buffer.
  intros H.
  rewrite bind_unfold, bind_modify in H.
  repeat (rewrite bind_get_gadget in H;
          destruct (gadgets E !! _); [|discriminate H];
          rewrite bind_modify in H).
  cbn in H.
  repeat (rewrite bind_get_gadget in H;
          destruct (gadgets E !! _); [|discriminate H];
          rewrite bind_modify in H).
  rewrite !bind_modify in H.
  injection H as <-. reflexivity.
Qed.

(** [end_branch()] on a chain whose fields are those of
    [_clean_branch_ctx]: it returns, and the offset it writes at is the
    [true] that [delta_slot] holds. *)
Lemma end_branch_after_clean_branch_ctx (s : chain) :
  branch s = {| is_branch_ctx := true; branch_position := SNull;
                delta_slot := SBool true; rsp_slot := SNull;
                rsp_position := SNull |} ->
  exists s',
    end_branch s = Ok tt s'
    /\ stack (base s')
       = write64 (stack (base s)) (to_number (SBool true)) (new_Int 0)
    /\ position (base s') = position (base s)
    /\ branch s' = branch s.
Proof.
  intros Hb. unfold end_branch, bind, gets, modify, _clean_branch_ctx, ret.
  cbv beta. rewrite Hb. cbn [is_branch_ctx negb]. cbv beta.
  eexists. split; [reflexivity|].
  cbn [base branch stack position set_base set_branch with_stack
       branch_position rsp_position delta_slot to_number].
  rewrite ?Hb.
  cbn [branch_position rsp_position delta_slot to_number].
  split; [reflexivity|]. split; reflexivity.
Qed.

(** C5: the guard of [end_branch()] never fires.  [is_branch_ctx] is set
    by the constructor, by [clean()] and by [end_branch()] itself, and
    nothing clears it, so on every chain a program can hold, with or
    without a [start_branch()] before, [end_branch()] does not throw
    'can not end nonbranching chain': it returns, writes into the buffer
    and leaves the context marked open, so that it returns again when
    called again, while [start_branch()] throws.  On a chain that was just
    constructed or just cleaned the value written is 0 and the offset is
    the [true] that [_clean_branch_ctx] stored in [delta_slot]. *)
Theorem end_branch_without_open_branch_returns :
  (forall (E : env) (s : chain),
     reachable E s ->
     (exists s',
        end_branch s = Ok tt s'
        /\ stack (base s')
           = write64 (stack (base s)) (to_number (delta_slot (branch s)))
               (new_Int (to_number (branch_position (branch s))
                         - to_number (rsp_position (branch s))))
        /\ is_branch_ctx (branch s') = true
        /\ reachable E s')
     /\ start_branch E s
        = Throw (Error "chain already branching, end it first") s)
  /\ (forall (E : env) (c : chain),
        new_Chain803 E = Ok tt c ->
        exists c',
          end_branch c = Ok tt c'
          /\ stack (base c')
             = write64 (stack (base c)) (to_number (SBool true)) (new_Int 0))
  /\ (forall s : chain,
        exists s0 s',
          clean s = Ok tt s0
          /\ end_branch s0 = Ok tt s'
          /\ stack (base s')
             = write64 (stack (base s0)) (to_number (SBool true)) (new_Int 0))
  /\ (exists s1 s2,
        new_Chain803 example_env = Ok tt example_chain
        /\ end_branch example_chain = Ok tt s1
        /\ stack (base example_chain) !! 1 = None
        /\ stack (base s1) !! 1 = Some 0
        /\ end_branch s1 = Ok tt s2).
Proof.
  split; [|split; [|split]].
  - intros E s Hs.
    pose proof (reachable_sealed E s Hs) as (Hctx & _ & _).
    split; [|by apply start_branch_already_branching].
    destruct (end_branch_writes s Hctx) as (s' & Hend & Hstack).
    exists s'. split; [exact Hend|]. split; [exact Hstack|].
    assert (Hs' : reachable E s').
    { pose proof (reachable_invoke E EndBranch s Hs) as Hr.
      cbn [invoke] in Hr. by rewrite Hend in Hr. }
    split; [|exact Hs'].
    by destruct (reachable_sealed E s' Hs') as (Hctx' & _ & _).
  - intros E c Hc.
    destruct (end_branch_after_clean_branch_ctx c (new_Chain803_branch E c Hc))
      as (c' & Hend & Hstack & _).
    eauto.
  - intros s. eexists.
    destruct (end_branch_after_clean_branch_ctx
                (state_of (clean s)) eq_refl) as (s' & Hend & Hstack & _).
    exists s'. split; [apply clean_result|]. split; [exact Hend | exact Hstack].
  - destruct (end_branch_after_clean_branch_ctx example_chain eq_refl)
      as (s1 & Hend1 & Hstack1 & _ & Hbranch1).
    destruct (end_branch_after_clean_branch_ctx s1 ltac:(by rewrite Hbranch1))
      as (s2 & Hend2 & _).
    exists s1, s2.
    split; [vm_compute; reflexivity|]. split; [exact Hend1|].
    split; [reflexivity|]. split; [|exact Hend2].
    rewrite Hstack1. apply lookup_insert_eq.
Qed.

(** X14: no statement of the builder ever clears [is_branch_ctx] or
    [is_saved], and the constructor sets both.  So on every chain a
    program can hold, the one [new Chain803()] returned after any calls of
    its methods, whether they returned or threw, the branch context is
    marked open, the chain is marked saved and nothing was ever written to
    the target: [run], [call] and [syscall] never return, and
    [start_branch], [push_save] and [check_is_branching] throw and leave
    the chain as it is. *)
Theorem reachable_chain_never_runs (E : env) (s : chain) (H : reachable E s) :
  is_branch_ctx (branch s) = true /\ is_saved s = true /\ target s = []
  /\ (forall m, target (state_of (invoke E m s)) = [])
  /\ (forall s', run E s <> Ok tt s')
  /\ (forall func_addr args s', call E func_addr args s <> Ok tt s')
  /\ (forall name args s', syscall E name args s <> Ok tt s')
  /\ start_branch E s = Throw (Error "chain already branching, end it first") s
  /\ push_save E s = Throw (Error "restore first before saving again") s
  /\ check_is_branching s
     = Throw (Error "chain is still branching, end it before running") s.
Proof.
  pose proof (reachable_sealed E s H) as (Hctx & Hsaved & Ht).
  split; [exact Hctx|]. split; [exact Hsaved|]. split; [exact Ht|].
  split.
  { intros m. by apply (reachable_sealed E), reachable_invoke. }
  split.
  { intros s' Hrun. rewrite run_cases, Hctx in Hrun. cbv zeta in Hrun.
    destruct (is_stale (base s)); [discriminate|].
    destruct (position (base s) =? 0); discriminate. }
  split; [intros func_addr args s'; by apply call_stuck_while_branching|].
  split; [intros name args s'; by apply syscall_stuck_while_branching|].
  split; [by apply start_branch_already_branching|].
  split; [by apply push_save_already_saved|].
  unfold check_is_branching. by rewrite bind_gets, Hctx.
Qed.

Lemma reachable_chain_never_runs_witness :
  reachable example_env example_restored
  /\ target example_restored = []
  /\ start_branch example_env example_restored
     = Throw (Error "chain already branching, end it first") example_restored.
Proof.
  assert (H : reachable example_env example_restored).
  { apply (reachable_invoke example_env (Push (OpRestore false)) example_chain).
    apply reachable_new. vm_compute. reflexivity. }
  split; [exact H|].
  destruct (reachable_chain_never_runs example_env example_restored H)
    as (_ & _ & Ht & _ & _ & _ & _ & Hstart & _).
  split; [exact Ht | exact Hstart].
Defined.

(** * Room in the buffer *)

(** A push either fits, and appends its entry, or throws and leaves the
    chain as it was. *)
Section Chain803_pushes.
Variable E : env.

Lemma push_value_outcome (value : Z) (s : chain) :
  (stack_size E < position (base s) + 8
   /\ push_value E value s = Throw ChainOverflowError s)
  \/ (position (base s) + 8 <= stack_size E
      /\ exists s1, push_value E value s = Ok tt s1
                    /\ appended (stack_size E) [value] s s1).
Proof.
  destruct (Z.ltb_spec (stack_size E) (position (base s) + 8)) as [Hlt|Hle].
  - left. split; [lia|]. unfold push_value. rewrite bind_unfold.
    unfold ChainBase_push_value.
    destruct (Z.ltb_spec (stack_size E) (position (base s) + 8)); [reflexivity | lia].
  - right. split; [lia|].
    destruct (push_value E value s) as [[] s1|e s1] eqn:Hp.
    + eauto using push_value_appended.
    + exfalso. unfold push_value in Hp. rewrite bind_unfold in Hp.
      unfold ChainBase_push_value in Hp.
      destruct (Z.ltb_spec (stack_size E) (position (base s) + 8)); [lia|].
      rewrite bind_gets in Hp.
      destruct (is_branch_ctx _); discriminate.
Qed.

Lemma on_outcome_push_value (value : Z) (k : unit -> M unit) (s : chain)
    (returned : chain -> Prop) (thrown : exn -> chain -> Prop) :
  (stack_size E < position (base s) + 8 -> thrown ChainOverflowError s) ->
  (forall s1, position (base s) + 8 <= stack_size E ->
     appended (stack_size E) [value] s s1 -> on_outcome (k tt s1) returned thrown) ->
  on_outcome (bind (push_value E value) k s) returned thrown.
Proof.
  intros Hfull Hnext. rewrite bind_unfold.
  destruct (push_value_outcome value s) as [[Hlt ->]|[Hle (s1 & -> & A)]].
  - by apply Hfull.
  - by apply Hnext.
Qed.

Lemma on_outcome_push_gadget (key : string) (addr : Z) (k : unit -> M unit)
    (s : chain) (returned : chain -> Prop) (thrown : exn -> chain -> Prop) :
  gadgets E !! key = Some addr ->
  (stack_size E < position (base s) + 8 -> thrown ChainOverflowError s) ->
  (forall s1, position (base s) + 8 <= stack_size E ->
     appended (stack_size E) [addr] s s1 -> on_outcome (k tt s1) returned thrown) ->
  on_outcome (bind (push_gadget E key) k s) returned thrown.
Proof.
  intros Hkey Hfull Hnext.
  assert (Hsame : bind (push_gadget E key) k s = bind (push_value E addr) k s).
  { rewrite !bind_unfold. unfold push_gadget. by rewrite bind_get_gadget, Hkey. }
  rewrite Hsame. by apply on_outcome_push_value.
Qed.

End Chain803_pushes.

Section Chain803_preamble.
Variable E : env.
Hypothesis Hcat :
  forall key, key ∈ (webkit_gadget_offsets ++ libc_gadget_offsets)%list.*1 ->
    is_Some (gadgets E !! key).

Ltac room_full Hp Hr Hb :=
  let Hfull := fresh "Hfull" in
  intros Hfull; cbv beta; split; [reflexivity|];
  lazymatch type of Hp with
  | _ = _ + 8 * ?K => exists K
  end;
  rewrite Hb; repeat split; try lia; try exact Hr.

Ltac room_next Hp Hr Hb :=
  let s1 := fresh "s" in
  let Hfit := fresh "Hfit" in
  let A := fresh "A" in
  let Hp' := fresh "Hp" in
  let Hr' := fresh "Hr" in
  let Hb' := fresh "Hb" in
  intros s1 Hfit A;
  lazymatch type of Hp with
  | position (base ?cur) = ?p0 + 8 * ?K =>
      let K' := eval vm_compute in (K + 1) in
      assert (Hp' : position (base s1) = p0 + 8 * K')
        by (rewrite (appended_position _ _ _ _ A), Hp; cbn [length]; lia);
      assert (Hr' : K' = 0 \/ p0 + 8 * K' <= stack_size E) by (right; lia);
      lazymatch type of Hb with
      | _ = ?b =>
          assert (Hb' : is_branch_ctx (branch s1) = b)
            by (rewrite (appended_is_branch_ctx _ _ _ _ A); exact Hb)
      end;
      clear Hp Hr Hb A Hfit;
      rename Hp' into Hp; rename Hr' into Hr; rename Hb' into Hb
  end.

Ltac room_step Hp Hr Hb :=
  lazymatch goal with
  | |- on_outcome (bind (gets ?f) ?k ?cur) _ _ =>
      rewrite (bind_gets f k cur); cbv beta
  | |- on_outcome (bind (modify ?f) ?k ?cur) _ _ =>
      rewrite (bind_modify f k cur); cbv beta;
      lazymatch goal with
      | |- on_outcome (bind _ _ ?st) _ _ =>
          let Hp' := fresh "Hp" in
          let Hb' := fresh "Hb" in
          let st' := fresh "st" in
          lazymatch type of Hp with
          | _ = ?rhs => assert (Hp' : position (base st) = rhs) by exact Hp
          end;
          lazymatch type of Hb with
          | _ = ?b =>
              first [ assert (Hb' : is_branch_ctx (branch st) = b) by exact Hb
                    | assert (Hb' : is_branch_ctx (branch st) = true) by reflexivity ]
          end;
          set (st' := st) in Hp', Hb' |- *; clearbody st';
          clear Hp Hb; rename Hp' into Hp; rename Hb' into Hb
      | |- _ => idtac
      end
  | |- on_outcome (bind (push_gadget _ ?key) ?k ?cur) _ _ =>
      let a := fresh "a" in
      let Ha := fresh "Ha" in
      destruct (Hcat key ltac:(decide_by_computation)) as [a Ha];
      apply (on_outcome_push_gadget E key a k cur _ _ Ha);
      [room_full Hp Hr Hb | room_next Hp Hr Hb]
  | |- on_outcome (bind (push_value _ ?v) ?k ?cur) _ _ =>
      apply (on_outcome_push_value E v k cur);
      [room_full Hp Hr Hb | room_next Hp Hr Hb]
  end.

Lemma start_branch_outcome (s : chain) :
  is_branch_ctx (branch s) = false ->
  on_outcome (start_branch E s)
    (fun s1 =>
       position (base s) + 304 <= stack_size E
       /\ position (base s1) = position (base s) + 304)
    (fun e s' =>
       e = ChainOverflowError
       /\ exists k,
            0 <= k < 38
            /\ position (base s') = position (base s) + 8 * k
            /\ stack_size E < position (base s) + 8 * (k + 1)
            /\ (k = 0 \/ position (base s) + 8 * k <= stack_size E)
            /\ is_branch_ctx (branch s') = (22 <=? k)).
Proof.
  intros Hb.
  assert (Hp : position (base s) = position (base s) + 8 * 0) by lia.
  assert (Hr : 0 = 0 \/ position (base s) + 8 * 0 <= stack_size E) by (by left).
  unfold start_branch, push_constant.
  rewrite bind_gets, Hb, bind_ret.
  do 46 room_step Hp Hr Hb.
  unfold modify, on_outcome. split; [lia | exact Hp].
Qed.

End Chain803_preamble.

(** X15: on a chain whose branch context is closed, with the catalog of
    [init], [start_branch()] returns exactly when the 38 entries of its
    preamble fit, which takes 304 bytes.  When they do not fit it throws
    [ChainOverflowError] after it has appended the [k] entries that do,
    and these are not taken back: the cursor stays behind them, and the
    branch context is already marked open when 22 or more were
    appended. *)
Theorem start_branch_needs_304_bytes (E : env) (libwebkit_base libc_base : Z)
    (s : chain)
    (Hinit : gadgets E = init_gadgets libwebkit_base libc_base)
    (Hctx : is_branch_ctx (branch s) = false) :
  (position (base s) + 304 <= stack_size E ->
   exists s1, start_branch E s = Ok tt s1
              /\ position (base s1) = position (base s) + 304)
  /\ (stack_size E < position (base s) + 304 ->
      exists s' k,
        start_branch E s = Throw ChainOverflowError s'
        /\ 0 <= k < 38
        /\ position (base s') = position (base s) + 8 * k
        /\ stack_size E < position (base s) + 8 * (k + 1)
        /\ (k = 0 \/ position (base s) + 8 * k <= stack_size E)
        /\ is_branch_ctx (branch s') = (22 <=? k)).
Proof.
  assert (Hcat : forall key,
            key ∈ (webkit_gadget_offsets ++ libc_gadget_offsets)%list.*1 ->
            is_Some (gadgets E !! key)).
  { intros key. rewrite Hinit. apply init_gadgets_complete. }
  pose proof (start_branch_outcome E Hcat s Hctx) as H.
  destruct (start_branch E s) as [[] s1|e s'] eqn:Hs; cbn [on_outcome] in H.
  - destruct H as [Hroom Hpos]. split; [eauto | lia].
  - destruct H as (-> & k & Hk & Hpos & Hfull & Hfit & Hb). split; [lia|].
    intros _. exists s', k. auto 10.
Qed.

Lemma start_branch_needs_304_bytes_witness :
  (exists s1, start_branch example_env example_chain_not_branching = Ok tt s1
              /\ position (base s1) = 304)
  /\ (exists s' k,
        start_branch example_env
          (set_base (with_position 0xf00) example_chain_not_branching)
        = Throw ChainOverflowError s'
        /\ position (base s') = 0xf00 + 8 * k /\ k = 32
        /\ is_branch_ctx (branch s') = true).
Proof.
  assert (Hinit : gadgets example_env = init_gadgets 0x800000000 0x810000000)
    by reflexivity.
  split.
  - destruct (start_branch_needs_304_bytes example_env _ _
                example_chain_not_branching Hinit eq_refl) as [Hok _].
    destruct Hok as (s1 & Hs1 & Hpos); [vm_compute; discriminate|].
    exists s1. split; [exact Hs1 | exact Hpos].
  - destruct (start_branch_needs_304_bytes example_env _ _
                (set_base (with_position 0xf00) example_chain_not_branching)
                Hinit eq_refl) as [_ Hfull].
    destruct Hfull as (s' & k & Hs' & Hk & Hpos & Hlt & Hfit & Hb);
      [vm_compute; reflexivity|].
    cbn in Hpos, Hlt, Hfit.
    assert (k = 32) as -> by lia.
    exists s', 32. repeat split; [exact Hs' | exact Hpos | exact Hb].
Defined.

(** **** The preamble of a branch *)

Section Chain803_pivot.
Variable E : env.

Ltac cell_step H A :=
  let Hm := fresh "Hpush" in
  let s1 := fresh "s" in
  let A' := fresh "A" in
  chain_bind H Hm s1;
  lazymatch type of Hm with
  | push_gadget _ _ _ = _ =>
      let a := fresh "a" in
      let Ha := fresh "Ha" in
      apply push_gadget_appended in Hm as (a & Ha & Hm)
  | push_constant _ _ _ = _ => apply push_constant_appended in Hm
  | push_value _ _ _ = _ => apply push_value_appended in Hm
  end;
  pose proof (appended_trans E _ _ _ _ _ A Hm) as A';
  clear A Hm; rename A' into A.

Ltac reopen H A :=
  lazymatch type of H with
  | bind _ _ ?st = _ => pose proof (appended_nil E st) as A
  end.

Lemma Int_add_Int_add (a b c : Z) : Int_add (Int_add a b) c = Int_add a (b + c).
Proof. unfold Int_add. rewrite Zplus_mod_idemp_l. f_equal. lia. Qed.

(** X16: the layout [start_branch()] leaves when it returns, at offsets
    from the position [p0] it was called at.  The slot recorded in
    [delta_slot], at [p0 + 104], holds 0 until [end_branch()] patches it;
    the slot recorded in [rsp_slot], at [p0 + 152], holds 128, the bytes of
    the 16 entries counted after the context was opened; both follow a
    ['pop rcx; ret'].  The value popped into rsi, at [p0 + 168], is the
    address of the entry that follows it.  The two add up to the address
    of the first entry after the preamble, where the body begins. *)
Theorem start_branch_pivot (s s1 : chain) (H : start_branch E s = Ok tt s1) :
  let p0 := position (base s) in
  position (base s1) = p0 + 304
  /\ delta_slot (branch s1) = SNum (p0 + 104)
  /\ stack (base s1) !! (p0 + 96) = gadgets E !! "pop rcx; ret"
  /\ stack (base s1) !! (p0 + 104) = Some 0
  /\ rsp_slot (branch s1) = SNum (p0 + 152)
  /\ stack (base s1) !! (p0 + 144) = gadgets E !! "pop rcx; ret"
  /\ stack (base s1) !! (p0 + 152) = Some 128
  /\ stack (base s1) !! (p0 + 160) = gadgets E !! "pop rsi; ret"
  /\ stack (base s1) !! (p0 + 168) = Some (Int_add (stack_addr E) (p0 + 176))
  /\ Int_add (Int_add (stack_addr E) (p0 + 176)) 128
     = Int_add (stack_addr E) (position (base s1))
  /\ to_number (branch_position (branch s1)) = 128
  /\ rsp_position (branch s1) = branch_position (branch s1).
Proof.
  intros p0. unfold start_branch in H.
  chain_step H. chain_step H; [discriminate H|]. chain_step H.
  reopen H A. do 13 cell_step H A. chain_step H. chain_step H.
  reopen H B. do 6 cell_step H B. chain_step H. chain_step H.
  reopen H C. do 2 cell_step H C.
  pose proof (appended_position _ _ _ _ C) as Hrsi.
  chain_step H. cell_step H C.
  chain_step H. chain_step H.
  reopen H D. do 16 cell_step H D. chain_step H.
  injection H as <-.
  destruct A as [Apos Astack _ _ _ _ _ _ _ _ _ _],
    B as [Bpos Bstack _ _ _ Bdelta _ _ _ _ _ _],
    C as [Cpos Cstack _ _ _ Cdelta Crsp _ _ _ _ _],
    D as [Dpos Dstack _ _ Dcount Ddelta Drsp _ _ _ _ _].
  cbn [app length] in Apos, Astack, Bpos, Bstack, Cpos, Cstack, Dpos, Dstack,
    Dcount, Hrsi.
  cbn [position base stack branch set_base set_branch with_stack with_delta_slot
       with_rsp_slot with_branch_position with_is_branch_ctx with_rsp_position
       delta_slot rsp_slot rsp_position branch_position is_branch_ctx to_number]
    in *.
  change (new_Int 0) with 0 in *.
  rewrite Drsp, Crsp, Ddelta, Cdelta, Bdelta, Dcount. cbn [to_number].
  change (new_Int (0 + 8 * Z.of_nat 16)) with 128.
  assert (H13 : position (base s13) = p0 + 104) by (subst p0; lia).
  assert (H19 : position (base s19) = p0 + 152) by lia.
  assert (H21 : position (base s21) = p0 + 168) by lia.
  assert (H22 : position (base s22) = p0 + 176) by lia.
  rewrite Dstack, Cstack, Bstack, Astack, H13, H19, H21, H22.
  fold p0. unfold write64.
  split; [lia|]. split; [reflexivity|].
  split.
  { rewrite lookup_insert_ne by lia.
    rewrite !store_cells_below by lia.
    replace (p0 + 96) with (p0 + 8 * Z.of_nat 12) by lia.
    rewrite Ha7. by apply store_cells_lookup. }
  split.
  { rewrite lookup_insert_ne by lia.
    rewrite !store_cells_below by lia.
    replace (p0 + 104) with (p0 + 104 + 8 * Z.of_nat 0) at 1 by lia.
    by apply store_cells_lookup. }
  split; [reflexivity|].
  split.
  { rewrite lookup_insert_ne by lia.
    rewrite !store_cells_below by lia.
    replace (p0 + 144) with (p0 + 104 + 8 * Z.of_nat 5) by lia.
    rewrite Ha7. apply store_cells_lookup. cbn. congruence. }
  split; [apply lookup_insert_eq|].
  split.
  { rewrite lookup_insert_ne by lia.
    rewrite !store_cells_below by lia.
    replace (p0 + 160) with (p0 + 152 + 8 * Z.of_nat 1) by lia.
    rewrite Ha12. by apply store_cells_lookup. }
  split.
  { rewrite lookup_insert_ne by lia.
    rewrite !store_cells_below by lia.
    replace (p0 + 168) with (p0 + 152 + 8 * Z.of_nat 2) at 1 by lia.
    replace (p0 + 168 + 8) with (p0 + 176) by lia.
    by apply store_cells_lookup. }
  split.
  { rewrite Int_add_Int_add. f_equal. lia. }
  split; reflexivity.
Qed.

End Chain803_pivot.

Lemma start_branch_pivot_witness :
  start_branch example_env example_chain_not_branching = Ok tt example_branch_opened
  /\ stack (base example_branch_opened) !! 152 = Some 128
  /\ stack (base example_branch_opened) !! 168 = Some 0x2000000b0
  /\ position (base example_branch_opened) = 304.
Proof.
  assert (H : start_branch example_env example_chain_not_branching
              = Ok tt example_branch_opened) by (vm_compute; reflexivity).
  split; [exact H|].
  destruct (start_branch_pivot example_env _ _ H)
    as (Hpos & _ & _ & _ & _ & _ & H152 & _ & H168 & _).
  split; [exact H152|]. split; [exact H168 | exact Hpos].
Defined.

(** **** push_restore on a chain with room *)

Section Chain803_calls.
Variable E : env.

Lemma push_entries_return (entries : list push) (cells : list Z) (s : chain) :
  mapM (entry_cell E) entries = Some cells ->
  position (base s) + 8 * Z.of_nat (length entries) <= stack_size E ->
  exists s1, for_each (push_entry E) entries s = Ok tt s1
             /\ appended (stack_size E) cells s s1.
Proof.
  revert cells s; induction entries as [|p entries IH]; intros cells s Hcells Hroom.
  - injection Hcells as <-. exists s. split; [reflexivity | apply appended_nil].
  - cbn in Hcells.
    destruct (entry_cell E p) as [cell|] eqn:Hcell; [|discriminate].
    destruct (mapM (entry_cell E) entries) as [rest|] eqn:Hrest; [|discriminate].
    cbn in Hcells. injection Hcells as <-.
    cbn [length] in Hroom.
    assert (Hone : exists s0, push_entry E p s = Ok tt s0
                              /\ appended (stack_size E) [cell] s s0).
    { destruct (push_value_outcome E cell s) as [[Hlt _]|[_ (s0 & Hs0 & A)]]; [lia|].
      exists s0. split; [|exact A].
      destruct p as [key|value|num]; cbn [push_entry entry_cell] in *.
      - unfold push_gadget. by rewrite bind_get_gadget, Hcell.
      - by injection Hcell as ->.
      - by injection Hcell as <-. }
    destruct Hone as (s0 & Hs0 & A0).
    destruct (IH rest s0 eq_refl) as (s1 & Hs1 & A1).
    { rewrite (appended_position _ _ _ _ A0). cbn [length]. lia. }
    exists s1. split.
    + cbn [for_each]. by rewrite bind_unfold, Hs0.
    + exact (appended_trans E [cell] rest _ _ _ A0 A1).
Qed.

Lemma on_outcome_push_call (func_addr : Z) (args : list Z) (k : unit -> M unit)
    (s : chain) (entries : list push) (cells : list Z)
    (returned : chain -> Prop) (thrown : exn -> chain -> Prop) :
  call_sequence E (position (base s)) func_addr args = Normal entries ->
  mapM (entry_cell E) entries = Some cells ->
  position (base s) + 8 * Z.of_nat (length entries) <= stack_size E ->
  (forall s1, appended (stack_size E) cells s s1 ->
     on_outcome (k tt s1) returned thrown) ->
  on_outcome (bind (push_call E func_addr args) k s) returned thrown.
Proof.
  intros Hseq Hcells Hroom Hnext.
  destruct (push_entries_return entries cells s Hcells Hroom) as (s1 & Hs1 & A).
  rewrite bind_unfold. unfold push_call. rewrite bind_gets.
  unfold bind at 1, lift. rewrite Hseq. cbn [ret]. rewrite Hs1.
  by apply Hnext.
Qed.

End Chain803_calls.

Section Chain803_restore.
Variable E : env.
Hypothesis Hcat :
  forall key, key ∈ (webkit_gadget_offsets ++ libc_gadget_offsets)%list.*1 ->
    is_Some (gadgets E !! key).

Ltac ret_full := let Hfull := fresh "Hfull" in intros Hfull; cbv beta; lia.

Ltac ret_next Hp :=
  let s1 := fresh "s" in
  let Hfit := fresh "Hfit" in
  let A := fresh "A" in
  let Hp' := fresh "Hp" in
  intros s1 Hfit A;
  pose proof (appended_position _ _ _ _ A) as Hp';
  rewrite Hp in Hp'; cbn [length] in Hp';
  clear Hp A Hfit; rename Hp' into Hp.

Ltac ret_step Hp :=
  lazymatch goal with
  | |- on_outcome (bind (gets ?f) ?k ?cur) _ _ =>
      rewrite (bind_gets f k cur); cbv beta
  | |- on_outcome (bind (get_gadget _ ?key) ?k ?cur) _ _ =>
      let a := fresh "a" in
      let Ha := fresh "Ha" in
      destruct (Hcat key ltac:(decide_by_computation)) as [a Ha];
      rewrite (bind_get_gadget E key k cur), Ha
  | |- on_outcome (bind (push_gadget _ ?key) ?k ?cur) _ _ =>
      let a := fresh "a" in
      let Ha := fresh "Ha" in
      destruct (Hcat key ltac:(decide_by_computation)) as [a Ha];
      apply (on_outcome_push_gadget E key a k cur _ _ Ha);
      [ret_full | ret_next Hp]
  | |- on_outcome (bind (push_value _ ?v) ?k ?cur) _ _ =>
      apply (on_outcome_push_value E v k cur); [ret_full | ret_next Hp]
  end.

Lemma push_restore_outcome (is_force : bool) (s : chain) (longjmp : Z)
    (entries : list push) (cells : list Z) :
  gadgets E !! "longjmp" = Some longjmp ->
  is_saved s = true \/ is_force = true ->
  call_sequence E (position (base s) + 80) longjmp [jmp_buf_p E] = Normal entries ->
  mapM (entry_cell E) entries = Some cells ->
  position (base s) + 8 * (12 + Z.of_nat (length cells)) <= stack_size E ->
  on_outcome (push_restore E is_force s)
    (fun s' =>
       position (base s') = position (base s) + 8 * (12 + Z.of_nat (length cells))
       /\ is_saved s' = true)
    (fun _ _ => False).
Proof.
  intros Hlongjmp Hsaved Hseq Hcells Hroom.
  pose proof (length_mapM _ _ _ Hcells) as Hlen.
  assert (Hp : position (base s) = position (base s) + 0) by lia.
  unfold push_restore, push_constant.
  rewrite bind_gets.
  assert (negb (is_saved s) && negb is_force = false) as ->
    by (destruct Hsaved as [-> | ->]; [reflexivity | by destruct (is_saved s)]).
  rewrite bind_ret.
  do 12 ret_step Hp.
  rewrite bind_get_gadget, Hlongjmp.
  apply (on_outcome_push_call E longjmp [jmp_buf_p E] _ _ entries cells).
  { rewrite Hp. rewrite <- Hseq. f_equal. lia. }
  { exact Hcells. }
  { lia. }
  intros s_called A. pose proof (appended_position _ _ _ _ A) as Hp'.
  rewrite Hp in Hp'. clear Hp A. rename Hp' into Hp.
  do 3 ret_step Hp.
  rewrite bind_modify. unfold modify, on_outcome.
  cbn [position base set_base set_is_saved with_stack is_saved].
  split; [lia | reflexivity].
Qed.

End Chain803_restore.

(** X17: with the catalog of [init], [push_restore()] returns whenever
    the chain is marked saved or the call is forced, [push_call] has a
    sequence for [longjmp] whose gadgets are in the catalog, and the 12
    entries of its own and those of the call fit in the buffer; it has
    then appended exactly these, and the chain is marked saved. *)
Theorem push_restore_returns (E : env) (libwebkit_base libc_base : Z)
    (is_force : bool) (s : chain) (entries : list push) (cells : list Z)
    (Hinit : gadgets E = init_gadgets libwebkit_base libc_base)
    (Hsaved : is_saved s = true \/ is_force = true)
    (Hseq : call_sequence E (position (base s) + 80)
              (Int_add libc_base offset_libc_longjmp) [jmp_buf_p E]
            = Normal entries)
    (Hcells : mapM (entry_cell E) entries = Some cells)
    (Hroom : position (base s) + 8 * (12 + Z.of_nat (length cells))
             <= stack_size E) :
  exists s',
    push_restore E is_force s = Ok tt s'
    /\ position (base s') = position (base s) + 8 * (12 + Z.of_nat (length cells))
    /\ is_saved s' = true.
Proof.
  assert (Hcat : forall key,
            key ∈ (webkit_gadget_offsets ++ libc_gadget_offsets)%list.*1 ->
            is_Some (gadgets E !! key)).
  { intros key. rewrite Hinit. apply init_gadgets_complete. }
  assert (Hlongjmp : gadgets E !! "longjmp"
                     = Some (Int_add libc_base offset_libc_longjmp)).
  { rewrite Hinit. apply init_gadgets_libc. decide_by_computation. }
  pose proof (push_restore_outcome E Hcat is_force s _ entries cells
                Hlongjmp Hsaved Hseq Hcells Hroom) as H.
  destruct (push_restore E is_force s) as [[] s'|e s'];
    cbn [on_outcome] in H; [eauto | contradiction].
Qed.

Lemma push_restore_returns_witness :
  exists s',
    push_restore example_env false example_chain = Ok tt s'
    /\ position (base s') = 120.
Proof.
  assert (Hinit : gadgets example_env = init_gadgets 0x800000000 0x810000000)
    by reflexivity.
  destruct (push_restore_returns example_env _ _ false example_chain
              [PushGadget "pop rdi; ret"; PushConstant 0x200040000;
               PushValue 0x810029c58]
              [0x8001e3f87; 0x200040000; 0x810029c58]
              Hinit (or_introl eq_refl) eq_refl eq_refl)
    as (s' & Hs' & Hpos & _).
  { vm_compute. discriminate. }
  exists s'. split; [exact Hs' | exact Hpos].
Defined.

